(** * md2pdf-mermaid: a shallow embedding of the conversion pipeline

    The development follows the TypeScript sources:
    - [JS]        : the fragments of the JavaScript runtime the code relies on
                    (strings as sequences of UTF-16 code units, [substring],
                    [trim], a backtracking matcher for the two delimiter
                    patterns, [RegExp.prototype.exec] with the [g] flag, the
                    stable [Array.prototype.sort], numbers with [NaN] and
                    the infinities, [Array.prototype.slice], [parseInt]);
    - [Mermaid]   : [mermaid-processor.ts];
    - [Config]    : [config.ts] and the constructor of [pdf-generator.ts];
    - [Converter] : [converter.ts] ([convert], [batchConvert], [watch]);
    - [PdfGen]    : the [PdfGenerator] class of [pdf-generator.ts];
    - [ConfigLoader] : [loadConfig] of [config.ts].

    The modules [MermaidSpec], [ConfigSpec] and [ConverterSpec] fix the
    vocabulary of the statements, [Samples] holds concrete documents and
    environments, and the remaining modules hold the proofs. *)

From Stdlib Require Import ZArith Lia Ascii String DecimalString.
From Stdlib Require Import Sorting.Sorted Sorting.Permutation.
From stdpp Require Import gmap strings list.

Open Scope Z_scope.

(* ===================================================================== *)
(** * The JavaScript fragments                                            *)
(* ===================================================================== *)
Module JS.

(** A JavaScript string is a finite sequence of UTF-16 code units. *)
Abbreviation jsstring := (list N).

(** Source-level string literals (ASCII only in this code base). *)
Definition lit (s : string) : jsstring :=
  map N_of_ascii (list_ascii_of_string s).

Definition len (s : jsstring) : Z := Z.of_nat (length s).

(** ** [String.prototype.substring]

    Both arguments are clamped to [0, length]; when the first exceeds the
    second they are swapped. *)
Definition clamp (s : jsstring) (z : Z) : nat :=
  Z.to_nat (Z.min (Z.max z 0) (len s)).

Definition substring (s : jsstring) (a b : Z) : jsstring :=
  let a' := clamp s a in
  let b' := clamp s b in
  take (Nat.max a' b' - Nat.min a' b') (drop (Nat.min a' b') s).

(** [s.substring(a)]: the end defaults to the length. *)
Definition substringFrom (s : jsstring) (a : Z) : jsstring :=
  drop (clamp s a) s.

(** ** White space: the class [\s], also what [trim] strips
    (WhiteSpace and LineTerminator code points of ECMAScript). *)
Definition isSpace (c : N) : bool :=
  (  (9 <=? c) && (c <=? 13)
  || (c =? 32) || (c =? 160) || (c =? 5760)
  || ((8192 <=? c) && (c <=? 8202))
  || (c =? 8232) || (c =? 8233) || (c =? 8239) || (c =? 8287)
  || (c =? 12288) || (c =? 65279))%N.

Fixpoint trimStart (s : jsstring) : jsstring :=
  match s with
  | c :: s' => if isSpace c then trimStart s' else s
  | [] => []
  end.

Definition trim (s : jsstring) : jsstring :=
  rev (trimStart (rev (trimStart s))).

(** ** [String.prototype.includes] *)
Fixpoint startsWith (needle s : jsstring) : bool :=
  match needle, s with
  | [], _ => true
  | a :: needle', b :: s' => (a =? b)%N && startsWith needle' s'
  | _ :: _, [] => false
  end.

Fixpoint includes (needle s : jsstring) : bool :=
  startsWith needle s ||
  match s with
  | [] => false
  | _ :: s' => includes needle s'
  end.

(** ** Number to string, for template literals over array indices. *)
Definition numToString (n : nat) : jsstring :=
  lit (NilEmpty.string_of_uint (Nat.to_uint n)).

(** ** Regular expressions

    The patterns of the code base are sequences of single-unit matchers,
    starred character classes (greedy [*] or lazy [*?]) and one capture
    group.  [run] is the backtracking matcher of ECMAScript restricted to
    that shape: a greedy star first tries one more iteration and falls
    back to the continuation, a lazy star first tries the continuation. *)
Inductive cclass : Type :=
| CUnit (c : N)        (* a literal code unit *)
| CUnitI (c : N)       (* a literal code unit under the [i] flag *)
| CSpace               (* \s *)
| CAny.                (* [\s\S] *)

(** Canonicalisation under the [i] flag (without [u]): the upper-case
    mapping.  A code unit outside ASCII is never mapped into ASCII, so for
    ASCII pattern characters only the ASCII letters matter. *)
Definition canonicalize (c : N) : N :=
  (if (97 <=? c) && (c <=? 122) then c - 32 else c)%N.

Definition inClass (k : cclass) (c : N) : bool :=
  match k with
  | CUnit u => (c =? u)%N
  | CUnitI u => (canonicalize c =? canonicalize u)%N
  | CSpace => isSpace c
  | CAny => isSpace c || negb (isSpace c)
  end.

Inductive atom : Type :=
| AChar (k : cclass)
| AStar (greedy : bool) (k : cclass)
| AOpen                (* ( *)
| AClose               (* ) *)
| AEnd.                (* $ without the [m] flag *)

Definition pattern := list atom.

Definition units (s : string) : pattern :=
  map (fun c => AChar (CUnit c)) (lit s).

(** The least number of code units a pattern consumes. *)
Fixpoint minLen (p : pattern) : nat :=
  match p with
  | [] => 0
  | AChar _ :: p' => S (minLen p')
  | _ :: p' => minLen p'
  end.

(** [run p s pos g cap]: match [p] against the remaining input [s], which
    starts at absolute position [pos]; [g] is where the open group
    started, [cap] the span captured so far.  Returns the end position
    and the capture. *)
Fixpoint run (p : pattern) (s : jsstring) (pos : nat) (g : nat)
    (cap : option (nat * nat)) {struct p} : option (nat * option (nat * nat)) :=
  match p with
  | [] => Some (pos, cap)
  | AChar k :: p' =>
      match s with
      | c :: s' => if inClass k c then run p' s' (S pos) g cap else None
      | [] => None
      end
  | AOpen :: p' => run p' s pos pos cap
  | AClose :: p' => run p' s pos g (Some (g, pos))
  | AEnd :: p' => match s with [] => run p' s pos g cap | _ :: _ => None end
  | AStar greedy k :: p' =>
      (fix star (s : jsstring) (pos : nat) {struct s} :=
         let more (_ : unit) :=
           match s with
           | c :: s' => if inClass k c then star s' (S pos) else None
           | [] => None
           end in
         if greedy then
           match more tt with
           | Some r => Some r
           | None => run p' s pos g cap
           end
         else
           match run p' s pos g cap with
           | Some r => Some r
           | None => more tt
           end) s pos
  end.

(** The result of a successful [exec]: [index], [match[0]], [match[1]]
    and the new [lastIndex]. *)
Record RegExpMatch : Type := mkMatch {
  index : nat;
  whole : jsstring;
  group1 : option jsstring;
  lastIndexAfter : nat
}.

Definition slice (s : jsstring) (from to : nat) : jsstring :=
  take (to - from) (drop from s).

(** Scan for the leftmost position at or after [pos] where [p] matches;
    [s] is the input from [pos] on, [content] the whole input. *)
Fixpoint search (p : pattern) (content s : jsstring) (pos : nat)
    : option RegExpMatch :=
  match run p s pos pos None with
  | Some (e, cap) =>
      Some {| index := pos;
              whole := slice content pos e;
              group1 := (fun '(a, b) => slice content a b) <$> cap;
              lastIndexAfter := e |}
  | None =>
      match s with
      | [] => None
      | _ :: s' => search p content s' (S pos)
      end
  end.

(** [regex.exec(content)] for a global regex whose [lastIndex] is
    [lastIndex]: [None] is [null] (and [lastIndex] is reset to 0). *)
Definition exec (p : pattern) (content : jsstring) (lastIndex : nat)
    : option RegExpMatch :=
  if (length content <? lastIndex)%nat then None
  else search p content (drop lastIndex content) lastIndex.

(** [s.replace(regex, replacement)] for a regex without the [g] flag and
    a replacement without [$] patterns: the first match is replaced. *)
Definition replaceFirst (p : pattern) (replacement s : jsstring) : jsstring :=
  match search p s s 0 with
  | Some m => take (index m) s ++ replacement ++ drop (lastIndexAfter m) s
  | None => s
  end.

(** ** [Array.prototype.sort] with a numeric key comparator
    [(a, b) => key a - key b]: the sort is stable, so its result is the
    one of stable insertion. *)
Section Sort.
Context {A : Type} (key : A -> Z).

(** The order the comparator induces. *)
Definition keyLe (a b : A) : Prop := key a <= key b.

Fixpoint insertSorted (x : A) (l : list A) : list A :=
    match l with
    | [] => [x]
    | y :: l' => if key x <=? key y then x :: l else y :: insertSorted x l'
    end.

Definition sortBy (l : list A) : list A :=
    foldr insertSorted [] l.
End Sort.

(** ** Numbers

    The values of type [number] that the code modelled here can meet
    without floating-point rounding: the integers, [NaN] and the two
    infinities.  An integer stands for the double of that value; the
    code adds such values only to array indices and compares the sums
    with array lengths, where the rounding of very large sums changes
    nothing.  Finite values that are not integers are left out: on them
    the sums of the code are floating-point sums. *)
Inductive number : Type :=
| NaN
| Infinity (negative : bool)
| Int (z : Z).

(** [a + b] *)
Definition numAdd (a b : number) : number :=
  match a, b with
  | NaN, _ => NaN
  | _, NaN => NaN
  | Infinity s, Infinity t => if Bool.eqb s t then Infinity s else NaN
  | Infinity s, Int _ => Infinity s
  | Int _, Infinity t => Infinity t
  | Int x, Int y => Int (x + y)
  end.

(** [a < b]: false when an operand is [NaN]. *)
Definition numLt (a b : number) : bool :=
  match a, b with
  | NaN, _ => false
  | _, NaN => false
  | Infinity true, Infinity true => false
  | Infinity true, _ => true
  | Infinity false, _ => false
  | Int _, Infinity t => negb t
  | Int x, Int y => x <? y
  end.

(** An argument of [Array.prototype.slice] as an index into an array of
    length [len]: [ToIntegerOrInfinity], a negative value counted from
    the end, the result clamped to [0, len]. *)
Definition relativeIndex (len : nat) (k : number) : nat :=
  match k with
  | NaN => 0
  | Infinity true => 0
  | Infinity false => len
  | Int z => if z <? 0 then Z.to_nat (Z.max (Z.of_nat len + z) 0)
             else Z.to_nat (Z.min z (Z.of_nat len))
  end.

(** [array.slice(start, end)] *)
Definition arraySlice {T} (array : list T) (start final : number) : list T :=
  let k := relativeIndex (length array) start in
  let f := relativeIndex (length array) final in
  take (f - k) (drop k array).

(** [parseInt(s, 10)]: white space is skipped, then an optional sign
    and the longest run of decimal digits are read; without a digit the
    result is [NaN].  A run of digits beyond the range of the doubles
    reads as an infinity in JavaScript and as its integer here; the
    code modelled here treats the two alike. *)
Fixpoint digitsValue (acc : Z) (s : jsstring) : Z :=
  match s with
  | c :: rest =>
      if ((48 <=? c) && (c <=? 57))%N
      then digitsValue (10 * acc + Z.of_N (c - 48)) rest
      else acc
  | [] => acc
  end.

Definition startsWithDigit (s : jsstring) : bool :=
  match s with
  | c :: _ => ((48 <=? c) && (c <=? 57))%N
  | [] => false
  end.

Definition parseInt10 (s : jsstring) : number :=
  let '(negative, digits) :=
    match trimStart s with
    | 45%N :: rest => (true, rest)
    | 43%N :: rest => (false, rest)
    | rest => (false, rest)
    end in
  if startsWithDigit digits
  then Int (if negative then - digitsValue 0 digits else digitsValue 0 digits)
  else NaN.

End JS.

(* ===================================================================== *)
(** * Effects: the file system of temporary directories and exceptions    *)
(* ===================================================================== *)
Module Eff.
Import JS.

(** What the code can observe and change outside its own variables: the
    set of temporary directories that exist, and the [tempDir] field of
    the [MermaidProcessor] instance owned by the converter. *)
Record World : Type := mkWorld {
  dirs : gset jsstring;
  tempDir : option jsstring;
  pdfDests : list jsstring   (* destinations handed to the PDF generator *)
}.

(** A computation either returns or throws an error with a message;
    changes to the world made before a throw persist. *)
Inductive Exc (A : Type) : Type :=
| Ok (a : A)
| Throw (msg : jsstring).
Arguments Ok {A} a.
Arguments Throw {A} msg.

Definition M (A : Type) : Type := World -> Exc A * World.

Definition ret {A} (a : A) : M A := fun w => (Ok a, w).
Definition throw {A} (msg : jsstring) : M A := fun w => (Throw msg, w).
Definition bind {A B} (m : M A) (k : A -> M B) : M B :=
  fun w => match m w with
           | (Ok a, w') => k a w'
           | (Throw e, w') => (Throw e, w')
           end.
(** [try { m } catch (error) { h (message of error) }] *)
Definition tryCatch {A} (m : M A) (h : jsstring -> M A) : M A :=
  fun w => match m w with
           | (Ok a, w') => (Ok a, w')
           | (Throw e, w') => h e w'
           end.
(** [try { m } finally { f }]: [f] runs on both paths; if [f] throws,
    its error replaces the outcome of [m]. *)
Definition finally {A} (m : M A) (f : M unit) : M A :=
  fun w => match m w with
           | (r, w') => match f w' with
                        | (Ok _, w'') => (r, w'')
                        | (Throw e, w'') => (Throw e, w'')
                        end
           end.
(** The outcome of a call into the environment, decided outside the code. *)
Definition call {A} (outcome : Exc A) : M A := fun w => (outcome, w).
Definition getWorld : M World := fun w => (Ok w, w).
Definition setDirs (d : gset jsstring) : M unit :=
  fun w => (Ok tt, {| dirs := d; tempDir := tempDir w;
                      pdfDests := pdfDests w |}).
Definition setTempDir (t : option jsstring) : M unit :=
  fun w => (Ok tt, {| dirs := dirs w; tempDir := t;
                      pdfDests := pdfDests w |}).
Definition logPdfDest (dest : jsstring) : M unit :=
  fun w => (Ok tt, {| dirs := dirs w; tempDir := tempDir w;
                      pdfDests := pdfDests w ++ [dest] |}).

#[global] Instance M_ret : MRet M := @ret.
#[global] Instance M_bind : MBind M := fun A B k m => bind m k.

(** JavaScript truthiness of a [string | null] value. *)
Definition truthy (o : option jsstring) : bool :=
  match o with
  | Some (_ :: _) => true
  | _ => false
  end.

End Eff.

(* ===================================================================== *)
(** * mermaid-processor.ts                                                *)
(* ===================================================================== *)
Module Mermaid.
Import JS Eff.

(** [MERMAID_PATTERNS]: the code fence and the triple-colon syntax. *)
Definition codeFence : pattern :=
  units "```mermaid" ++ [AStar true CSpace; AChar (CUnit 10); AOpen;
                         AStar false CAny; AClose] ++ units "```".

Definition tripleColon : pattern :=
  units ":::mermaid" ++ [AStar true CSpace; AChar (CUnit 10); AOpen;
                         AStar false CAny; AClose] ++ units ":::".

Definition MERMAID_PATTERNS : list pattern := [codeFence; tripleColon].

Record MermaidDiagram : Type := mkDiagram {
  fullMatch : jsstring;
  code : jsstring;
  startIndex : Z;
  endIndex : Z
}.

(** The diagram pushed for one match of the [while] loop. *)
Definition diagramOf (m : RegExpMatch) : MermaidDiagram :=
  {| fullMatch := whole m;
     code := match group1 m with Some g => trim g | None => [] end;
     startIndex := Z.of_nat (index m);
     endIndex := Z.of_nat (index m) + len (whole m) |}.

(** [while ((match = regex.exec(content)) !== null) diagrams.push(...)].
    The loop is driven by the regex's [lastIndex]; [fuel] bounds the
    number of iterations (see [execLoop_fuel] for why the bound used by
    [extractDiagrams] is never reached). *)
Fixpoint execLoop (fuel : nat) (p : pattern) (content : jsstring)
    (lastIndex : nat) : list MermaidDiagram :=
  match fuel with
  | O => []
  | S fuel' =>
      match exec p content lastIndex with
      | None => []
      | Some m => diagramOf m :: execLoop fuel' p content (lastIndexAfter m)
      end
  end.

Definition matchesOf (p : pattern) (content : jsstring) : list MermaidDiagram :=
  execLoop (S (length content)) p content 0.

Definition extractDiagrams (content : jsstring) : list MermaidDiagram :=
  sortBy startIndex (concat (map (fun p => matchesOf p content) MERMAID_PATTERNS)).

(** ** [renderDiagram] *)

(** How the [npx mmdc] subprocess started by [execAsync] ends:
    [execAsync] resolves on exit code 0 and rejects with an [Error] on a
    non-zero exit and when the 60 s timeout kills the child. *)
Inductive ExecOutcome : Type :=
| ExitZero
| ExitNonZero (msg : jsstring)
| TimedOut (msg : jsstring).

(** The outcomes of the environment calls of one [renderDiagram] call. *)
Record RenderEnv : Type := mkRenderEnv {
  tmpDirCall : Exc jsstring;        (* tmp.dir({ unsafeCleanup: true }) *)
  writeInput : Exc unit;            (* fs.writeFile(inputPath, code) *)
  writeMermaidConfig : Exc unit;    (* createMermaidConfig *)
  writePuppeteerConfig : Exc unit;  (* createPuppeteerConfig *)
  mmdc : ExecOutcome;               (* execAsync(command, { timeout }) *)
  outputExists : bool               (* fs.pathExists(outputPath) *)
}.

Record RenderResult : Type := mkResult {
  success : bool;
  error : option jsstring
}.

Definition execAsync (o : ExecOutcome) : M unit :=
  match o with
  | ExitZero => ret tt
  | ExitNonZero msg => throw msg
  | TimedOut msg => throw msg
  end.

(** The command line is assembled from the paths and options and handed
    to the subprocess; what the subprocess does with it is [mmdc e]. *)
Definition renderDiagram (e : RenderEnv) (code outputPath : jsstring)
    : M RenderResult :=
  tryCatch
    (w ← getWorld ;
     (if negb (truthy (tempDir w)) then
        p ← call (tmpDirCall e) ;
        setDirs ({[ p ]} ∪ dirs w) ;;
        setTempDir (Some p)
      else ret tt) ;;
     call (writeInput e) ;;
     call (writeMermaidConfig e) ;;
     call (writePuppeteerConfig e) ;;
     execAsync (mmdc e) ;;
     if outputExists e
     then ret {| success := true; error := None |}
     else ret {| success := false;
                 error := Some (lit "Output file was not created") |})
    (fun errorMessage =>
       ret {| success := false; error := Some errorMessage |}).

(** ** [processMarkdown] *)

Record LoopState : Type := mkLoop {
  processedContent : jsstring;
  offset : Z;
  errors : list jsstring
}.

Record ProcessResult : Type := mkProcessResult {
  resultContent : jsstring;
  diagramCount : nat;
  resultErrors : list jsstring
}.

Section Process.
(** [path.join] is not interpreted: the image path only travels to the
    renderer. [outputFormat] is [this.options.outputFormat]. *)
Variable pathJoin : jsstring -> jsstring -> jsstring.
Variable outputFormat : jsstring.
(** The environment of the [i]-th render call of this run. *)
Variable renders : nat -> RenderEnv.

Definition imageName (baseFileName : jsstring) (i : nat) : jsstring :=
    baseFileName ++ lit "-diagram-" ++ numToString (i + 1) ++ lit "."
      ++ outputFormat.

Definition imageMarkdown (baseFileName : jsstring) (i : nat) : jsstring :=
    lit "![Diagram " ++ numToString (i + 1) ++ lit "](./"
      ++ imageName baseFileName i ++ lit ")".

Definition errorEntry (i : nat) (r : RenderResult) : jsstring :=
    lit "Diagram " ++ numToString (i + 1) ++ lit ": "
      ++ match error r with Some e => e | None => lit "undefined" end.

(** The body of the [for] loop after the render of diagram [i]
    returned [r]. *)
Definition spliceStep (baseFileName : jsstring) (i : nat)
      (diagram : MermaidDiagram) (r : RenderResult) (st : LoopState)
      : LoopState :=
    if success r then
      let img := imageMarkdown baseFileName i in
      let adjustedStart := startIndex diagram + offset st in
      let adjustedEnd := endIndex diagram + offset st in
      {| processedContent :=
           substring (processedContent st) 0 adjustedStart ++ img
             ++ substringFrom (processedContent st) adjustedEnd;
         offset := offset st + (len img - len (fullMatch diagram));
         errors := errors st |}
    else
      {| processedContent := processedContent st;
         offset := offset st;
         errors := errors st ++ [errorEntry i r] |}.

(** [for (let i = ...; i < diagrams.length; i++)], from index [i] on. *)
Fixpoint processLoop (outputDir baseFileName : jsstring) (i : nat)
      (diagrams : list MermaidDiagram) (st : LoopState) : M LoopState :=
    match diagrams with
    | [] => ret st
    | diagram :: rest =>
        let imagePath := pathJoin outputDir (imageName baseFileName i) in
        r ← renderDiagram (renders i) (code diagram) imagePath ;
        processLoop outputDir baseFileName (S i) rest
          (spliceStep baseFileName i diagram r st)
    end.

Definition processMarkdown (content outputDir baseFileName : jsstring)
      : M ProcessResult :=
    let diagrams := extractDiagrams content in
    st ← processLoop outputDir baseFileName 0 diagrams
            {| processedContent := content; offset := 0; errors := [] |} ;
    ret {| resultContent := processedContent st;
           diagramCount := length diagrams;
           resultErrors := errors st |}.

End Process.

(** [cleanup]: the outcome of [fs.remove] is [removeCall]. *)
Definition cleanup (removeCall : Exc unit) : M unit :=
  w ← getWorld ;
  match tempDir w with
  | Some p =>
      if truthy (tempDir w) && bool_decide (p ∈ dirs w) then
        call removeCall ;;
        setDirs (dirs w ∖ {[ p ]}) ;;
        setTempDir None
      else ret tt
  | None => ret tt
  end.

End Mermaid.

(* ===================================================================== *)
(** * config.ts and the layering of PDF options                           *)
(* ===================================================================== *)
Module Config.
Import JS.

(** Option objects are plain JavaScript objects: finite maps from
    property names to values.  A property can be present with the value
    [undefined], which is not the same as the property being absent:
    object spread copies it like any other own property. *)
#[warnings="-register-all"]
Inductive value : Type :=
| VUndefined
| VBool (b : bool)
| VNum (n : Z)
| VStr (s : jsstring)
| VObj (o : gmap string value).

Abbreviation object := (gmap string value).

(** [{ ...a, ...b }]: spreading [undefined] contributes nothing; for a
    property of both, the later operand wins. *)
Definition spread (a b : option object) : object :=
  default ∅ b ∪ default ∅ a.

(** [ConfigFile] *)
Record ConfigFile : Type := mkConfigFile {
  filePdf : option object;
  fileMermaid : option object;
  fileStyle : option object;
  fileOutputDir : option jsstring;
  fileIgnore : option (list jsstring)
}.

(** [Partial<ConversionOptions>]: [None] is a property that reads as
    [undefined]. *)
Record ConversionOptions : Type := mkOptions {
  input : option jsstring;
  output : option jsstring;
  pdf : option object;
  mermaid : option object;
  style : option object;
  keepIntermediate : option bool;
  workingDir : option jsstring;
  verbose : option bool
}.

Definition truthyStr (o : option jsstring) : option jsstring :=
  match o with
  | Some (_ :: _) => o
  | _ => None
  end.

(** One sub-object of [mergeConfig]: [merged.x = fileConfig.x] when the
    file supplies it, then [merged.x = { ...merged.x, ...cliOptions.x }]
    when the caller supplies it. *)
Definition mergeSub (fromFile fromCli : option object) : option object :=
  let merged := fromFile in
  match fromCli with
  | Some _ => Some (spread merged fromCli)
  | None => merged
  end.

Definition mergeConfig (fileConfig : option ConfigFile)
    (cliOptions : ConversionOptions) : ConversionOptions :=
  let file (get : ConfigFile -> option object) : option object :=
    match fileConfig with
    | Some fc => get fc
    | None => None
    end in
  {| pdf := mergeSub (file filePdf) (pdf cliOptions);
     mermaid := mergeSub (file fileMermaid) (mermaid cliOptions);
     style := mergeSub (file fileStyle) (style cliOptions);
     input := truthyStr (input cliOptions);
     output := truthyStr (output cliOptions);
     verbose := verbose cliOptions;
     keepIntermediate := keepIntermediate cliOptions;
     workingDir := truthyStr (workingDir cliOptions) |}.

(** pdf-generator.ts: [DEFAULT_PDF_OPTIONS] and the constructor's
    [this.pdfOptions = { ...DEFAULT_PDF_OPTIONS, ...pdfOptions }]. *)
Definition DEFAULT_PDF_OPTIONS : object :=
  {[ "format" := VStr (lit "A4");
     "margin" := VObj {[ "top" := VStr (lit "20mm");
                         "right" := VStr (lit "15mm");
                         "bottom" := VStr (lit "20mm");
                         "left" := VStr (lit "15mm") ]};
     "printBackground" := VBool true;
     "landscape" := VBool false;
     "displayHeaderFooter" := VBool false;
     "scale" := VNum 1 ]}.

Definition pdfGeneratorOptions (pdfOptions : option object) : object :=
  spread (Some DEFAULT_PDF_OPTIONS) pdfOptions.

(** The PDF options in force for a converter built from the merged
    configuration ([createConverter (mergeConfig fileConfig cliOptions)]). *)
Definition effectivePdfOptions (fileConfig : option ConfigFile)
    (cliOptions : ConversionOptions) : object :=
  pdfGeneratorOptions (pdf (mergeConfig fileConfig cliOptions)).

(** What cli.ts builds for [convert <input>] from the parsed flags:
    commander leaves [--landscape], [--output], [--verbose],
    [--keep-intermediate] and [--css] [undefined] when they are not given,
    and fills [--format], the margins and [--theme] with their defaults. *)
Record ConvertFlags : Type := mkFlags {
  flagOutput : option jsstring;
  flagFormat : jsstring;
  flagLandscape : option bool;
  flagMarginTop : jsstring;
  flagMarginBottom : jsstring;
  flagMarginLeft : jsstring;
  flagMarginRight : jsstring;
  flagTheme : jsstring;
  flagCss : option jsstring;
  flagKeepIntermediate : option bool;
  flagVerbose : option bool
}.

Definition optBool (o : option bool) : value :=
  match o with Some b => VBool b | None => VUndefined end.

Definition cliOptionsOf (inputArg : jsstring) (f : ConvertFlags)
    : ConversionOptions :=
  {| input := Some inputArg;
     output := flagOutput f;
     verbose := flagVerbose f;
     keepIntermediate := flagKeepIntermediate f;
     pdf := Some {[ "format" := VStr (flagFormat f);
                    "landscape" := optBool (flagLandscape f);
                    "margin" := VObj {[ "top" := VStr (flagMarginTop f);
                                        "bottom" := VStr (flagMarginBottom f);
                                        "left" := VStr (flagMarginLeft f);
                                        "right" := VStr (flagMarginRight f) ]} ]};
     mermaid := Some {[ "theme" := VStr (flagTheme f) ]};
     style := match truthyStr (flagCss f) with
              | Some css => Some {[ "cssFile" := VStr css ]}
              | None => None
              end;
     workingDir := None |}.

Definition defaultFlags : ConvertFlags :=
  {| flagOutput := None; flagFormat := lit "A4"; flagLandscape := None;
     flagMarginTop := lit "20mm"; flagMarginBottom := lit "20mm";
     flagMarginLeft := lit "15mm"; flagMarginRight := lit "15mm";
     flagTheme := lit "default"; flagCss := None;
     flagKeepIntermediate := None; flagVerbose := None |}.

End Config.

(* ===================================================================== *)
(** * converter.ts                                                        *)
(* ===================================================================== *)
Module Converter.
Import JS Eff.

(** [/\.md$/i] *)
Definition mdSuffix : pattern :=
  [AChar (CUnit 46); AChar (CUnitI 109); AChar (CUnitI 100); AEnd].

Definition mdToPdf (path : jsstring) : jsstring :=
  replaceFirst mdSuffix (lit ".pdf") path.

Record ConversionResult : Type := mkConversionResult {
  success : bool;
  inputFile : jsstring;
  outputFile : option jsstring;
  error : option jsstring;
  diagramCount : option nat
}.

(** The result of [pdfGenerator.generate], which catches its own errors. *)
Record GenerateResult : Type := mkGenerateResult {
  genSuccess : bool;
  genError : option jsstring
}.

(** The outcomes of the environment calls of one [convert] call, in the
    order of the code. *)
Record ConvertEnv : Type := mkConvertEnv {
  inputExists : bool;                    (* fs.pathExists(resolvedInput) *)
  readFile : Exc jsstring;               (* fs.readFile(resolvedInput) *)
  tmpDirCall : Exc jsstring;             (* tmp.dir({ unsafeCleanup: true }) *)
  renders : nat -> Mermaid.RenderEnv;    (* the render calls, in order *)
  writeProcessed : Exc unit;             (* fs.writeFile(tempInputPath, ...) *)
  copyLocalAssets : Exc unit;            (* this.copyLocalAssets(...) *)
  generate : GenerateResult;             (* this.pdfGenerator.generate(...) *)
  tmpCleanup : Exc unit;                 (* tmpDir.cleanup() *)
  removeTempDir : Exc unit               (* fs.remove in mermaidProcessor.cleanup() *)
}.

Section Convert.
(** The functions of node's [path] module are not interpreted. *)
Variable resolve : jsstring -> jsstring.
Variable basename : jsstring -> jsstring.
Variable basenameWithout : jsstring -> jsstring -> jsstring.
Variable extname : jsstring -> jsstring.
Variable pathJoin : jsstring -> jsstring -> jsstring.

(** [this.options] of the converter. *)
Variable options : Config.ConversionOptions.

(** [options.outputFormat ?? 'png'] in the processor's constructor. *)
Definition outputFormat : jsstring :=
    match Config.mermaid options with
    | Some o => match o !! "outputFormat" with
                | Some (Config.VStr s) => s
                | _ => lit "png"
                end
    | None => lit "png"
    end.

(** [outputPath ? path.resolve(outputPath)
                : resolvedInput.replace(/\.md$/i, '.pdf')] *)
Definition resolvedOutputOf (inputPath : jsstring)
      (outputPath : option jsstring) : jsstring :=
    match outputPath with
    | Some o => if truthy outputPath then resolve o else mdToPdf (resolve inputPath)
    | None => mdToPdf (resolve inputPath)
    end.

Definition addDir (p : jsstring) : M unit :=
    w ← getWorld ; setDirs ({[ p ]} ∪ dirs w).
Definition removeDir (p : jsstring) : M unit :=
    w ← getWorld ; setDirs (dirs w ∖ {[ p ]}).

(** The [try] block of [convert]. *)
Definition convertBody (e : ConvertEnv) (resolvedInput resolvedOutput : jsstring)
      : M ConversionResult :=
    (if negb (inputExists e)
     then throw (lit "Input file not found: " ++ resolvedInput)
     else ret tt) ;;
    content ← call (readFile e) ;
    workDir ← call (tmpDirCall e) ;
    addDir workDir ;;
    let tempInputPath := pathJoin workDir (basename resolvedInput) in
    let baseFileName := basenameWithout resolvedInput (extname resolvedInput) in
    pm ← Mermaid.processMarkdown pathJoin outputFormat (renders e)
           content workDir baseFileName ;
    call (writeProcessed e) ;;
    call (copyLocalAssets e) ;;
    logPdfDest resolvedOutput ;;
    let result := generate e in
    (if negb (genSuccess result)
     then throw (match genError result with
                 | Some msg => msg
                 | None => lit "PDF generation failed"
                 end)
     else ret tt) ;;
    (if negb (default false (Config.keepIntermediate options))
     then call (tmpCleanup e) ;; removeDir workDir
     else ret tt) ;;
    ret {| success := true;
           inputFile := resolvedInput;
           outputFile := Some resolvedOutput;
           error := None;
           diagramCount := Some (Mermaid.diagramCount pm) |}.

(** [convert]; the [duration] fields are wall-clock readings and are
    left out. *)
Definition convert (e : ConvertEnv) (inputPath : jsstring)
      (outputPath : option jsstring) : M ConversionResult :=
    let resolvedInput := resolve inputPath in
    let resolvedOutput := resolvedOutputOf inputPath outputPath in
    finally
      (tryCatch
         (convertBody e resolvedInput resolvedOutput)
         (fun errorMessage =>
            ret {| success := false;
                   inputFile := resolvedInput;
                   outputFile := None;
                   error := Some errorMessage;
                   diagramCount := None |}))
      (Mermaid.cleanup (removeTempDir e)).
End Convert.

(** ** [chunkArray] and [batchConvert] *)

(** [for (let i = 0; i < array.length; i += size)
      chunks.push(array.slice(i, i + size))], from the value [i] of the
    loop variable on.  [None]: the loop has not ended within [fuel]
    rounds. *)
Fixpoint chunkLoop {T} (fuel : nat) (array : list T) (size i : number)
    : option (list (list T)) :=
  match fuel with
  | O => None
  | S fuel' =>
      if numLt i (Int (Z.of_nat (length array)))
      then
        match chunkLoop fuel' array size (numAdd i size) with
        | Some chunks => Some (arraySlice array i (numAdd i size) :: chunks)
        | None => None
        end
      else Some []
  end.

(** The loop ends within [length array] rounds or not at all ([size]
    zero, negative or [-Infinity] on an array that is not empty); then
    the result is [None]. *)
Definition chunkArray {T} (array : list T) (size : number)
    : option (list (list T)) :=
  chunkLoop (S (length array)) array size (Int 0).

(** [[...new Set(files)]]: the first occurrence of each path, in order. *)
Fixpoint uniqueFrom (seen : gset jsstring) (files : list jsstring)
    : list jsstring :=
  match files with
  | [] => []
  | f :: rest =>
      if bool_decide (f ∈ seen) then uniqueFrom seen rest
      else f :: uniqueFrom ({[ f ]} ∪ seen) rest
  end.

Record BatchConversionOptions : Type := mkBatchOptions {
  patterns : list jsstring;
  outputDir : option jsstring;
  concurrency : option number;
  continueOnError : option bool
}.

Record BatchConversionResult : Type := mkBatchResult {
  total : nat;
  successful : nat;
  failed : nat;
  results : list ConversionResult
}.

(** How the promise of [batchConvert] settles.  It rejects when
    [Promise.all] does, with the reason of the conversion of the group
    that rejected first; [reasons] lists the reasons of the conversions
    of that group that reject, in the order of the files. *)
Inductive BatchOutcome : Type :=
| Resolved (result : BatchConversionResult)
| Rejected (reasons : list jsstring).

(** [await Promise.all(promises)] for promises that settle as
    [outcomes]: the values, when every promise resolves. *)
Fixpoint allResolved {A} (outcomes : list (Exc A)) : option (list A) :=
  match outcomes with
  | [] => Some []
  | Ok a :: rest =>
      match allResolved rest with
      | Some values => Some (a :: values)
      | None => None
      end
  | Throw _ :: _ => None
  end.

Fixpoint rejections {A} (outcomes : list (Exc A)) : list jsstring :=
  match outcomes with
  | [] => []
  | Ok _ :: rest => rejections rest
  | Throw reason :: rest => reason :: rejections rest
  end.

(** The variables of the two loops, and the conversions launched so far
    (the latter is not a variable of the code; it records the calls of
    [this.convert]). *)
Record BatchState : Type := mkBatchState {
  stResults : list ConversionResult;
  stSuccessful : nat;
  stFailed : nat;
  launched : list jsstring
}.

Section Batch.
Variable basename : jsstring -> jsstring.
Variable pathJoin : jsstring -> jsstring -> jsstring.
(** [glob(pattern, { absolute: true })] *)
Variable glob : jsstring -> list jsstring.
(** How [this.convert(file, outputPath)] settles: [convert] reports
    failures as values, and rejects when its [finally] block throws. *)
Variable convertOutcome : jsstring -> option jsstring -> Exc ConversionResult.

Definition batchOutputPath (o : BatchConversionOptions) (file : jsstring)
      : option jsstring :=
    match outputDir o with
    | Some d => if truthy (outputDir o)
                then Some (pathJoin d (mdToPdf (basename file)))
                else None
    | None => None
    end.

(** [for (const result of chunkResults)] *)
Fixpoint tallyLoop (continue : bool) (chunkResults : list ConversionResult)
      (st : BatchState) : BatchState :=
    match chunkResults with
    | [] => st
    | result :: rest =>
        let pushed := stResults st ++ [result] in
        if success result then
          tallyLoop continue rest
            {| stResults := pushed; stSuccessful := S (stSuccessful st);
               stFailed := stFailed st; launched := launched st |}
        else
          let st' := {| stResults := pushed; stSuccessful := stSuccessful st;
                        stFailed := S (stFailed st); launched := launched st |} in
          if negb continue then st' (* break *)
          else tallyLoop continue rest st'
    end.

(** [for (const chunk of chunks)]: [chunk.map] starts the conversion of
    every member, [Promise.all] waits for all of them and rejects when
    one of them does; the rejection ends [batchConvert].  The result is
    the state of the loop variables at its end and, when
    [batchConvert] rejects, the reasons. *)
Fixpoint chunksLoop (o : BatchConversionOptions) (chunks : list (list jsstring))
      (st : BatchState) : BatchState * option (list jsstring) :=
    match chunks with
    | [] => (st, None)
    | chunk :: rest =>
        let outcomes :=
          map (fun file => convertOutcome file (batchOutputPath o file)) chunk in
        let st0 := {| stResults := stResults st;
                      stSuccessful := stSuccessful st;
                      stFailed := stFailed st;
                      launched := launched st ++ chunk |} in
        match allResolved outcomes with
        | None => (st0, Some (rejections outcomes))
        | Some chunkResults =>
            let st1 := tallyLoop (default false (continueOnError o))
                         chunkResults st0 in
            if negb (default false (continueOnError o)) && (0 <? stFailed st1)%nat
            then (st1, None) (* break *)
            else chunksLoop o rest st1
        end
    end.

Definition uniqueFiles (o : BatchConversionOptions) : list jsstring :=
    uniqueFrom ∅ (concat (map glob (patterns o))).

(** [batchConvert]: how it settles and the conversions it launched;
    [None] when [chunkArray] does not terminate. *)
Definition batchConvert (o : BatchConversionOptions)
      : option (BatchOutcome * list jsstring) :=
    chunks ← chunkArray (uniqueFiles o) (default (Int 3) (concurrency o)) ;
    let '(st, rejected) :=
      chunksLoop o chunks
        {| stResults := []; stSuccessful := 0; stFailed := 0; launched := [] |} in
    Some (match rejected with
          | Some reasons => Rejected reasons
          | None => Resolved {| total := length (uniqueFiles o);
                                successful := stSuccessful st;
                                failed := stFailed st;
                                results := stResults st |}
          end, launched st).
End Batch.

(** ** [watch]

    The handler, the timer callback and [close] are run by the event
    loop; the model is the transition system of those three pieces of
    code over the variable [timers], the timeouts pending in the runtime
    and the state of the watcher.  Two facts about the environment are
    built in: the runtime runs a timeout at most once and only while it
    has not been cleared, and the watcher delivers no event once
    [watcher.close()] has resolved (it may deliver events until then). *)
Record WatchState : Type := mkWatch {
  timers : gmap jsstring nat;       (* const timers = new Map() *)
  pending : gmap nat jsstring;      (* timeouts set and neither fired nor
                                       cleared, with the file of their callback *)
  nextTimer : nat;                  (* the next timeout handle *)
  subscribed : bool;                (* the watcher still delivers events *)
  closing : nat;                    (* close() calls waiting in
                                       [await watcher.close()] *)
  closed : bool;                    (* a close() call has returned *)
  conversions : list jsstring       (* calls of this.convert, in order *)
}.

Inductive Event : Type :=
| Change (filePath : jsstring)      (* 'change' or 'add' delivered to handleChange *)
| Fire (timer : nat)                (* the runtime runs a pending timeout *)
| CloseCall                         (* close() is called, up to its await *)
| CloseReturn.                      (* watcher.close() resolved; rest of close() *)

Definition watchInit : WatchState :=
  {| timers := ∅; pending := ∅; nextTimer := 0; subscribed := true;
     closing := 0; closed := false; conversions := [] |}.

(** [clearTimeout] *)
Definition clearTimeout (t : nat) (p : gmap nat jsstring) : gmap nat jsstring :=
  delete t p.

Definition handleChange (filePath : jsstring) (s : WatchState) : WatchState :=
  let pending1 := match timers s !! filePath with
                  | Some existing => clearTimeout existing (pending s)
                  | None => pending s
                  end in
  let timer := nextTimer s in
  {| timers := <[ filePath := timer ]> (timers s);
     pending := <[ timer := filePath ]> pending1;
     nextTimer := S timer;
     subscribed := subscribed s; closing := closing s; closed := closed s;
     conversions := conversions s |}.

(** The callback given to [setTimeout], up to its call of [convert]. *)
Definition timerCallback (filePath : jsstring) (s : WatchState) : WatchState :=
  {| timers := delete filePath (timers s);
     pending := pending s;
     nextTimer := nextTimer s;
     subscribed := subscribed s; closing := closing s; closed := closed s;
     conversions := conversions s ++ [filePath] |}.

(** [close] after [await watcher.close()]: the subscription is released,
    every timer in the map is cleared, the map is emptied. *)
Definition closeRest (s : WatchState) : WatchState :=
  {| timers := ∅;
     pending := foldr clearTimeout (pending s) (map snd (map_to_list (timers s)));
     nextTimer := nextTimer s;
     subscribed := false; closing := pred (closing s); closed := true;
     conversions := conversions s |}.

Definition step (s : WatchState) (ev : Event) : option WatchState :=
  match ev with
  | Change filePath =>
      if subscribed s then Some (handleChange filePath s) else None
  | Fire t =>
      match pending s !! t with
      | Some filePath =>
          Some (timerCallback filePath
                  {| timers := timers s; pending := delete t (pending s);
                     nextTimer := nextTimer s; subscribed := subscribed s;
                     closing := closing s; closed := closed s;
                     conversions := conversions s |})
      | None => None
      end
  | CloseCall =>
      Some {| timers := timers s; pending := pending s;
              nextTimer := nextTimer s; subscribed := subscribed s;
              closing := S (closing s); closed := closed s;
              conversions := conversions s |}
  | CloseReturn =>
      if (0 <? closing s)%nat then Some (closeRest s) else None
  end.

Fixpoint runEvents (s : WatchState) (evs : list Event) : option WatchState :=
  match evs with
  | [] => Some s
  | ev :: rest => match step s ev with
                  | Some s' => runEvents s' rest
                  | None => None
                  end
  end.

End Converter.

(* ===================================================================== *)
(** * Vocabulary for the statements about mermaid-processor.ts            *)
(* ===================================================================== *)
Module MermaidSpec.
Import JS Eff Mermaid.

(** Two spans [startIndex, endIndex) share a character. *)
Definition overlaps (a b : MermaidDiagram) : bool :=
  (startIndex a <? endIndex b) && (startIndex b <? endIndex a).

(** No two spans of the list share a character. *)
Fixpoint nonOverlapping (ds : list MermaidDiagram) : bool :=
  match ds with
  | [] => true
  | d :: rest => forallb (fun d' => negb (overlaps d d')) rest && nonOverlapping rest
  end.

(** A diagram lies in [content]: its span is a non-empty range of the
    text and [fullMatch] is the text of that range. *)
Definition located (content : jsstring) (d : MermaidDiagram) : Prop :=
  0 <= startIndex d /\ startIndex d < endIndex d /\ endIndex d <= len content /\
  fullMatch d = substring content (startIndex d) (endIndex d).

(** The diagrams lie in [content] one after the other, the first not
    before [from]: ascending and without overlap. *)
Fixpoint chain (content : jsstring) (from : Z) (ds : list MermaidDiagram) : Prop :=
  match ds with
  | [] => True
  | d :: rest => from <= startIndex d /\ located content d /\
                 chain content (endIndex d) rest
  end.

(** Where the last of the diagrams ends ([from] when there is none). *)
Fixpoint lastEnd (from : Z) (ds : list MermaidDiagram) : Z :=
  match ds with
  | [] => from
  | d :: rest => lastEnd (endIndex d) rest
  end.

Definition ascending (ds : list MermaidDiagram) : Prop :=
  Sorted (fun a b => startIndex a <= startIndex b) ds.

(** ** Vocabulary for [renderDiagram] *)

Definition returned {A} (o : Exc A) : bool :=
  match o with Ok _ => true | Throw _ => false end.

(** Everything before the subprocess worked, so the subprocess is
    started: a temporary directory exists or can be made, and the three
    files are written. *)
Definition setupOk (e : RenderEnv) (w : World) : bool :=
  (truthy (tempDir w) || returned (tmpDirCall e))
  && returned (writeInput e) && returned (writeMermaidConfig e)
  && returned (writePuppeteerConfig e).

Definition exitedZero (e : RenderEnv) : bool :=
  match mmdc e with ExitZero => true | _ => false end.

(** C6, as stated: [renderDiagram] reports success exactly when the
    output file exists after the subprocess. *)
Definition successIffOutput (e : RenderEnv) (code outputPath : jsstring)
    (w : World) : Prop :=
  forall r w',
    renderDiagram e code outputPath w = (Ok r, w') ->
    (success r = true <-> outputExists e = true).

Section Run.
Variable pathJoin : jsstring -> jsstring -> jsstring.
Variable outputFormat : jsstring.
Variable renders : nat -> RenderEnv.
Variables outputDir baseFileName : jsstring.

(** The results the loop of [processMarkdown] obtains from its calls
    of [renderDiagram], from iteration [i] on, and the world after. *)
Fixpoint renderRun (i : nat) (ds : list MermaidDiagram) (w : World)
      : list RenderResult * World :=
    match ds with
    | [] => ([], w)
    | d :: rest =>
        match renderDiagram (renders i) (code d)
                (pathJoin outputDir (imageName outputFormat baseFileName i)) w with
        | (Ok r, w') => let '(rs, w'') := renderRun (S i) rest w' in (r :: rs, w'')
        | (Throw _, w') => ([], w')
        end
    end.

(** The loop variables after the iterations [i, i+1, ...] over [ds]
    whose renders returned [rs]. *)
Fixpoint spliceFrom (i : nat) (ds : list MermaidDiagram)
      (rs : list RenderResult) (st : LoopState) : LoopState :=
    match ds, rs with
    | d :: ds', r :: rs' =>
        spliceFrom (S i) ds' rs' (spliceStep outputFormat baseFileName i d r st)
    | _, _ => st
    end.

Definition initialState (content : jsstring) : LoopState :=
    {| processedContent := content; offset := 0; errors := [] |}.

(** The loop variables on entry to iteration [k]. *)
Definition stateAt (content : jsstring) (ds : list MermaidDiagram)
      (rs : list RenderResult) (k : nat) : LoopState :=
    spliceFrom 0 (take k ds) (take k rs) (initialState content).

(** What stands in the output for diagram [i]: its image reference
    when it rendered, its own source text when it did not. *)
Definition pieceAt (i : nat) (d : MermaidDiagram) (r : RenderResult) : jsstring :=
    if success r then imageMarkdown outputFormat baseFileName i else fullMatch d.

(** The output described from the original text and the original
    spans alone: the text between the spans is kept, each span is
    filled with its piece. *)
Fixpoint rebuild (content : jsstring) (from : Z) (i : nat)
      (ds : list MermaidDiagram) (rs : list RenderResult) : jsstring :=
    match ds, rs with
    | d :: ds', r :: rs' =>
        substring content from (startIndex d) ++ pieceAt i d r
          ++ rebuild content (endIndex d) (S i) ds' rs'
    | _, _ => substringFrom content from
    end.

(** The render results of a run of [processMarkdown] on [content]. *)
Definition resultsOf (content : jsstring) (w : World) : list RenderResult :=
    (renderRun 0 (extractDiagrams content) w).1.



End Run.

(** C5, as stated: the matches of both syntaxes, ascending, no two
    spans overlapping. *)
Definition extractInvariant (content : jsstring) : Prop :=
  ascending (extractDiagrams content) /\
  Permutation (extractDiagrams content)
    (matchesOf codeFence content ++ matchesOf tripleColon content) /\
  nonOverlapping (extractDiagrams content) = true.

End MermaidSpec.

(* ===================================================================== *)
(** * Vocabulary for the statements about the configuration layers        *)
(* ===================================================================== *)
Module ConfigSpec.
Import JS Config.

(** Reading property [k] of an object that may be missing: [o?.k]. *)
Definition read (o : option object) (k : string) : value :=
  match o with
  | Some m => default VUndefined (m !! k)
  | None => VUndefined
  end.

(** The value a layer supplies for [k], if it supplies one: a property
    that is absent or [undefined] supplies nothing. *)
Definition supplied (o : option object) (k : string) : option value :=
  match read o k with
  | VUndefined => None
  | v => Some v
  end.

(** The value the layers call for: the caller's, else the file's, else
    the built-in default. *)
Definition layered (fromFile fromCli : option object) (k : string) : value :=
  match supplied fromCli k with
  | Some v => v
  | None => match supplied fromFile k with
            | Some v => v
            | None => read (Some DEFAULT_PDF_OPTIONS) k
            end
  end.

Definition filePdfOf (fileConfig : option ConfigFile) : option object :=
  match fileConfig with Some fc => filePdf fc | None => None end.

(** C9, as stated, for the PDF options: every key reads as the layers
    call for. *)
Definition pdfPrecedence (fileConfig : option ConfigFile)
    (cliOptions : ConversionOptions) : Prop :=
  forall k,
    read (Some (effectivePdfOptions fileConfig cliOptions)) k
    = layered (filePdfOf fileConfig) (pdf cliOptions) k.

(** No property of the object is present with the value [undefined]. *)
Definition noUndefined (o : option object) : Prop :=
  forall m k, o = Some m -> m !! k <> Some VUndefined.

End ConfigSpec.

(* ===================================================================== *)
(** * Vocabulary for the statements about converter.ts                    *)
(* ===================================================================== *)
Module ConverterSpec.
Import JS Eff Converter.

(** The three code units are [.], [m] or [M], [d] or [D]. *)
Definition isMd (s : jsstring) : bool :=
  match s with
  | [a; b; c] => ((a =? 46) && (canonicalize b =? 77) && (canonicalize c =? 68))%N
  | _ => false
  end.

(** The path ends in [.md], whatever the case of the letters. *)
Definition endsWithMd (path : jsstring) : bool :=
  isMd (drop (length path - 3) path).

Section Batch.
Variable basename : jsstring -> jsstring.
Variable pathJoin : jsstring -> jsstring -> jsstring.
Variable glob : jsstring -> list jsstring.
Variable convertResult : jsstring -> option jsstring -> ConversionResult.

(** Conversions that all return: [convertResult] is what
    [this.convert(file, outputPath)] resolves to. *)
Definition returning (file : jsstring) (outputPath : option jsstring)
      : Exc ConversionResult :=
    Ok (convertResult file outputPath).

(** The result of the conversion of [file] in the batch [o]. *)
Definition resultFor (o : BatchConversionOptions) (file : jsstring)
      : ConversionResult :=
    convertResult file (batchOutputPath basename pathJoin o file).

Definition succeeds (o : BatchConversionOptions) (file : jsstring) : bool :=
    success (resultFor o file).

(** C3, as stated: without [continueOnError], the batch returns the
    result of every conversion it launched, and tallies each of them. *)
Definition reportsEveryLaunched (o : BatchConversionOptions) : Prop :=
    default false (continueOnError o) = false ->
    forall res launchedFiles,
      batchConvert basename pathJoin glob returning o
        = Some (Resolved res, launchedFiles) ->
      results res = map (resultFor o) launchedFiles /\
      (successful res + failed res = length launchedFiles)%nat.
End Batch.

(** ** The watcher *)

(** What the runtime has pending is what the map holds, timer handles
    are fresh, and once a [close()] has returned the subscription is
    gone and nothing is pending. *)
Definition watchInv (s : WatchState) : Prop :=
  (forall t f, pending s !! t = Some f -> timers s !! f = Some t) /\
  (forall t f, pending s !! t = Some f -> (t < nextTimer s)%nat) /\
  (closed s = true -> subscribed s = false /\ pending s = ∅).

Definition isFire (ev : Event) : bool :=
  match ev with Fire _ => true | _ => false end.

Definition isChange (ev : Event) : bool :=
  match ev with Change _ => true | _ => false end.

End ConverterSpec.

(* ===================================================================== *)
(** * Concrete documents and environments                                 *)
(* ===================================================================== *)
Module Samples.
Import JS Eff Mermaid.

Definition joinWithSlash (a b : jsstring) : jsstring := a ++ lit "/" ++ b.

Definition emptyWorld : World :=
  {| dirs := ∅; tempDir := None; pdfDests := [] |}.

(** A render call in which everything works. *)
Definition renderOk : RenderEnv :=
  {| tmpDirCall := Ok (lit "/tmp/tmp-1"); writeInput := Ok tt;
     writeMermaidConfig := Ok tt; writePuppeteerConfig := Ok tt;
     mmdc := ExitZero; outputExists := true |}.

(** The subprocess exits with a non-zero code. *)
Definition renderExitOne : RenderEnv :=
  {| tmpDirCall := Ok (lit "/tmp/tmp-1"); writeInput := Ok tt;
     writeMermaidConfig := Ok tt; writePuppeteerConfig := Ok tt;
     mmdc := ExitNonZero (lit "Command failed: npx mmdc"); outputExists := false |}.

(** The subprocess exits with a non-zero code, and a file is at the
    output path all the same (written before the failure, or left from
    an earlier run). *)
Definition renderExitOneWithOutput : RenderEnv :=
  {| tmpDirCall := Ok (lit "/tmp/tmp-1"); writeInput := Ok tt;
     writeMermaidConfig := Ok tt; writePuppeteerConfig := Ok tt;
     mmdc := ExitNonZero (lit "Command failed: npx mmdc"); outputExists := true |}.

(** The subprocess is killed by the timeout. *)
Definition renderTimeout : RenderEnv :=
  {| tmpDirCall := Ok (lit "/tmp/tmp-1"); writeInput := Ok tt;
     writeMermaidConfig := Ok tt; writePuppeteerConfig := Ok tt;
     mmdc := TimedOut (lit "Command failed: npx mmdc"); outputExists := false |}.

(** The render call [k] fails, the others work. *)
Definition failingAt (k : nat) (i : nat) : RenderEnv :=
  if (i =? k)%nat then renderExitOne else renderOk.

(** Three diagrams, in both syntaxes, with text around them. *)
Definition threeDiagrams : jsstring := lit "# Title
```mermaid
flowchart TD
    A --> B
```
some text
:::mermaid
sequenceDiagram
    A->>B: Hi
:::
more
```mermaid
graph LR
```
end".

Definition noDiagrams : jsstring := lit "# No diagrams here".

(** A triple-colon block inside the body of a code fence. *)
Definition nested : jsstring := lit "```mermaid
:::mermaid
A
:::
```".

(** The documents of the repository's tests of [extractDiagrams]. *)
Definition testCodeFence : jsstring := lit "
# Test Document

Some text here.

```mermaid
flowchart TD
    A --> B
```

More text.
".

Definition testTripleColon : jsstring := lit "
# Test Document

:::mermaid
sequenceDiagram
    A->>B: Hello
:::

More text.
".

Definition testBoth : jsstring := lit "
```mermaid
flowchart TD
    A --> B
```

Some text.

:::mermaid
sequenceDiagram
    A->>B: Hello
:::
".

Definition testNone : jsstring := lit "
# Just Markdown

No diagrams here.
".

(** The configurations of the repository's tests of [mergeConfig]. *)
Definition testFileConfig : Config.ConfigFile :=
  {| Config.filePdf := Some {[ "format" := Config.VStr (lit "A4");
                               "landscape" := Config.VBool false ]};
     Config.fileMermaid := Some {[ "theme" := Config.VStr (lit "default") ]};
     Config.fileStyle := None;
     Config.fileOutputDir := None; Config.fileIgnore := None |}.

Definition testCliOptions : Config.ConversionOptions :=
  {| Config.input := None; Config.output := None;
     Config.pdf := Some {[ "landscape" := Config.VBool true ]};
     Config.mermaid := None; Config.style := None;
     Config.keepIntermediate := None; Config.workingDir := None;
     Config.verbose := Some true |}.

(** A config file that asks for landscape pages. *)
Definition landscapeFile : Config.ConfigFile :=
  {| Config.filePdf := Some {[ "landscape" := Config.VBool true ]};
     Config.fileMermaid := None; Config.fileStyle := None;
     Config.fileOutputDir := None; Config.fileIgnore := None |}.

(** ** A conversion whose PDF generation fails *)

Definition noOptions : Config.ConversionOptions :=
  {| Config.input := None; Config.output := None; Config.pdf := None;
     Config.mermaid := None; Config.style := None;
     Config.keepIntermediate := None; Config.workingDir := None;
     Config.verbose := None |}.

Definition workDir : jsstring := lit "/tmp/tmp-work".

(** The input exists and is read, the working directory is made, the
    diagrams render, the files are written; [generateOutcome] is what
    the PDF generator reports. *)
Definition envWith (generateOutcome : Converter.GenerateResult)
    : Converter.ConvertEnv :=
  {| Converter.inputExists := true;
     Converter.readFile := Ok threeDiagrams;
     Converter.tmpDirCall := Ok workDir;
     Converter.renders := fun _ => renderOk;
     Converter.writeProcessed := Ok tt;
     Converter.copyLocalAssets := Ok tt;
     Converter.generate := generateOutcome;
     Converter.tmpCleanup := Ok tt;
     Converter.removeTempDir := Ok tt |}.

Definition generateFails : Converter.GenerateResult :=
  {| Converter.genSuccess := false;
     Converter.genError := Some (lit "PDF generation returned no content") |}.

Definition generateWorks : Converter.GenerateResult :=
  {| Converter.genSuccess := true; Converter.genError := None |}.

(** Paths that are already absolute and flat. *)
Definition sampleConvert (e : Converter.ConvertEnv) (inputPath : jsstring)
    (outputPath : option jsstring) : M Converter.ConversionResult :=
  Converter.convert (fun p => p) (fun p => p) (fun p _ => p) (fun _ => [])
    joinWithSlash noOptions e inputPath outputPath.

(** ** A batch of three files in one group, the first of which fails *)

Definition fileA : jsstring := lit "/docs/a.md".
Definition fileB : jsstring := lit "/docs/b.md".
Definition fileC : jsstring := lit "/docs/c.md".

Definition sampleGlob (pattern : jsstring) : list jsstring := [fileA; fileB; fileC].

Definition sampleConvertResult (file : jsstring) (outputPath : option jsstring)
    : Converter.ConversionResult :=
  if bool_decide (file = fileA) then
    {| Converter.success := false; Converter.inputFile := file;
       Converter.outputFile := None;
       Converter.error := Some (lit "Input file not found: /docs/a.md");
       Converter.diagramCount := None |}
  else
    {| Converter.success := true; Converter.inputFile := file;
       Converter.outputFile := Some (Converter.mdToPdf file);
       Converter.error := None; Converter.diagramCount := Some 0%nat |}.

Definition sampleBatch : Converter.BatchConversionOptions :=
  {| Converter.patterns := [lit "/docs/*.md"]; Converter.outputDir := None;
     Converter.concurrency := None; Converter.continueOnError := None |}.

End Samples.

(* ===================================================================== *)
(** * Further vocabulary: blocks, failures, workspaces                    *)
(* ===================================================================== *)
Module BlockSpec.
Import JS Eff Mermaid.

(** The pattern of a delimiter syntax with the given markers:
    [opening \s* \n ( [\s\S]*? ) closing]. *)
Definition fencePattern (opening closing : jsstring) : pattern :=
  map (fun c => AChar (CUnit c)) opening
    ++ [AStar true CSpace; AChar (CUnit 10); AOpen; AStar false CAny; AClose]
    ++ map (fun c => AChar (CUnit c)) closing.

(** The text has white space at neither end. *)
Definition trimmed (s : jsstring) : Prop :=
  match s with c :: _ => isSpace c = false | [] => True end /\
  match rev s with c :: _ => isSpace c = false | [] => True end.

(** [fullMatch] is a block of the syntax with the given markers and
    [code] its diagram code: the opening marker, white space up to a
    line feed, a body, the closing marker; the closing marker occurs
    nowhere in the body, not even across the border with the final
    marker; the code is the body without the surrounding white space. *)
Definition fenced (opening closing fullMatch code : jsstring) : Prop :=
  exists ws body,
    fullMatch = opening ++ ws ++ [10%N] ++ body ++ closing /\
    Forall (fun c => isSpace c = true) ws /\
    (forall j, (j < length body)%nat ->
       startsWith closing (drop j (body ++ closing)) = false) /\
    code = trim body.

(** The pattern matches at position [i] of the text. *)
Definition matchesAt (p : pattern) (content : jsstring) (i : nat) : Prop :=
  run p (drop i content) i i None <> None.

(** The entries pushed to [errors] for the render results [rs] of the
    diagrams [i], [i+1], ... *)
Fixpoint failuresFrom (i : nat) (rs : list RenderResult) : list jsstring :=
  match rs with
  | [] => []
  | r :: rest =>
      (if success r then [] else [errorEntry i r]) ++ failuresFrom (S i) rest
  end.

End BlockSpec.

(* ===================================================================== *)
(** * Further sample environments                                         *)
(* ===================================================================== *)
Module MoreSamples.
Import JS Eff Mermaid Samples.

(** A world in which the processor already has its workspace. *)
Definition worldWithWorkspace : World :=
  {| dirs := {[ lit "/tmp/tmp-0" ]}; tempDir := Some (lit "/tmp/tmp-0");
     pdfDests := [] |}.

(** The input file is missing. *)
Definition missingInput : Converter.ConvertEnv :=
  {| Converter.inputExists := false;
     Converter.readFile := Throw (lit "ENOENT: no such file or directory");
     Converter.tmpDirCall := Ok workDir;
     Converter.renders := fun _ => renderOk;
     Converter.writeProcessed := Ok tt;
     Converter.copyLocalAssets := Ok tt;
     Converter.generate := generateWorks;
     Converter.tmpCleanup := Ok tt;
     Converter.removeTempDir := Ok tt |}.

(** The input file is missing and the renderer's workspace cannot be
    removed. *)
Definition missingInputBusy : Converter.ConvertEnv :=
  {| Converter.inputExists := false;
     Converter.readFile := Throw (lit "ENOENT: no such file or directory");
     Converter.tmpDirCall := Ok workDir;
     Converter.renders := fun _ => renderOk;
     Converter.writeProcessed := Ok tt;
     Converter.copyLocalAssets := Ok tt;
     Converter.generate := generateWorks;
     Converter.tmpCleanup := Ok tt;
     Converter.removeTempDir := Throw (lit "EBUSY: resource busy or locked") |}.

(** Everything works but the removal of the renderer's workspace. *)
Definition cleanupThrows : Converter.ConvertEnv :=
  {| Converter.inputExists := true;
     Converter.readFile := Ok threeDiagrams;
     Converter.tmpDirCall := Ok workDir;
     Converter.renders := fun _ => renderOk;
     Converter.writeProcessed := Ok tt;
     Converter.copyLocalAssets := Ok tt;
     Converter.generate := generateWorks;
     Converter.tmpCleanup := Ok tt;
     Converter.removeTempDir := Throw (lit "EBUSY: resource busy or locked") |}.

(** The sample batch, in groups of two, with [continueOnError]. *)
Definition continuingBatch : Converter.BatchConversionOptions :=
  {| Converter.patterns := [lit "/docs/*.md"]; Converter.outputDir := None;
     Converter.concurrency := Some (Int 2);
     Converter.continueOnError := Some true |}.

(** The conversion of [fileB] rejects, the others are as in the sample. *)
Definition rejectingOutcome (file : jsstring) (outputPath : option jsstring)
    : Exc Converter.ConversionResult :=
  if bool_decide (file = fileB)
  then Throw (lit "EBUSY: resource busy or locked")
  else Ok (sampleConvertResult file outputPath).

(** What the sample batch returns: it stops after its only group. *)
Definition stoppedResult : Converter.BatchConversionResult :=
  {| Converter.total := 3; Converter.successful := 0; Converter.failed := 1;
     Converter.results := [sampleConvertResult fileA None] |}.

End MoreSamples.

(* ===================================================================== *)
(** * Further vocabulary for converter.ts                                 *)
(* ===================================================================== *)
Module ConvertSpec.
Import JS Eff Converter MermaidSpec.

(** Everything [convert] needs from its environment worked: the input
    is there and readable, the working directory is made, the processed
    text and the assets are written, the PDF generator reports success,
    and the working directory is removed (or kept on purpose).  The
    render results of the diagrams play no part. *)
Definition convertOk (options : Config.ConversionOptions) (e : ConvertEnv) : bool :=
  inputExists e && returned (readFile e) && returned (tmpDirCall e)
  && returned (writeProcessed e) && returned (copyLocalAssets e)
  && genSuccess (generate e)
  && (default false (Config.keepIntermediate options) || returned (tmpCleanup e)).

(** [convert] gets as far as calling the PDF generator. *)
Definition reachesGenerate (e : ConvertEnv) : bool :=
  inputExists e && returned (readFile e) && returned (tmpDirCall e)
  && returned (writeProcessed e) && returned (copyLocalAssets e).

(** The processor has a workspace that exists. *)
Definition hasWorkspace (w : World) : bool :=
  match tempDir w with
  | Some p => truthy (tempDir w) && bool_decide (p ∈ dirs w)
  | None => false
  end.

Section Paths.
Variable basenameWithout : jsstring -> jsstring -> jsstring.
Variable extname : jsstring -> jsstring.
Variable pathJoin : jsstring -> jsstring -> jsstring.
Variable options : Config.ConversionOptions.

(** The world after the diagrams of [content] are processed in the
    working directory [wd]. *)
Definition afterDiagrams (e : ConvertEnv) (resolvedInput content wd : jsstring)
    (w : World) : World :=
  (renderRun pathJoin (outputFormat options) (renders e) wd
     (basenameWithout resolvedInput (extname resolvedInput)) 0
     (Mermaid.extractDiagrams content)
     {| dirs := {[ wd ]} ∪ dirs w; tempDir := tempDir w; pdfDests := pdfDests w |}).2.

Definition successResult (resolvedInput resolvedOutput content : jsstring)
    : ConversionResult :=
  {| success := true; inputFile := resolvedInput;
     outputFile := Some resolvedOutput; error := None;
     diagramCount := Some (length (Mermaid.extractDiagrams content)) |}.

Definition withDest (dest : jsstring) (w : World) : World :=
  {| dirs := dirs w; tempDir := tempDir w; pdfDests := pdfDests w ++ [dest] |}.

Definition withoutDir (wd : jsstring) (w : World) : World :=
  {| dirs := dirs w ∖ {[ wd ]}; tempDir := tempDir w; pdfDests := pdfDests w |}.

End Paths.

End ConvertSpec.

(* ===================================================================== *)
(** * Further vocabulary for batches, the command line and the watcher    *)
(* ===================================================================== *)
Module BatchSpec.
Import JS Eff Converter MermaidSpec ConverterSpec.

Definition succeeded (rs : list ConversionResult) : nat :=
  length (List.filter success rs).

Definition failures (rs : list ConversionResult) : nat :=
  length (List.filter (fun r => negb (success r)) rs).

Section Outcomes.
Variable basename : jsstring -> jsstring.
Variable pathJoin : jsstring -> jsstring -> jsstring.
Variable convertOutcome : jsstring -> option jsstring -> Exc ConversionResult.

(** How the conversion of [file] in the batch [o] settles. *)
Definition outcomeFor (o : BatchConversionOptions) (file : jsstring)
    : Exc ConversionResult :=
  convertOutcome file (batchOutputPath basename pathJoin o file).

(** The conversion returns a result. *)
Definition resolves (o : BatchConversionOptions) (file : jsstring) : bool :=
  returned (outcomeFor o file).

(** The conversion returns a result that reports a failure. *)
Definition failsToConvert (o : BatchConversionOptions) (file : jsstring) : bool :=
  match outcomeFor o file with
  | Ok r => negb (success r)
  | Throw _ => false
  end.
End Outcomes.

(** cli.ts, the [batch] command: the options it reads for
    [batchConvert]; commander hands [--concurrency] over as a string,
    ['3'] when the flag is not given. *)
Record BatchFlags : Type := mkBatchFlags {
  flagOutputDir : option jsstring;
  flagConcurrency : jsstring;
  flagContinueOnError : option bool
}.

Definition batchOptionsOf (patternArgs : list jsstring) (f : BatchFlags)
    : BatchConversionOptions :=
  {| patterns := patternArgs;
     outputDir := flagOutputDir f;
     concurrency := Some (parseInt10 (flagConcurrency f));
     continueOnError := flagContinueOnError f |}.

(** The exit code of the [batch] command once [batchConvert] has
    settled: a rejection is caught and ends in [process.exit(1)]; after
    a result, [process.exit(1)] when a file failed and
    [--continue-on-error] was not given; otherwise the process ends
    with code 0. *)
Definition batchExitCode (continueOnError : option bool)
    (outcome : BatchOutcome) : Z :=
  match outcome with
  | Rejected _ => 1
  | Resolved result =>
      if (0 <? failed result)%nat && negb (default false continueOnError)
      then 1 else 0
  end.

(** The number of events of the run that are changes of [file]. *)
Definition changesOf (file : jsstring) (evs : list Event) : nat :=
  length (List.filter (fun ev => match ev with
                                 | Change f => bool_decide (f = file)
                                 | _ => false
                                 end) evs).

(** The number of conversions of [file] started so far. *)
Definition conversionsOf (file : jsstring) (s : WatchState) : nat :=
  length (List.filter (fun f => bool_decide (f = file)) (conversions s)).

(** The number of timers waiting for [file]: one when the map has an
    entry for it. *)
Definition waiting (file : jsstring) (s : WatchState) : nat :=
  match timers s !! file with Some _ => 1 | None => 0 end.

(** The map [timers] and the timeouts pending in the runtime are the
    same relation, read in both directions. *)
Definition timersMatch (s : WatchState) : Prop :=
  forall f t, timers s !! f = Some t <-> pending s !! t = Some f.

End BatchSpec.

(* ===================================================================== *)
(** * Sample command lines of the [batch] command                         *)
(* ===================================================================== *)
Module BatchSamples.
Import JS Eff Converter BatchSpec Samples.

(** [md2pdf batch '/docs/*.md'] *)
Definition plainFlags : BatchFlags :=
  {| flagOutputDir := None; flagConcurrency := lit "3";
     flagContinueOnError := None |}.

(** [md2pdf batch --concurrency abc '/docs/*.md'] *)
Definition wordFlags : BatchFlags :=
  {| flagOutputDir := None; flagConcurrency := lit "abc";
     flagContinueOnError := None |}.

End BatchSamples.

(* ===================================================================== *)
(** * pdf-generator.ts: the [PdfGenerator] class                          *)
(* ===================================================================== *)
Module PdfGen.
Import JS Eff Converter.

(** [StyleOptions] *)
Record StyleOptions : Type := mkStyleOptions {
  cssFile : option jsstring;
  css : option jsstring;
  bodyClass : option jsstring;
  highlightTheme : option jsstring
}.

(** What [mdToPdf] resolves to: [None] for a falsy value, else the
    properties [filename] and [content] (a buffer, as its bytes). *)
Record PdfOutput : Type := mkPdfOutput {
  filename : option jsstring;
  content : option (list N)
}.

(** The arguments of a call of [mdToPdf] that depend on the state of
    the generator or on the style options. *)
Record MdToPdfCall : Type := mkMdToPdfCall {
  source : jsstring;
  dest : jsstring;
  stylesheet : option (list jsstring);
  body_class : option (list jsstring);
  highlight_style : jsstring
}.

(** The field [customCss] of the instance, the temporary stylesheets
    that exist, and the calls of [mdToPdf] made so far. *)
Record GenState : Type := mkGenState {
  customCss : jsstring;
  tempFiles : gset jsstring;
  pdfCalls : list MdToPdfCall
}.

(** The outcomes of the environment calls of one [generate] call, in
    the order of the code. *)
Record GenEnv : Type := mkGenEnv {
  cssExists : bool;                      (* fs.pathExists(cssPath) *)
  readCss : Exc jsstring;                (* fs.readFile(cssPath, 'utf-8') *)
  tmpFile : Exc jsstring;                (* tmp.file({ postfix: '.css' }), its path *)
  writeCss : Exc unit;                   (* fs.writeFile(cssFile.path, ...) *)
  mdToPdfCall : Exc (option PdfOutput);  (* mdToPdf(...) *)
  removeCss : Exc unit;                  (* fs.remove(cssFilePath) *)
  writeOutput : Exc unit                 (* fs.writeFile(outputPath, pdf.content) *)
}.

(** Computations over the state of the generator that return or throw;
    changes made before a throw persist. *)
Definition G (A : Type) : Type := GenState -> Exc A * GenState.

Definition gret {A} (a : A) : G A := fun s => (Ok a, s).
Definition gbind {A B} (m : G A) (k : A -> G B) : G B :=
  fun s => match m s with
           | (Ok a, s') => k a s'
           | (Throw e, s') => (Throw e, s')
           end.
Definition gtryCatch {A} (m : G A) (h : jsstring -> G A) : G A :=
  fun s => match m s with
           | (Ok a, s') => (Ok a, s')
           | (Throw e, s') => h e s'
           end.
Definition gcall {A} (outcome : Exc A) : G A := fun s => (outcome, s).
Definition getState : G GenState := fun s => (Ok s, s).
Definition setCustomCss (c : jsstring) : G unit :=
  fun s => (Ok tt, {| customCss := c; tempFiles := tempFiles s;
                      pdfCalls := pdfCalls s |}).
Definition setTempFiles (t : gset jsstring) : G unit :=
  fun s => (Ok tt, {| customCss := customCss s; tempFiles := t;
                      pdfCalls := pdfCalls s |}).
Definition logCall (c : MdToPdfCall) : G unit :=
  fun s => (Ok tt, {| customCss := customCss s; tempFiles := tempFiles s;
                      pdfCalls := pdfCalls s ++ [c] |}).

#[global] Instance G_ret : MRet G := @gret.
#[global] Instance G_bind : MBind G := fun A B k m => gbind m k.

Section Generator.
(** The text of the built-in stylesheet plays no part. *)
Variable DEFAULT_STYLES : jsstring.
Variable styleOptions : StyleOptions.

(** The state the constructor leaves. *)
Definition constructed : GenState :=
  {| customCss := DEFAULT_STYLES; tempFiles := ∅; pdfCalls := [] |}.

Definition loadCustomStyles (e : GenEnv) : G unit :=
  (if truthy (cssFile styleOptions) then
     if cssExists e then
       fileCss ← gcall (readCss e) ;
       setCustomCss (DEFAULT_STYLES ++ [10%N] ++ fileCss)
     else mret tt
   else mret tt) ;;
  match Config.truthyStr (css styleOptions) with
  | Some inline =>
      s ← getState ;
      setCustomCss (customCss s ++ [10%N] ++ inline)
  | None => mret tt
  end.

(** The [try] block of [generate]. *)
Definition generateBody (e : GenEnv) (markdownPath outputPath : jsstring)
    : G GenerateResult :=
  loadCustomStyles e ;;
  s ← getState ;
  cssFilePath ←
    (if bool_decide (customCss s = DEFAULT_STYLES) then mret None
     else
       path ← gcall (tmpFile e) ;
       s1 ← getState ;
       setTempFiles ({[ path ]} ∪ tempFiles s1) ;;
       gcall (writeCss e) ;;
       mret (Some path)) ;
  logCall {| source := markdownPath;
             dest := outputPath;
             stylesheet := match Config.truthyStr cssFilePath with
                           | Some p => Some [p]
                           | None => None
                           end;
             body_class := match Config.truthyStr (bodyClass styleOptions) with
                           | Some c => Some [c]
                           | None => None
                           end;
             highlight_style := default (lit "github")
                                  (highlightTheme styleOptions) |} ;;
  pdf ← gcall (mdToPdfCall e) ;
  match Config.truthyStr cssFilePath with
  | Some p =>
      gcall (removeCss e) ;;
      s2 ← getState ;
      setTempFiles (tempFiles s2 ∖ {[ p ]})
  | None => mret tt
  end ;;
  match pdf with
  | Some out =>
      if truthy (filename out)
      then mret {| genSuccess := true; genError := None |}
      else match content out with
           | Some _ =>
               gcall (writeOutput e) ;;
               mret {| genSuccess := true; genError := None |}
           | None =>
               mret {| genSuccess := false;
                       genError := Some (lit "PDF generation returned no content") |}
           end
  | None =>
      mret {| genSuccess := false;
              genError := Some (lit "PDF generation returned no content") |}
  end.

Definition generate (e : GenEnv) (markdownPath outputPath : jsstring)
    : G GenerateResult :=
  gtryCatch (generateBody e markdownPath outputPath)
    (fun msg => mret {| genSuccess := false; genError := Some msg |}).

(** Successive [generate] calls on one generator, as [convert] makes
    them for the files of a batch: the environments of the calls and
    their paths, in order. *)
Fixpoint generateAll (calls : list (GenEnv * jsstring * jsstring)) (s : GenState)
    : list (Exc GenerateResult) * GenState :=
  match calls with
  | [] => ([], s)
  | (e, markdownPath, outputPath) :: rest =>
      let '(r, s1) := generate e markdownPath outputPath s in
      let '(rs, s2) := generateAll rest s1 in
      (r :: rs, s2)
  end.

End Generator.

End PdfGen.

(* ===================================================================== *)
(** * config.ts: [loadConfig]                                             *)
(* ===================================================================== *)
Module ConfigLoader.
Import JS Eff Config.

Definition CONFIG_FILE_NAMES : list jsstring :=
  [lit "md2pdf.config.json"; lit "md2pdf.config.js"; lit ".md2pdfrc";
   lit ".md2pdfrc.json"].

Section Load.
(** The functions of node's [path] module are not interpreted; what
    exists on disk and what a file parses to is decided outside. *)
Variable resolve : jsstring -> jsstring.
Variable pathJoin : jsstring -> jsstring -> jsstring.
Variable dirname : jsstring -> jsstring.
Variable pathExists : jsstring -> bool.
Variable cwd : jsstring.
(** [loadConfigFile]: what [require] or [JSON.parse] makes of the file,
    which can be [null]. *)
Variable loadConfigFile : jsstring -> Exc (option ConfigFile).

(** [for (const fileName of CONFIG_FILE_NAMES)]: the first name whose
    file exists in [currentDir]. *)
Fixpoint firstExisting (currentDir : jsstring) (names : list jsstring)
    : option jsstring :=
  match names with
  | [] => None
  | fileName :: rest =>
      let filePath := pathJoin currentDir fileName in
      if pathExists filePath then Some filePath
      else firstExisting currentDir rest
  end.

(** [while (true)], from [currentDir] upwards: the file to load, or
    [null] at the root.  [None]: the loop has not ended within [fuel]
    rounds. *)
Fixpoint searchLoop (fuel : nat) (currentDir : jsstring)
    : option (option jsstring) :=
  match fuel with
  | O => None
  | S fuel' =>
      match firstExisting currentDir CONFIG_FILE_NAMES with
      | Some filePath => Some (Some filePath)
      | None =>
          let parentDir := dirname currentDir in
          if bool_decide (parentDir = currentDir) then Some None
          else searchLoop fuel' parentDir
      end
  end.

(** The file [loadConfig] hands to [loadConfigFile], if any. *)
Definition configFileOf (fuel : nat) (configPath searchDir : option jsstring)
    : option (option jsstring) :=
  match Config.truthyStr configPath with
  | Some p =>
      let resolvedPath := resolve p in
      if pathExists resolvedPath then Some (Some resolvedPath) else Some None
  | None =>
      let startDir := match Config.truthyStr searchDir with
                      | Some d => resolve d
                      | None => cwd
                      end in
      searchLoop fuel startDir
  end.

Definition loadConfig (fuel : nat) (configPath searchDir : option jsstring)
    : option (Exc (option ConfigFile)) :=
  match configFileOf fuel configPath searchDir with
  | Some (Some filePath) => Some (loadConfigFile filePath)
  | Some None => Some (Ok None)
  | None => None
  end.

End Load.

End ConfigLoader.

(* ===================================================================== *)
(** * Vocabulary for the statements about the generator and the loader    *)
(* ===================================================================== *)
Module GeneratorSpec.
Import JS Eff Converter MermaidSpec PdfGen ConfigLoader.

(** [loadCustomStyles] read a stylesheet from [cssFile]. *)
Definition fileLoaded (styleOptions : StyleOptions) (e : GenEnv) : bool :=
  truthy (cssFile styleOptions) && cssExists e.

(** What [loadCustomStyles] needs from its environment worked. *)
Definition stylesOk (styleOptions : StyleOptions) (e : GenEnv) : bool :=
  negb (fileLoaded styleOptions e) || returned (readCss e).

(** A stylesheet of its own is in force after a first
    [loadCustomStyles]. *)
Definition customised (styleOptions : StyleOptions) (e : GenEnv) : bool :=
  fileLoaded styleOptions e || truthy (css styleOptions).

(** [mdToPdf] returned something [generate] accepts. *)
Definition pdfOk (e : GenEnv) : bool :=
  match mdToPdfCall e with
  | Ok (Some out) =>
      truthy (filename out)
      || match content out with
         | Some _ => returned (writeOutput e)
         | None => false
         end
  | _ => false
  end.

(** The temporary stylesheet of a call was created and removed. *)
Definition stylesheetOk (e : GenEnv) : bool :=
  match tmpFile e with
  | Ok p => returned (writeCss e) && (negb (truthy (Some p)) || returned (removeCss e))
  | Throw _ => false
  end.

(** Everything a first [generate] needs from its environment worked. *)
Definition generateOk (styleOptions : StyleOptions) (e : GenEnv) : bool :=
  stylesOk styleOptions e
  && (negb (customised styleOptions e) || stylesheetOk e)
  && pdfOk e.

(** The first [generate] gets as far as calling [mdToPdf]. *)
Definition reachesPdf (styleOptions : StyleOptions) (e : GenEnv) : bool :=
  stylesOk styleOptions e
  && (negb (customised styleOptions e)
      || (returned (tmpFile e) && returned (writeCss e))).

(** The temporary stylesheet was created, and something after that
    threw before it was removed. *)
Definition stylesheetAbandoned (e : GenEnv) : bool :=
  returned (tmpFile e)
  && negb (returned (writeCss e) && returned (mdToPdfCall e)
           && returned (removeCss e)).

(** The generator with another text in [customCss]. *)
Definition withCss (c : jsstring) (s : GenState) : GenState :=
  {| customCss := c; tempFiles := tempFiles s; pdfCalls := pdfCalls s |}.

(** The text [inline] appended [k] times, each time on a new line. *)
Definition appended (inline : jsstring) (k : nat) : jsstring :=
  concat (repeat ([10%N] ++ inline) k).

Section Ancestors.
Variable dirname : jsstring -> jsstring.

(** The [k]-th ancestor of a directory. *)
Fixpoint ancestor (k : nat) (dir : jsstring) : jsstring :=
  match k with
  | O => dir
  | S k' => ancestor k' (dirname dir)
  end.
End Ancestors.

(** No file of the list exists in the directory. *)
Definition noneIn (pathJoin : jsstring -> jsstring -> jsstring)
    (pathExists : jsstring -> bool) (dir : jsstring) (names : list jsstring)
    : Prop :=
  forall name, In name names -> pathExists (pathJoin dir name) = false.

End GeneratorSpec.

(* ===================================================================== *)
(** * Sample generators and directory trees                               *)
(* ===================================================================== *)
Module GeneratorSamples.
Import JS Eff Converter PdfGen ConfigLoader Samples.

(** A stand-in for the built-in stylesheet. *)
Definition sampleDefaultStyles : jsstring := lit "body { margin: 0; }".

Definition inlineStyle : StyleOptions :=
  {| cssFile := None; css := Some (lit "h1 { color: navy; }");
     bodyClass := None; highlightTheme := None |}.

Definition fileStyle : StyleOptions :=
  {| cssFile := Some (lit "print.css"); css := None;
     bodyClass := None; highlightTheme := None |}.

(** Everything works; [mdToPdf] writes the file itself. *)
Definition genEnvOk : GenEnv :=
  {| cssExists := true; readCss := Ok (lit "p { margin: 0; }");
     tmpFile := Ok (lit "/tmp/tmp-1.css"); writeCss := Ok tt;
     mdToPdfCall := Ok (Some {| filename := Some (lit "/docs/a.pdf");
                                content := None |});
     removeCss := Ok tt; writeOutput := Ok tt |}.

(** The browser does not start. *)
Definition genEnvPdfThrows : GenEnv :=
  {| cssExists := true; readCss := Ok (lit "p { margin: 0; }");
     tmpFile := Ok (lit "/tmp/tmp-1.css"); writeCss := Ok tt;
     mdToPdfCall := Throw (lit "Failed to launch the browser process");
     removeCss := Ok tt; writeOutput := Ok tt |}.

(** Directories as paths with a trailing slash: the parent drops the
    last component, the root is its own parent. *)
Fixpoint dropLastComponent (rev_path : jsstring) : jsstring :=
  match rev_path with
  | [] => []
  | c :: rest => if (c =? 47)%N then rev_path else dropLastComponent rest
  end.

Definition sampleDirname (dir : jsstring) : jsstring :=
  match rev dir with
  | [] => dir
  | _ :: rest =>
      match dropLastComponent rest with
      | [] => dir
      | parent => rev parent
      end
  end.

Definition sampleJoin (dir name : jsstring) : jsstring := dir ++ name.

(** A project with two configuration files at its top and none beside
    the documents. *)
Definition sampleTreeTop (filePath : jsstring) : bool :=
  bool_decide (filePath ∈ [lit "/work/project/md2pdf.config.json";
                           lit "/work/project/.md2pdfrc"]).

Definition emptyTree (filePath : jsstring) : bool := false.

(** Every configuration file parses to the landscape configuration. *)
Definition sampleLoadConfigFile (filePath : jsstring)
    : Exc (option Config.ConfigFile) :=
  Ok (Some landscapeFile).

End GeneratorSamples.
(* ===================================================================== *)
(** * Properties of the JavaScript fragments                              *)
(* ===================================================================== *)
Module JSFacts.
Import JS.

Lemma len_app (a b : jsstring) : len (a ++ b) = len a + len b.
Proof. unfold len. rewrite length_app. lia. Qed.

Lemma len_nonneg (a : jsstring) : 0 <= len a.
Proof. unfold len. lia. Qed.

Lemma clamp_in_range (s : jsstring) (z : Z) :
  0 <= z <= len s -> clamp s z = Z.to_nat z.
Proof. unfold clamp. intros H. f_equal. lia. Qed.

Lemma substring_slice (s : jsstring) (a b : Z) :
  0 <= a <= b -> b <= len s ->
  substring s a b = slice s (Z.to_nat a) (Z.to_nat b).
Proof.
  intros Hab Hb. unfold substring, slice.
  rewrite !clamp_in_range by lia.
  replace (Nat.min (Z.to_nat a) (Z.to_nat b)) with (Z.to_nat a) by lia.
  replace (Nat.max (Z.to_nat a) (Z.to_nat b)) with (Z.to_nat b) by lia.
  reflexivity.
Qed.

Lemma slice_length (s : jsstring) (a b : nat) :
  (a <= b)%nat -> (b <= length s)%nat -> length (slice s a b) = (b - a)%nat.
Proof.
  intros Hab Hb. unfold slice. rewrite length_take, length_drop. lia.
Qed.

(** A span inside the middle part of a concatenation. *)
Lemma substring_middle (a b c : jsstring) :
  substring (a ++ b ++ c) (len a) (len a + len b) = b.
Proof.
  assert (Hl : len (a ++ b ++ c) = len a + len b + len c)
    by (rewrite !len_app; lia).
  pose proof (len_nonneg a). pose proof (len_nonneg b). pose proof (len_nonneg c).
  rewrite substring_slice by lia. unfold slice, len.
  rewrite Z2Nat.inj_add, !Nat2Z.id by lia.
  rewrite drop_app_length.
  replace (length a + length b - length a)%nat with (length b) by lia.
  apply take_app_length.
Qed.

Lemma substring_head (a b : jsstring) : substring (a ++ b) 0 (len a) = a.
Proof.
  pose proof (substring_middle [] a b) as H. simpl in H.
  replace (len [] + len a) with (len a) in H by (unfold len; simpl; lia).
  exact H.
Qed.

Lemma substringFrom_tail (a b : jsstring) : substringFrom (a ++ b) (len a) = b.
Proof.
  unfold substringFrom. pose proof (len_nonneg a). pose proof (len_nonneg b).
  rewrite clamp_in_range by (rewrite len_app; lia).
  unfold len. rewrite Nat2Z.id. apply drop_app_length.
Qed.

Lemma substringFrom_0 (s : jsstring) : substringFrom s 0 = s.
Proof. unfold substringFrom, clamp. pose proof (len_nonneg s).
  replace (Z.to_nat (Z.min (Z.max 0 0) (len s))) with 0%nat by lia. reflexivity.
Qed.

Lemma substring_length (s : jsstring) (a b : Z) :
  0 <= a <= b -> b <= len s -> len (substring s a b) = b - a.
Proof.
  intros Hab Hb. rewrite substring_slice by lia. unfold len in *.
  rewrite slice_length by lia. lia.
Qed.

Lemma substringFrom_length (s : jsstring) (a : Z) :
  0 <= a <= len s -> len (substringFrom s a) = len s - a.
Proof.
  intros Ha. unfold substringFrom. rewrite clamp_in_range by lia.
  unfold len in *. rewrite length_drop. lia.
Qed.

(** Cutting the text after [lo] at a span [a, b). *)
Lemma substringFrom_split (s : jsstring) (lo a b : Z) :
  0 <= lo <= a -> a <= b -> b <= len s ->
  substringFrom s lo = substring s lo a ++ substring s a b ++ substringFrom s b.
Proof.
  intros H1 H2 H3. unfold substringFrom.
  rewrite !substring_slice, !clamp_in_range by lia. unfold slice.
  set (l := Z.to_nat lo). set (x := Z.to_nat a). set (y := Z.to_nat b).
  assert (Hx : x = (l + (x - l))%nat) by lia.
  assert (Hy : y = (x + (y - x))%nat) by lia.
  rewrite <- (take_drop (x - l) (drop l s)) at 1. f_equal.
  rewrite drop_drop, <- Hx.
  rewrite <- (take_drop (y - x) (drop x s)) at 1. f_equal.
  rewrite drop_drop, <- Hy. reflexivity.
Qed.

(** ** The matcher *)

Lemma run_bounds (p : pattern) : forall s pos g cap e cap',
  run p s pos g cap = Some (e, cap') ->
  (pos + minLen p <= e)%nat /\ (e <= pos + length s)%nat.
Proof.
  induction p as [|a p IH]; intros s pos g cap e cap' H; simpl in H.
  - inversion H; subst. simpl. lia.
  - destruct a as [k|greedy k| | |].
    + destruct s as [|c s']; [discriminate|].
      destruct (inClass k c); [|discriminate].
      apply IH in H. simpl. lia.
    + simpl minLen. revert pos H.
      induction s as [|c s' IHs]; intros pos H.
      * destruct greedy; simpl in H.
        -- apply IH in H. simpl in *. lia.
        -- destruct (run p [] pos g cap) as [r|] eqn:Hr; [|discriminate].
           inversion H; subst r. apply IH in Hr. simpl in *. lia.
      * destruct greedy.
        -- destruct (inClass k c).
           ++ match type of H with
              | match ?star with _ => _ end = _ => destruct star as [r|] eqn:Hs
              end.
              ** inversion H; subst r. apply IHs in Hs. simpl. lia.
              ** apply IH in H. simpl in *. lia.
           ++ apply IH in H. simpl in *. lia.
        -- destruct (run p (c :: s') pos g cap) as [r|] eqn:Hr.
           ++ inversion H; subst r. apply IH in Hr. simpl in *. lia.
           ++ destruct (inClass k c); [|discriminate].
              apply IHs in H. simpl in *. lia.
    + apply IH in H. simpl in *. lia.
    + apply IH in H. simpl in *. lia.
    + destruct s; [|discriminate]. apply IH in H. simpl in *. lia.
Qed.

Lemma search_spec (p : pattern) (content : jsstring) : forall s pos m,
  search p content s pos = Some m ->
  (pos <= index m)%nat /\ (index m + minLen p <= lastIndexAfter m)%nat /\
  (lastIndexAfter m <= pos + length s)%nat /\
  whole m = slice content (index m) (lastIndexAfter m).
Proof.
  induction s as [|c s' IH]; intros pos m H; simpl in H.
  - destruct (run p [] pos pos None) as [[e cap]|] eqn:Hr; [|discriminate].
    inversion H; subst; simpl. apply run_bounds in Hr. simpl in Hr.
    repeat split; try lia.
  - destruct (run p (c :: s') pos pos None) as [[e cap]|] eqn:Hr.
    + inversion H; subst; simpl. apply run_bounds in Hr. simpl in Hr.
      repeat split; try lia.
    + apply IH in H. simpl. repeat split; try lia. tauto.
Qed.

Lemma exec_spec (p : pattern) (content : jsstring) (lastIndex : nat) m :
  exec p content lastIndex = Some m ->
  (lastIndex <= index m)%nat /\ (index m + minLen p <= lastIndexAfter m)%nat /\
  (lastIndexAfter m <= length content)%nat /\
  whole m = slice content (index m) (lastIndexAfter m).
Proof.
  unfold exec. intros H.
  destruct (length content <? lastIndex)%nat eqn:Hlt; [discriminate|].
  apply Nat.ltb_ge in Hlt. apply search_spec in H.
  rewrite length_drop in H. repeat split; try lia. tauto.
Qed.

(** ** Sorting *)
Section SortFacts.
Context {A : Type} (key : A -> Z).

Lemma insertSorted_perm x (l : list A) :
    Permutation (insertSorted key x l) (x :: l).
  Proof.
    induction l as [|y l IH]; simpl; [reflexivity|].
    destruct (key x <=? key y); [reflexivity|].
    rewrite IH. apply perm_swap.
  Qed.

Lemma insertSorted_sorted x (l : list A) :
    Sorted (keyLe key) l -> Sorted (keyLe key) (insertSorted key x l).
  Proof.
    induction 1 as [|y l Hs IH Hhd]; simpl.
    - repeat constructor.
    - destruct (key x <=? key y) eqn:Hxy.
      + apply Z.leb_le in Hxy. repeat constructor; assumption.
      + apply Z.leb_gt in Hxy. constructor; [exact IH|].
        destruct Hhd as [|z l' Hyz]; simpl.
        * constructor. unfold keyLe. lia.
        * destruct (key x <=? key z); constructor; unfold keyLe in *; lia.
  Qed.

Lemma sortBy_perm (l : list A) : Permutation (sortBy key l) l.
  Proof.
    induction l as [|x l IH]; simpl; [reflexivity|].
    rewrite insertSorted_perm. constructor. exact IH.
  Qed.

Lemma sortBy_sorted (l : list A) : Sorted (keyLe key) (sortBy key l).
  Proof.
    induction l as [|x l IH]; simpl; [constructor|].
    apply insertSorted_sorted, IH.
  Qed.
End SortFacts.

End JSFacts.

(* ===================================================================== *)
(** * mermaid-processor.ts: extraction                                    *)
(* ===================================================================== *)
Module ExtractFacts.
Import JS Eff Mermaid MermaidSpec JSFacts.

Lemma minLen_codeFence : minLen codeFence = 14%nat.
Proof. reflexivity. Qed.

Lemma minLen_tripleColon : minLen tripleColon = 14%nat.
Proof. reflexivity. Qed.

Lemma diagramOf_located (p : pattern) (content : jsstring) (lastIndex : nat) m :
  (0 < minLen p)%nat ->
  exec p content lastIndex = Some m ->
  Z.of_nat lastIndex <= startIndex (diagramOf m) /\
  located content (diagramOf m) /\
  endIndex (diagramOf m) = Z.of_nat (lastIndexAfter m).
Proof.
  intros Hp H. apply exec_spec in H. destruct H as (Hlo & Hlen & Hhi & Hw).
  assert (Hwl : len (whole m) = Z.of_nat (lastIndexAfter m) - Z.of_nat (index m)).
  { unfold len. rewrite Hw, slice_length by lia. lia. }
  unfold located, diagramOf; simpl. rewrite Hwl.
  repeat split; try (unfold len; lia).
  rewrite substring_slice by (unfold len; lia).
  rewrite Hw. f_equal; lia.
Qed.

Lemma execLoop_chain (p : pattern) (content : jsstring) :
  (0 < minLen p)%nat ->
  forall fuel lastIndex,
    chain content (Z.of_nat lastIndex) (execLoop fuel p content lastIndex).
Proof.
  intros Hp. induction fuel as [|fuel IH]; intros lastIndex; [exact I|].
  cbn [execLoop].
  destruct (exec p content lastIndex) as [m|] eqn:Hm; [|exact I].
  destruct (diagramOf_located p content lastIndex m Hp Hm) as (Hlo & Hloc & He).
  cbn [chain]. rewrite He. auto.
Qed.

(** The loop of [extractDiagrams] ends because [exec] returns [null], not
    because the bound on its iterations is reached: any larger bound
    gives the same matches. *)
Lemma execLoop_fuel (p : pattern) (content : jsstring) :
  (0 < minLen p)%nat ->
  forall f1 f2 lastIndex,
    (length content - lastIndex < f1)%nat ->
    (length content - lastIndex < f2)%nat ->
    execLoop f1 p content lastIndex = execLoop f2 p content lastIndex.
Proof.
  intros Hp. induction f1 as [|f1 IH]; intros f2 lastIndex H1 H2; [lia|].
  destruct f2 as [|f2]; [lia|]. simpl.
  destruct (exec p content lastIndex) as [m|] eqn:Hm; [|reflexivity].
  f_equal. apply exec_spec in Hm. apply IH; lia.
Qed.

Lemma matchesOf_fuel (p : pattern) (content : jsstring) (extra : nat) :
  (0 < minLen p)%nat ->
  execLoop (S (length content) + extra) p content 0 = matchesOf p content.
Proof. intros Hp. apply execLoop_fuel; [exact Hp|lia|lia]. Qed.

Lemma chain_weaken (content : jsstring) (a b : Z) ds :
  a <= b -> chain content b ds -> chain content a ds.
Proof.
  destruct ds; simpl; [tauto|]. intros ? (? & ? & ?).
  split; [lia|split; assumption].
Qed.

Lemma chain_located (content : jsstring) : forall ds from,
  chain content from ds -> Forall (located content) ds.
Proof.
  induction ds as [|d ds IH]; intros from H; simpl in H; constructor.
  - tauto.
  - apply (IH (endIndex d)). tauto.
Qed.

Lemma chain_ascending (content : jsstring) : forall ds from,
  chain content from ds -> ascending ds.
Proof.
  unfold ascending.
  induction ds as [|d ds IH]; intros from H; simpl in H; constructor.
  - apply (IH (endIndex d)). tauto.
  - destruct ds as [|d' ds']; constructor.
    destruct H as (_ & Hd & Hd' & _). unfold located in Hd. lia.
Qed.

Lemma chain_lower (content : jsstring) : forall ds from,
  chain content from ds -> forall d, In d ds -> from <= startIndex d.
Proof.
  induction ds as [|x ds IH]; intros from Hc d Hin; [destruct Hin|].
  simpl in Hc. destruct Hc as (Hz & Hx & Hc). destruct Hin as [->|Hin]; [lia|].
  unfold located in Hx. specialize (IH _ Hc d Hin). lia.
Qed.

Lemma chain_nonOverlapping (content : jsstring) : forall ds from,
  chain content from ds -> nonOverlapping ds = true.
Proof.
  induction ds as [|d ds IH]; intros from H; simpl in *; [reflexivity|].
  destruct H as (_ & Hd & Hc). rewrite (IH _ Hc), andb_true_r.
  apply forallb_forall. intros d' Hin.
  assert (Hge : endIndex d <= startIndex d') by exact (chain_lower content ds _ Hc d' Hin).
  unfold overlaps. apply negb_true_iff, andb_false_iff. right.
  apply Z.ltb_ge. exact Hge.
Qed.

Lemma located_extract (content : jsstring) :
  Forall (located content) (extractDiagrams content).
Proof.
  unfold extractDiagrams.
  eapply Permutation_Forall; [symmetry; apply sortBy_perm|].
  simpl. rewrite app_nil_r. apply Forall_app. split.
  - apply (chain_located content _ (Z.of_nat 0)), execLoop_chain.
    rewrite minLen_codeFence. lia.
  - apply (chain_located content _ (Z.of_nat 0)), execLoop_chain.
    rewrite minLen_tripleColon. lia.
Qed.

Lemma ascending_extract (content : jsstring) :
  ascending (extractDiagrams content).
Proof. apply (sortBy_sorted startIndex). Qed.

(** Ascending, located and pairwise disjoint spans follow one another. *)
Lemma disjoint_chain (content : jsstring) : forall ds from,
  from <= 0 \/ Forall (fun d => from <= startIndex d) ds ->
  ascending ds -> Forall (located content) ds -> nonOverlapping ds = true ->
  chain content from ds.
Proof.
  induction ds as [|d ds IH]; intros from Hfrom Hasc Hloc Hno; simpl; [exact I|].
  apply Forall_cons in Hloc. destruct Hloc as [Hd Hloc].
  simpl in Hno. apply andb_true_iff in Hno. destruct Hno as [Hd' Hno].
  assert (Hs : StronglySorted (fun a b => startIndex a <= startIndex b) (d :: ds)).
  { apply Sorted_StronglySorted; [|exact Hasc]. intros a b c; lia. }
  apply StronglySorted_inv in Hs. destruct Hs as [Hs Hall].
  split; [|split; [exact Hd|]].
  - destruct Hfrom as [H0|Hf]; [unfold located in Hd; lia|].
    apply Forall_cons in Hf. tauto.
  - apply IH; try assumption.
    + right. rewrite Forall_forall. intros d1 Hin.
      rewrite forallb_forall in Hd'.
      apply list_elem_of_In in Hin.
      specialize (Hd' d1 Hin). rewrite List.Forall_forall in Hall, Hloc.
      specialize (Hall d1 Hin). specialize (Hloc d1 Hin).
      unfold overlaps in Hd'. apply negb_true_iff, andb_false_iff in Hd'.
      unfold located in Hloc.
      destruct Hd' as [H1|H1]; apply Z.ltb_ge in H1; lia.
    + apply Sorted_inv in Hasc. tauto.
Qed.

Lemma chain_extract (content : jsstring) :
  nonOverlapping (extractDiagrams content) = true ->
  chain content 0 (extractDiagrams content).
Proof.
  intros H. apply disjoint_chain; auto using ascending_extract, located_extract.
  left. lia.
Qed.

End ExtractFacts.

(* ===================================================================== *)
(** * mermaid-processor.ts: rendering and splicing                        *)
(* ===================================================================== *)
Module SpliceFacts.
Import JS Eff Mermaid MermaidSpec JSFacts ExtractFacts.

Lemma renderDiagram_returns (e : RenderEnv) (code outputPath : jsstring) (w : World) :
  exists r w', renderDiagram e code outputPath w = (Ok r, w').
Proof.
  unfold renderDiagram, tryCatch.
  match goal with |- context [match ?body w with _ => _ end] =>
    destruct (body w) as [[r|msg] w'] end; eauto.
Qed.

Section Loop.
Variable pathJoin : jsstring -> jsstring -> jsstring.
Variable outputFormat : jsstring.
Variable renders : nat -> RenderEnv.
Variables outputDir baseFileName : jsstring.

Local Abbreviation renderRun := (renderRun pathJoin outputFormat renders outputDir baseFileName).
Local Abbreviation spliceFrom := (spliceFrom outputFormat baseFileName).
Local Abbreviation processLoop :=
    (processLoop pathJoin outputFormat renders outputDir baseFileName).

Lemma renderRun_length : forall ds i w, length (renderRun i ds w).1 = length ds.
  Proof.
    induction ds as [|d ds IH]; intros i w; simpl; [reflexivity|].
    destruct (renderDiagram_returns (renders i) (code d)
                (pathJoin outputDir (imageName outputFormat baseFileName i)) w)
      as (r & w' & Hr).
    rewrite Hr. specialize (IH (S i) w').
    destruct (renderRun (S i) ds w') as [rs w'']. simpl in *. lia.
  Qed.

(** The loop is the splicing of the results of its render calls. *)
Lemma processLoop_run : forall ds i st w,
    processLoop i ds st w =
      (Ok (spliceFrom i ds (renderRun i ds w).1 st), (renderRun i ds w).2).
  Proof.
    induction ds as [|d ds IH]; intros i st w; simpl; [reflexivity|].
    unfold mbind, M_bind, bind.
    destruct (renderDiagram_returns (renders i) (code d)
                (pathJoin outputDir (imageName outputFormat baseFileName i)) w)
      as (r & w' & Hr).
    rewrite Hr. rewrite IH.
    destruct (renderRun (S i) ds w') as [rs w'']. reflexivity.
  Qed.

End Loop.

Section Splice.
Variables outputFormat baseFileName : jsstring.

Local Abbreviation spliceFrom := (spliceFrom outputFormat baseFileName).
Local Abbreviation spliceStep := (spliceStep outputFormat baseFileName).
Local Abbreviation stateAt := (stateAt outputFormat baseFileName).
Local Abbreviation pieceAt := (pieceAt outputFormat baseFileName).
Local Abbreviation rebuild := (rebuild outputFormat baseFileName).

Lemma spliceFrom_app : forall ds1 rs1 ds2 rs2 i st,
    length rs1 = length ds1 ->
    spliceFrom i (ds1 ++ ds2) (rs1 ++ rs2) st =
      spliceFrom (i + length ds1) ds2 rs2 (spliceFrom i ds1 rs1 st).
  Proof.
    induction ds1 as [|d ds1 IH]; intros rs1 ds2 rs2 i st Hl.
    - destruct rs1; [|discriminate]. simpl. f_equal. lia.
    - destruct rs1 as [|r rs1]; [discriminate|]. simpl.
      rewrite IH by (simpl in Hl; lia). f_equal. lia.
  Qed.

Lemma located_fullMatch_len (content : jsstring) d :
    located content d -> len (fullMatch d) = endIndex d - startIndex d.
  Proof.
    intros (H0 & H1 & H2 & ->). apply substring_length; lia.
  Qed.

(** One iteration, when the text so far is [p] followed by the
    original text from [lo] on and the diagram starts after [lo]. *)
Lemma spliceStep_inv (content : jsstring) (i : nat) d r st (p : jsstring) (lo : Z) :
    0 <= lo <= startIndex d -> located content d ->
    processedContent st = p ++ substringFrom content lo ->
    len p = lo + offset st ->
    let p' := p ++ substring content lo (startIndex d) ++ pieceAt i d r in
    let st' := spliceStep i d r st in
    processedContent st' = p' ++ substringFrom content (endIndex d) /\
    len p' = endIndex d + offset st' /\
    substring (processedContent st) (startIndex d + offset st)
      (endIndex d + offset st) = fullMatch d /\
    len (p ++ substring content lo (startIndex d)) = startIndex d + offset st.
  Proof.
    intros Hlo Hd Hpc Hp. pose proof (located_fullMatch_len content d Hd) as Hfm.
    destruct Hd as (H0 & H1 & H2 & Hfull).
    assert (Hgap : len (p ++ substring content lo (startIndex d))
                   = startIndex d + offset st).
    { rewrite len_app, substring_length by lia. lia. }
    assert (Hsplit : processedContent st =
              (p ++ substring content lo (startIndex d)) ++ fullMatch d
                ++ substringFrom content (endIndex d)).
    { rewrite Hpc, (substringFrom_split content lo (startIndex d) (endIndex d))
        by lia.
      rewrite <- Hfull, <- app_assoc. reflexivity. }
    assert (Hmid : substring (processedContent st) (startIndex d + offset st)
                     (endIndex d + offset st) = fullMatch d).
    { rewrite Hsplit, <- Hgap.
      replace (endIndex d + offset st) with
        (len (p ++ substring content lo (startIndex d)) + len (fullMatch d)) by lia.
      apply substring_middle. }
    intros p' st'. subst p' st'. unfold Mermaid.spliceStep, MermaidSpec.pieceAt.
    set (img := imageMarkdown outputFormat baseFileName i).
    destruct (success r); cbn [processedContent offset errors].
    - repeat split; try assumption.
      + rewrite Hsplit at 1. rewrite <- Hgap at 1. rewrite substring_head.
        rewrite Hsplit.
        replace (endIndex d + offset st) with
          (len (p ++ substring content lo (startIndex d)) + len (fullMatch d)) by lia.
        rewrite (app_assoc _ (fullMatch d)), <- len_app, substringFrom_tail.
        rewrite <- !app_assoc. reflexivity.
      + rewrite app_assoc, len_app. lia.
    - repeat split; try assumption.
      + rewrite Hsplit, <- !app_assoc. reflexivity.
      + rewrite app_assoc, len_app. lia.
  Qed.

Lemma lastEnd_range (content : jsstring) : forall ds lo,
    0 <= lo <= len content -> chain content lo ds ->
    lo <= lastEnd lo ds <= len content.
  Proof.
    induction ds as [|d ds IH]; intros lo Hlo Hc; simpl; [lia|].
    destruct Hc as (Hs & Hd & Hc). pose proof Hd as (H0 & H1 & H2 & _).
    specialize (IH (endIndex d) ltac:(lia) Hc). lia.
  Qed.

(** The whole loop under the same invariant. *)
Lemma spliceFrom_inv (content : jsstring) : forall ds rs i st p lo,
    length rs = length ds -> 0 <= lo <= len content -> chain content lo ds ->
    processedContent st = p ++ substringFrom content lo ->
    len p = lo + offset st ->
    processedContent (spliceFrom i ds rs st) = p ++ rebuild content lo i ds rs /\
    exists p', processedContent (spliceFrom i ds rs st)
                 = p' ++ substringFrom content (lastEnd lo ds) /\
               len p' = lastEnd lo ds + offset (spliceFrom i ds rs st).
  Proof.
    induction ds as [|d ds IH]; intros rs i st p lo Hl Hlo Hc Hpc Hp.
    - destruct rs; [|discriminate]. simpl. eauto.
    - destruct rs as [|r rs]; [discriminate|]. simpl in Hc.
      destruct Hc as (Hs & Hd & Hc).
      destruct (spliceStep_inv content i d r st p lo) as (Hpc1 & Hp1 & _);
        try assumption; [lia|].
      pose proof Hd as (H0 & H1 & H2 & _).
      destruct (IH rs (S i) (spliceStep i d r st)
                  (p ++ substring content lo (startIndex d) ++ pieceAt i d r)
                  (endIndex d)) as (Ha & Hb);
        try assumption; [simpl in Hl; lia|lia|].
      simpl. split; [|exact Hb].
      rewrite Ha, <- !app_assoc. reflexivity.
  Qed.

Lemma chain_app (content : jsstring) : forall ds1 ds2 lo,
    chain content lo (ds1 ++ ds2) ->
    chain content lo ds1 /\ chain content (lastEnd lo ds1) ds2.
  Proof.
    induction ds1 as [|d ds1 IH]; intros ds2 lo H; simpl in *; [tauto|].
    destruct H as (? & ? & H). apply IH in H. tauto.
  Qed.

Lemma offset_is_net_change (content : jsstring) st (p : jsstring) (lo : Z) :
    0 <= lo <= len content ->
    processedContent st = p ++ substringFrom content lo ->
    len p = lo + offset st ->
    offset st = len (processedContent st) - len content.
  Proof.
    intros Hlo Hpc Hp. rewrite Hpc, len_app, substringFrom_length by lia. lia.
  Qed.

(** Iteration [k] of the loop over a chain of diagrams: where it
    reads, what it finds there, and where its piece stands in the
    final text. *)
Lemma splice_at (content : jsstring) ds rs k d r :
    chain content 0 ds -> length rs = length ds ->
    ds !! k = Some d -> rs !! k = Some r ->
    let st := stateAt content ds rs k in
    let final := spliceFrom 0 ds rs (initialState content) in
    offset st = len (processedContent st) - len content /\
    substring (processedContent st) (startIndex d + offset st)
      (endIndex d + offset st) = fullMatch d /\
    stateAt content ds rs (S k) = spliceStep k d r st /\
    substring (processedContent final) (startIndex d + offset st)
      (startIndex d + offset st + len (pieceAt k d r)) = pieceAt k d r.
  Proof.
    intros Hc Hl Hd Hr st final.
    pose proof (take_drop_middle ds k d Hd) as Hds.
    pose proof (take_drop_middle rs k r Hr) as Hrs.
    assert (Hk : length (take k ds) = k).
    { apply length_take_le. apply lookup_lt_Some in Hd. lia. }
    assert (Hk' : length (take k rs) = length (take k ds)).
    { rewrite !length_take. lia. }
    rewrite <- Hds in Hc. apply chain_app in Hc. destruct Hc as (Hc1 & Hc2).
    pose proof (len_nonneg content) as Hcont.
    destruct (spliceFrom_inv content (take k ds) (take k rs) 0
                (initialState content) [] 0) as (_ & p & Hpc & Hp);
      try assumption; try lia;
      [simpl; rewrite substringFrom_0; reflexivity|reflexivity|].
    fold (stateAt content ds rs k) in Hpc, Hp. fold st in Hpc, Hp.
    pose proof (lastEnd_range content (take k ds) 0 ltac:(lia) Hc1) as Hle.
    simpl in Hc2. destruct Hc2 as (Hs & Hloc & Hc2).
    destruct (spliceStep_inv content k d r st p (lastEnd 0 (take k ds)))
      as (Hpc1 & Hp1 & Hmid & Hgap); try assumption; [lia|].
    assert (Hnext : stateAt content ds rs (S k) = spliceStep k d r st).
    { unfold MermaidSpec.stateAt.
      rewrite (take_S_r ds k d Hd), (take_S_r rs k r Hr).
      rewrite spliceFrom_app by exact Hk'. rewrite Hk. reflexivity. }
    split; [eapply offset_is_net_change; eauto; lia|].
    split; [exact Hmid|]. split; [exact Hnext|].
    assert (Hfinal : final = spliceFrom (S k) (drop (S k) ds) (drop (S k) rs)
                               (spliceStep k d r st)).
    { subst final. rewrite <- Hds at 1. rewrite <- Hrs at 1.
      rewrite spliceFrom_app by exact Hk'. rewrite Hk. reflexivity. }
    pose proof Hloc as (H0 & H1 & H2 & _).
    destruct (spliceFrom_inv content (drop (S k) ds) (drop (S k) rs) (S k)
                (spliceStep k d r st)
                (p ++ substring content (lastEnd 0 (take k ds)) (startIndex d)
                   ++ pieceAt k d r)
                (endIndex d)) as (Ha & _);
      try assumption; [rewrite !length_drop; lia|lia|].
    rewrite Hfinal, Ha, <- Hgap.
    rewrite (app_assoc p), <- app_assoc.
    apply substring_middle.
  Qed.

End Splice.

End SpliceFacts.

(* ===================================================================== *)
(** * mermaid-processor.ts: the statements                                *)
(* ===================================================================== *)
Module MermaidClaims.
Import JS Eff Mermaid MermaidSpec JSFacts ExtractFacts SpliceFacts Samples.

(** C5, as stated, fails: the matches of the two syntaxes can overlap.
    In [nested] the code fence spans the whole text and the triple-colon
    block lies inside it. *)
Lemma extractDiagrams_overlap_counterexample :
  ~ extractInvariant nested.
Proof.
  unfold extractInvariant. intros (_ & _ & H). vm_compute in H. discriminate.
Qed.

(** C5, amended: [extractDiagrams] returns the matches of both delimiter
    syntaxes (a permutation of the two match lists) in ascending order of
    start offset; every match lies in the text with its span and source
    text; the matches of one and the same syntax follow one another
    without overlap.  (Matches of different syntaxes can overlap.)  The
    match lists are complete: a larger bound on the iterations of the
    [exec] loop finds no further match. *)
Theorem extractDiagrams_sorted_union (content : jsstring) :
  ascending (extractDiagrams content) /\
  Permutation (extractDiagrams content)
    (matchesOf codeFence content ++ matchesOf tripleColon content) /\
  Forall (located content) (extractDiagrams content) /\
  chain content 0 (matchesOf codeFence content) /\
  chain content 0 (matchesOf tripleColon content) /\
  nonOverlapping (matchesOf codeFence content) = true /\
  nonOverlapping (matchesOf tripleColon content) = true /\
  (forall extra,
     execLoop (S (length content) + extra) codeFence content 0
       = matchesOf codeFence content /\
     execLoop (S (length content) + extra) tripleColon content 0
       = matchesOf tripleColon content).
Proof.
  assert (Hc : chain content 0 (matchesOf codeFence content)).
  { apply (execLoop_chain codeFence content ltac:(rewrite minLen_codeFence; lia)
             _ 0%nat). }
  assert (Ht : chain content 0 (matchesOf tripleColon content)).
  { apply (execLoop_chain tripleColon content
             ltac:(rewrite minLen_tripleColon; lia) _ 0%nat). }
  repeat split; try assumption.
  - apply ascending_extract.
  - unfold extractDiagrams. rewrite sortBy_perm. simpl. rewrite app_nil_r.
    reflexivity.
  - apply located_extract.
  - eapply chain_nonOverlapping, Hc.
  - eapply chain_nonOverlapping, Ht.
  - apply matchesOf_fuel. rewrite minLen_codeFence. lia.
  - apply matchesOf_fuel. rewrite minLen_tripleColon. lia.
Qed.

(** C6, amended.  [renderDiagram] always returns a result value and
    never throws.  It reports success exactly when everything before
    the subprocess worked, the subprocess exited with code zero and the
    output file exists afterwards; every failure carries an error
    message.  In particular a timeout, a non-zero exit and a missing
    output file each give [success = false], whether or not a file is
    at the output path, and once the subprocess has exited with code
    zero, success is equivalent to the existence of the output file. *)
Theorem renderDiagram_never_throws (e : RenderEnv) (code outputPath : jsstring)
    (w : World) :
  exists r w',
    renderDiagram e code outputPath w = (Ok r, w') /\
    success r = setupOk e w && exitedZero e && outputExists e /\
    (success r = false -> exists msg, error r = Some msg) /\
    (forall msg, mmdc e = TimedOut msg -> success r = false) /\
    (forall msg, mmdc e = ExitNonZero msg -> success r = false) /\
    (outputExists e = false -> success r = false) /\
    (setupOk e w = true -> mmdc e = ExitZero ->
     (success r = true <-> outputExists e = true)).
Proof.
  destruct e as [td wi wm wp ex oe], w as [ds t pd].
  unfold renderDiagram, setupOk, exitedZero, tryCatch, mbind, M_bind, bind,
    getWorld, call, execAsync, setDirs, setTempDir, ret, throw.
  cbn [tmpDirCall writeInput writeMermaidConfig writePuppeteerConfig mmdc
       outputExists tempDir dirs pdfDests].
  destruct t as [[|c t]|]; cbn [truthy negb];
    destruct td as [p|m0]; destruct wi as [[]|m1]; destruct wm as [[]|m2];
    destruct wp as [[]|m3]; destruct ex as [|m4|m4]; destruct oe;
    cbn; eexists _, _; (split; [reflexivity|]); cbn;
    repeat split; intros; try discriminate; try congruence; eauto.
Qed.

(** C6, as stated, fails: the subprocess exits with a non-zero code
    while a file is at the output path.  The result is a failure, so
    success is not equivalent to the existence of the output file. *)
Lemma renderDiagram_output_counterexample :
  (exists w',
     renderDiagram renderExitOneWithOutput (lit "graph LR")
       (lit "/w/doc-diagram-1.png") emptyWorld
     = (Ok {| success := false;
              error := Some (lit "Command failed: npx mmdc") |}, w')) /\
  outputExists renderExitOneWithOutput = true /\
  ~ successIffOutput renderExitOneWithOutput (lit "graph LR")
      (lit "/w/doc-diagram-1.png") emptyWorld.
Proof.
  split; [eexists; vm_compute; reflexivity|]. split; [reflexivity|].
  intros H.
  destruct (renderDiagram renderExitOneWithOutput (lit "graph LR")
              (lit "/w/doc-diagram-1.png") emptyWorld) as [[r|msg] w'] eqn:Hrun;
    [|vm_compute in Hrun; discriminate].
  pose proof (proj2 (H r w' Hrun) eq_refl) as Hs.
  vm_compute in Hrun. injection Hrun as <- _. discriminate.
Qed.

(** A render whose subprocess runs into the timeout. *)
Lemma renderDiagram_never_throws_witness :
  exists r w',
    renderDiagram renderTimeout (lit "graph LR") (lit "/w/doc-diagram-1.png")
      emptyWorld = (Ok r, w') /\
    success r = false /\
    error r = Some (lit "Command failed: npx mmdc").
Proof.
  destruct (renderDiagram_never_throws renderTimeout (lit "graph LR")
              (lit "/w/doc-diagram-1.png") emptyWorld)
    as (r & w' & Hrun & _ & _ & Hto & _).
  exists r, w'. split; [exact Hrun|]. split.
  - apply (Hto (lit "Command failed: npx mmdc")). reflexivity.
  - vm_compute in Hrun. injection Hrun as <- _. reflexivity.
Defined.

Section Process.
Variable pathJoin : jsstring -> jsstring -> jsstring.
Variable outputFormat : jsstring.
Variable renders : nat -> RenderEnv.
Variables outputDir baseFileName : jsstring.

Local Abbreviation processMarkdown :=
    (processMarkdown pathJoin outputFormat renders).
Local Abbreviation resultsOf :=
    (resultsOf pathJoin outputFormat renders outputDir baseFileName).
Local Abbreviation stateAt := (stateAt outputFormat baseFileName).
Local Abbreviation spliceFrom := (spliceFrom outputFormat baseFileName).

Lemma processMarkdown_run (content : jsstring) (w : World) :
    exists w',
      processMarkdown content outputDir baseFileName w =
        (Ok {| resultContent :=
                 processedContent
                   (spliceFrom 0 (extractDiagrams content) (resultsOf content w)
                      (initialState content));
               diagramCount := length (extractDiagrams content);
               resultErrors :=
                 errors (spliceFrom 0 (extractDiagrams content)
                           (resultsOf content w) (initialState content)) |}, w').
  Proof.
    unfold Mermaid.processMarkdown, mbind, M_bind, bind.
    rewrite processLoop_run. eexists. reflexivity.
  Qed.

(** C1.  For a text whose diagram spans do not overlap,
    [processMarkdown] returns, and its loop visits the matches in
    ascending order of start offset with a running [offset] that starts
    at 0 and always equals the net change of length made so far.  On
    entry to iteration [k] the adjusted span
    [startIndex + offset, endIndex + offset) of the edited text holds
    exactly the source text of match [k]; a successful render moves
    [offset] by the length of the replacement minus the length of that
    source text; and in the final text the piece for match [k] (its
    image reference, or its source when the render failed) stands at
    that adjusted start.  The final text is the original text with each
    span, taken at its original offsets, filled with its piece. *)
Theorem processMarkdown_running_offset (content : jsstring) (w : World) :
    nonOverlapping (extractDiagrams content) = true ->
    exists out w',
      processMarkdown content outputDir baseFileName w = (Ok out, w') /\
      ascending (extractDiagrams content) /\
      offset (stateAt content (extractDiagrams content) (resultsOf content w) 0) = 0 /\
      resultContent out =
        rebuild outputFormat baseFileName content 0 0
          (extractDiagrams content) (resultsOf content w) /\
      forall k d r,
        extractDiagrams content !! k = Some d ->
        resultsOf content w !! k = Some r ->
        let st := stateAt content (extractDiagrams content) (resultsOf content w) k in
        let st' := stateAt content (extractDiagrams content) (resultsOf content w) (S k) in
        let piece := pieceAt outputFormat baseFileName k d r in
        offset st = len (processedContent st) - len content /\
        substring (processedContent st) (startIndex d + offset st)
          (endIndex d + offset st) = fullMatch d /\
        st' = spliceStep outputFormat baseFileName k d r st /\
        (success r = true ->
           offset st' = offset st + (len piece - len (fullMatch d)) /\
           processedContent st' =
             substring (processedContent st) 0 (startIndex d + offset st)
               ++ piece
               ++ substringFrom (processedContent st) (endIndex d + offset st)) /\
        substring (resultContent out) (startIndex d + offset st)
          (startIndex d + offset st + len piece) = piece.
  Proof.
    intros Hno. apply chain_extract in Hno.
    destruct (processMarkdown_run content w) as (w' & Hrun).
    eexists _, w'. split; [exact Hrun|]. cbn [resultContent].
    assert (Hlen : length (resultsOf content w) = length (extractDiagrams content))
      by apply renderRun_length.
    split; [apply ascending_extract|]. split; [reflexivity|]. split.
    - destruct (spliceFrom_inv outputFormat baseFileName content
                  (extractDiagrams content) (resultsOf content w) 0
                  (initialState content) [] 0) as (Ha & _);
        try assumption; try reflexivity.
      + pose proof (len_nonneg content). lia.
      + simpl. rewrite substringFrom_0. reflexivity.
    - intros k d r Hd Hr.
      destruct (splice_at outputFormat baseFileName content _ _ k d r
                  Hno Hlen Hd Hr) as (Hoff & Hmid & Hnext & Hfin).
      split; [exact Hoff|]. split; [exact Hmid|]. split; [exact Hnext|].
      split; [|exact Hfin].
      intros Hok. rewrite Hnext. unfold spliceStep, MermaidSpec.pieceAt.
      rewrite Hok. split; reflexivity.
  Qed.


(** C8.  When neither delimiter syntax matches, [processMarkdown]
    returns the text unchanged, a diagram count of 0 and no errors
    (and leaves the world as it found it). *)
Theorem processMarkdown_no_diagrams (content : jsstring) (w : World) :
    matchesOf codeFence content = [] ->
    matchesOf tripleColon content = [] ->
    processMarkdown content outputDir baseFileName w =
      (Ok {| resultContent := content; diagramCount := 0; resultErrors := [] |}, w).
  Proof.
    intros Hc Ht. unfold Mermaid.processMarkdown, extractDiagrams. simpl.
    rewrite Hc, Ht. reflexivity.
  Qed.
End Process.

(** The second of three diagrams fails: its source stays, the first and
    the third are replaced, each exactly over its own span. *)
Lemma processMarkdown_running_offset_witness :
  nonOverlapping (extractDiagrams threeDiagrams) = true /\
  exists out w',
    processMarkdown joinWithSlash (lit "png") (failingAt 1) threeDiagrams
      (lit "/w") (lit "doc") emptyWorld = (Ok out, w') /\
    resultContent out = lit "# Title
![Diagram 1](./doc-diagram-1.png)
some text
:::mermaid
sequenceDiagram
    A->>B: Hi
:::
more
![Diagram 3](./doc-diagram-3.png)
end".
Proof.
  split; [vm_compute; reflexivity|].
  destruct (processMarkdown_running_offset joinWithSlash (lit "png")
              (failingAt 1) (lit "/w") (lit "doc") threeDiagrams emptyWorld)
    as (out & w' & Hrun & _ & _ & Hout & _); [vm_compute; reflexivity|].
  exists out, w'. split; [exact Hrun|]. rewrite Hout. vm_compute. reflexivity.
Defined.



Lemma processMarkdown_no_diagrams_witness :
  matchesOf codeFence noDiagrams = [] /\
  matchesOf tripleColon noDiagrams = [] /\
  processMarkdown joinWithSlash (lit "png") (failingAt 0) noDiagrams
    (lit "/w") (lit "doc") emptyWorld =
    (Ok {| resultContent := noDiagrams; diagramCount := 0; resultErrors := [] |},
     emptyWorld).
Proof.
  split; [vm_compute; reflexivity|]. split; [vm_compute; reflexivity|].
  apply processMarkdown_no_diagrams; vm_compute; reflexivity.
Defined.

End MermaidClaims.

(* ===================================================================== *)
(** * The configuration layers: the statements                            *)
(* ===================================================================== *)
Module ConfigClaims.
Import JS Config ConfigSpec Samples.

Lemma spread_lookup (a b : option object) (k : string) :
  spread a b !! k =
    match default ∅ b !! k with
    | Some v => Some v
    | None => default ∅ a !! k
    end.
Proof.
  unfold spread. rewrite lookup_union.
  destruct (default ∅ b !! k), (default ∅ a !! k); reflexivity.
Qed.

(** Per key of a sub-object, [mergeConfig] takes the caller's property
    when the caller's sub-object has that property, and the file's
    otherwise. *)
Lemma mergeSub_lookup (fromFile fromCli : option object) (k : string) (m : object) :
  mergeSub fromFile fromCli = Some m ->
  m !! k = match default ∅ fromCli !! k with
           | Some v => Some v
           | None => default ∅ fromFile !! k
           end.
Proof.
  unfold mergeSub. destruct fromCli as [c|]; simpl.
  - intros [= <-]. apply spread_lookup.
  - intros ->. simpl. rewrite lookup_empty. reflexivity.
Qed.

(** The same through the constructor of the PDF generator: present
    properties win layer by layer, the defaults come last. *)
Lemma effectivePdfOptions_lookup (fileConfig : option ConfigFile)
    (cliOptions : ConversionOptions) (k : string) :
  effectivePdfOptions fileConfig cliOptions !! k =
    match default ∅ (pdf cliOptions) !! k with
    | Some v => Some v
    | None => match default ∅ (filePdfOf fileConfig) !! k with
              | Some v => Some v
              | None => DEFAULT_PDF_OPTIONS !! k
              end
    end.
Proof.
  unfold effectivePdfOptions, pdfGeneratorOptions. rewrite spread_lookup.
  cbn [mergeConfig pdf]. fold (filePdfOf fileConfig).
  destruct (mergeSub (filePdfOf fileConfig) (pdf cliOptions)) as [m|] eqn:Hm.
  - cbn [from_option id]. rewrite (mergeSub_lookup _ _ k m Hm).
    destruct (default ∅ (pdf cliOptions) !! k); [reflexivity|].
    destruct (default ∅ (filePdfOf fileConfig) !! k); reflexivity.
  - unfold mergeSub in Hm. destruct (pdf cliOptions); [discriminate|].
    rewrite Hm. cbn [from_option id]. rewrite lookup_empty. reflexivity.
Qed.

(** When no property is present with the value [undefined], the PDF
    options follow the layers. *)
Lemma pdfPrecedence_without_undefined (fileConfig : option ConfigFile)
    (cliOptions : ConversionOptions) :
  noUndefined (pdf cliOptions) -> noUndefined (filePdfOf fileConfig) ->
  pdfPrecedence fileConfig cliOptions.
Proof.
  intros Hc Hf k. unfold read at 1. rewrite effectivePdfOptions_lookup.
  unfold layered, supplied, read.
  destruct (pdf cliOptions) as [c|]; cbn [from_option id].
  - specialize (Hc c k eq_refl). destruct (c !! k) as [[]|]; try congruence;
      try reflexivity; cbn [from_option id];
      destruct (filePdfOf fileConfig) as [f|]; cbn [from_option id];
      try (specialize (Hf f k eq_refl); destruct (f !! k) as [[]|];
           try congruence; reflexivity);
      rewrite lookup_empty; reflexivity.
  - rewrite lookup_empty.
    destruct (filePdfOf fileConfig) as [f|]; cbn [from_option id].
    + specialize (Hf f k eq_refl). destruct (f !! k) as [[]|];
        try congruence; reflexivity.
    + rewrite lookup_empty. reflexivity.
Qed.

(** C9 fails on what the command line builds when [--landscape] is not
    given: the property [landscape] is present with the value
    [undefined], the spread copies it over the file's [landscape: true],
    and again over the default [false].  The layers call for the file's
    value. *)
Lemma mergeConfig_undefined_overrides_file :
  let cliOptions := cliOptionsOf (lit "doc.md") defaultFlags in
  read (pdf (mergeConfig (Some landscapeFile) cliOptions)) "landscape" = VUndefined /\
  read (Some (effectivePdfOptions (Some landscapeFile) cliOptions)) "landscape"
    = VUndefined /\
  layered (filePdfOf (Some landscapeFile)) (pdf cliOptions) "landscape" = VBool true /\
  ~ pdfPrecedence (Some landscapeFile) cliOptions.
Proof.
  cbv zeta. split; [vm_compute; reflexivity|]. split; [vm_compute; reflexivity|].
  split; [vm_compute; reflexivity|].
  intros H. specialize (H "landscape"). vm_compute in H. discriminate.
Qed.

End ConfigClaims.

(* ===================================================================== *)
(** * converter.ts: single conversions                                    *)
(* ===================================================================== *)
Module ConvertClaims.
Import JS Eff Converter ConverterSpec JSFacts Samples.

(** ** The default output path *)

Lemma run_mdSuffix (s : jsstring) (pos g : nat) cap :
  run mdSuffix s pos g cap = if isMd s then Some (S (S (S pos)), cap) else None.
Proof.
  unfold mdSuffix, isMd. cbn [run inClass].
  destruct s as [|a [|b [|c [|x s]]]]; try reflexivity.
  - destruct (a =? 46)%N; reflexivity.
  - destruct (a =? 46)%N; [|reflexivity].
    destruct (canonicalize b =? canonicalize 109)%N; reflexivity.
  - change (canonicalize 109) with 77%N. change (canonicalize 100) with 68%N.
    destruct (a =? 46)%N; [|reflexivity].
    destruct (canonicalize b =? 77)%N; [|reflexivity].
    destruct (canonicalize c =? 68)%N; reflexivity.
  - change (canonicalize 109) with 77%N. change (canonicalize 100) with 68%N.
    destruct (a =? 46)%N; [|reflexivity].
    destruct (canonicalize b =? 77)%N; [|reflexivity].
    destruct (canonicalize c =? 68)%N; reflexivity.
Qed.

Lemma isMd_length (s : jsstring) : isMd s = true -> length s = 3%nat.
Proof. destruct s as [|a [|b [|c [|x s]]]]; simpl; congruence. Qed.

Lemma endsWithMd_cons (c : N) (s : jsstring) :
  isMd (c :: s) = false -> endsWithMd (c :: s) = endsWithMd s.
Proof.
  unfold endsWithMd. intros H.
  destruct (decide (3 <= length s)%nat) as [Hl|Hl].
  - replace (length (c :: s) - 3)%nat with (S (length s - 3)) by (simpl; lia).
    reflexivity.
  - replace (length (c :: s) - 3)%nat with 0%nat by (simpl; lia).
    replace (length s - 3)%nat with 0%nat by lia.
    rewrite !drop_0, H.
    destruct (isMd s) eqn:Hs; [|reflexivity].
    apply isMd_length in Hs. lia.
Qed.

Lemma search_mdSuffix (content : jsstring) : forall s pos,
  match search mdSuffix content s pos with
  | Some m => endsWithMd s = true /\
              index m = (pos + (length s - 3))%nat /\
              lastIndexAfter m = (pos + length s)%nat
  | None => endsWithMd s = false
  end.
Proof.
  induction s as [|c s IH]; intros pos; cbn [search]; rewrite run_mdSuffix.
  - reflexivity.
  - destruct (isMd (c :: s)) eqn:Hmd.
    + cbn [index lastIndexAfter]. pose proof (isMd_length _ Hmd) as Hl.
      unfold endsWithMd. rewrite Hl, Nat.sub_diag, drop_0, Hmd. lia.
    + specialize (IH (S pos)). rewrite (endsWithMd_cons c s Hmd).
      destruct (search mdSuffix content s (S pos)) as [m|]; [|exact IH].
      destruct IH as (He & Hi & Hla). split; [exact He|].
      assert (3 <= length s)%nat.
      { unfold endsWithMd in He. apply isMd_length in He.
        rewrite length_drop in He. lia. }
      simpl. lia.
Qed.

(** [path.replace(/\.md$/i, '.pdf')] swaps a final [.md] for [.pdf] and
    leaves every other path as it is. *)
Lemma mdToPdf_spec (path : jsstring) :
  mdToPdf path =
    if endsWithMd path then take (length path - 3) path ++ lit ".pdf" else path.
Proof.
  unfold mdToPdf, replaceFirst.
  pose proof (search_mdSuffix path path 0) as H.
  destruct (search mdSuffix path path 0) as [m|].
  - destruct H as (-> & -> & ->).
    rewrite !Nat.add_0_l, drop_all, app_nil_r. reflexivity.
  - rewrite H. reflexivity.
Qed.

Section Convert.
Variable resolve : jsstring -> jsstring.
Variable basename : jsstring -> jsstring.
Variable basenameWithout : jsstring -> jsstring -> jsstring.
Variable extname : jsstring -> jsstring.
Variable pathJoin : jsstring -> jsstring -> jsstring.
Variable options : Config.ConversionOptions.

Local Abbreviation convert :=
    (convert resolve basename basenameWithout extname pathJoin options).
Local Abbreviation convertBody :=
    (convertBody basename basenameWithout extname pathJoin options).

Lemma cleanup_pdfDests (o : Exc unit) (w : World) :
    pdfDests (Mermaid.cleanup o w).2 = pdfDests w.
  Proof.
    unfold Mermaid.cleanup, mbind, M_bind, bind, getWorld, call, setDirs,
      setTempDir, ret.
    destruct (tempDir w) as [p|]; [|reflexivity].
    destruct (truthy (Some p) && bool_decide (p ∈ dirs w)); [|reflexivity].
    destruct o as [[]|msg]; reflexivity.
  Qed.

(** A successful [convert] reports the resolved output path and has
    handed it to the PDF generator as destination. *)
Lemma convert_success (e : ConvertEnv) (inputPath : jsstring)
      (outputPath : option jsstring) (w w' : World) (r : ConversionResult) :
    convert e inputPath outputPath w = (Ok r, w') ->
    success r = true ->
    inputFile r = resolve inputPath /\
    outputFile r = Some (resolvedOutputOf resolve inputPath outputPath) /\
    In (resolvedOutputOf resolve inputPath outputPath) (pdfDests w').
  Proof.
    unfold Converter.convert, finally, tryCatch.
    set (out := resolvedOutputOf resolve inputPath outputPath).
    destruct (convertBody e (resolve inputPath) out w) as [[r0|msg] w0] eqn:Hbody.
    - pose proof (cleanup_pdfDests (removeTempDir e) w0) as Hd.
      destruct (Mermaid.cleanup (removeTempDir e) w0) as [[[]|msg] w1];
        [|discriminate].
      intros [= <- <-] Hs. simpl in Hd. rewrite Hd. clear Hd Hs.
      revert Hbody.
      cbv beta iota zeta delta [Converter.convertBody mbind M_bind bind call
        throw ret addDir removeDir logPdfDest getWorld setDirs].
      destruct (inputExists e); cbn [negb]; [|discriminate].
      destruct (readFile e) as [content|]; [|discriminate].
      destruct (tmpDirCall e) as [wd|]; [|discriminate].
      match goal with |- context [Mermaid.processMarkdown ?a ?b ?c ?d ?x ?y ?z] =>
        destruct (MermaidClaims.processMarkdown_run a b c x y d z) as (wp & ->)
      end.
      destruct (writeProcessed e) as [[]|]; [|discriminate].
      destruct (copyLocalAssets e) as [[]|]; [|discriminate].
      cbn [pdfDests dirs tempDir].
      destruct (genSuccess (generate e)); cbn [negb]; [|discriminate].
      destruct (negb (default false (Config.keepIntermediate options))).
      + destruct (tmpCleanup e) as [[]|]; [|discriminate].
        cbv beta iota zeta. intros [= <- <-].
        cbn [inputFile outputFile pdfDests]. repeat split.
        apply in_or_app. right. left. reflexivity.
      + cbv beta iota zeta. intros [= <- <-].
        cbn [inputFile outputFile pdfDests]. repeat split.
        apply in_or_app. right. left. reflexivity.
    - cbv beta iota zeta delta [ret].
      destruct (Mermaid.cleanup (removeTempDir e) w0) as [[[]|msg'] w1];
        [|discriminate].
      intros [= <- <-]. discriminate.
  Qed.

End Convert.

(** ** The working directory *)

(** C2 fails when the PDF generation fails: [convert] returns
    [success = false] and the working directory it created is still
    there, although the caller did not ask to keep it.  Only the success
    path calls [tmpDir.cleanup()]; the [finally] block removes the
    temporary directory of the diagram renderer, not the working
    directory. *)
Lemma convert_leaks_workDir_on_pdf_failure :
  exists r w',
    sampleConvert (envWith generateFails) (lit "/docs/a.md") None emptyWorld
      = (Ok r, w') /\
    success r = false /\
    error r = Some (lit "PDF generation returned no content") /\
    Config.keepIntermediate noOptions = None /\
    workDir ∈ dirs w'.
Proof.
  eexists _, _. split; [vm_compute; reflexivity|].
  split; [reflexivity|]. split; [reflexivity|]. split; [reflexivity|].
  apply (bool_decide_unpack _). vm_compute. exact I.
Qed.

(** On the success path the working directory is removed. *)
Lemma convert_removes_workDir_on_success :
  exists r w',
    sampleConvert (envWith generateWorks) (lit "/docs/a.md") None emptyWorld
      = (Ok r, w') /\
    success r = true /\ workDir ∉ dirs w'.
Proof.
  eexists _, _. split; [vm_compute; reflexivity|].
  split; [reflexivity|]. apply (bool_decide_unpack _). vm_compute. exact I.
Qed.

End ConvertClaims.

(* ===================================================================== *)
(** * converter.ts: batches                                               *)
(* ===================================================================== *)
Module BatchClaims.
Import JS Eff Converter ConverterSpec Samples.

(** The group cut at the index [i] by an integer size. *)
Lemma arraySlice_int {T} (array : list T) (i : nat) (z : Z) :
  0 < z -> (i <= length array)%nat ->
  arraySlice array (Int (Z.of_nat i)) (numAdd (Int (Z.of_nat i)) (Int z))
  = take (Z.to_nat z) (drop i array).
Proof.
  intros Hz Hi. unfold arraySlice, relativeIndex, numAdd.
  destruct (Z.of_nat i <? 0) eqn:H1; [apply Z.ltb_lt in H1; lia|].
  destruct (Z.of_nat i + z <? 0) eqn:H2; [apply Z.ltb_lt in H2; lia|].
  replace (Z.to_nat (Z.min (Z.of_nat i) (Z.of_nat (length array)))) with i by lia.
  destruct (decide (Z.of_nat i + z <= Z.of_nat (length array))) as [Hle|Hgt].
  - f_equal. lia.
  - replace (Z.to_nat (Z.min (Z.of_nat i + z) (Z.of_nat (length array))) - i)%nat
      with (length (drop i array)) by (rewrite length_drop; lia).
    rewrite firstn_all. symmetry. apply take_ge. rewrite length_drop. lia.
Qed.

(** With a positive integer size the loop ends, and its groups are the
    rest of the array cut into consecutive pieces of [size] elements,
    the last one possibly shorter. *)
Lemma chunkLoop_concat {T} (array : list T) (size : Z) :
  0 < size ->
  forall fuel i, (length array - i < fuel)%nat ->
    exists chunks,
      chunkLoop fuel array (Int size) (Int (Z.of_nat i)) = Some chunks /\
      concat chunks = drop i array /\
      Forall (fun c => 0 < Z.of_nat (length c) <= size) chunks /\
      (forall k c, chunks !! k = Some c -> (S k < length chunks)%nat ->
                   Z.of_nat (length c) = size).
Proof.
  intros Hs. induction fuel as [|fuel IH]; intros i Hi; [lia|].
  cbn [chunkLoop numLt].
  destruct (Z.of_nat i <? Z.of_nat (length array)) eqn:Hlt.
  - apply Z.ltb_lt in Hlt.
    destruct (IH (i + Z.to_nat size)%nat ltac:(lia)) as (chunks & Hrun & Hc & Hf & Hfull).
    replace (numAdd (Int (Z.of_nat i)) (Int size))
      with (Int (Z.of_nat (i + Z.to_nat size))) by (cbn [numAdd]; f_equal; lia).
    rewrite Hrun. eexists. split; [reflexivity|].
    replace (Int (Z.of_nat (i + Z.to_nat size)))
      with (numAdd (Int (Z.of_nat i)) (Int size)) by (cbn [numAdd]; f_equal; lia).
    rewrite arraySlice_int by lia. split; [|split].
    + simpl. rewrite Hc, <- drop_drop. apply take_drop.
    + constructor; [|exact Hf]. rewrite length_take, length_drop. lia.
    + intros [|k] c Hk Hlen; simpl in Hk, Hlen.
      * injection Hk as <-. rewrite length_take, length_drop.
        destruct chunks as [|c' chunks']; [simpl in Hlen; lia|].
        assert (Hne : drop (i + Z.to_nat size) array <> []).
        { rewrite <- Hc. apply Forall_cons in Hf. destruct Hf as [Hc' _].
          destruct c'; [simpl in Hc'; lia|discriminate]. }
        assert (i + Z.to_nat size < length array)%nat.
        { destruct (decide (i + Z.to_nat size < length array)%nat); [assumption|].
          exfalso. apply Hne. apply drop_ge. lia. }
        lia.
      * apply (Hfull k c Hk). lia.
  - apply Z.ltb_ge in Hlt. exists []. split; [reflexivity|].
    split; [symmetry; apply drop_ge; lia|]. split; [constructor|].
    intros k c Hk. discriminate.
Qed.

(** With a size that is zero or negative the loop variable never passes
    the length of an array that is not empty: no number of rounds ends
    the loop. *)
Lemma chunkLoop_diverges {T} (array : list T) (size : Z) :
  size <= 0 -> array <> [] ->
  forall fuel i, i <= 0 -> chunkLoop fuel array (Int size) (Int i) = None.
Proof.
  intros Hs Ha. induction fuel as [|fuel IH]; intros i Hi; [reflexivity|].
  cbn [chunkLoop numLt numAdd].
  destruct (i <? Z.of_nat (length array)) eqn:Hlt.
  - rewrite IH by lia. reflexivity.
  - apply Z.ltb_ge in Hlt. destruct array; [congruence|simpl in Hlt; lia].
Qed.

Lemma chunkLoop_diverges_infinity {T} (array : list T) :
  forall fuel, chunkLoop fuel array (Infinity true) (Infinity true) = None.
Proof.
  induction fuel as [|fuel IH]; [reflexivity|].
  cbn [chunkLoop numLt numAdd Bool.eqb]. rewrite IH. reflexivity.
Qed.

(** The groups of [chunkArray] for an integer size are the array cut
    into consecutive pieces of at most [size] elements. *)
Lemma chunkArray_concat {T} (array : list T) (size : Z) chunks :
  chunkArray array (Int size) = Some chunks ->
  concat chunks = array /\
  Forall (fun c => 0 < Z.of_nat (length c) <= size) chunks.
Proof.
  unfold chunkArray. intros Hrun.
  destruct (decide (0 < size)) as [Hs|Hs].
  - destruct (chunkLoop_concat array size Hs (S (length array)) 0%nat ltac:(lia))
      as (chunks' & Hrun' & Hc & Hf & _).
    change (Int (Z.of_nat 0)) with (Int 0) in Hrun'.
    rewrite Hrun' in Hrun. injection Hrun as <-. split; assumption.
  - destruct array as [|x array].
    + cbn in Hrun. injection Hrun as <-. split; constructor.
    + rewrite chunkLoop_diverges in Hrun by (try discriminate; lia).
      discriminate.
Qed.

(** Conversions that all return are all awaited with their values. *)
Lemma allResolved_returning {A B} (f : A -> B) (l : list A) :
  allResolved (map (fun x => Ok (f x)) l) = Some (map f l).
Proof.
  induction l as [|x l IH]; [reflexivity|]. cbn [map allResolved].
  rewrite IH. reflexivity.
Qed.

Section Batch.
Variable basename : jsstring -> jsstring.
Variable pathJoin : jsstring -> jsstring -> jsstring.
Variable glob : jsstring -> list jsstring.
Variable convertResult : jsstring -> option jsstring -> ConversionResult.

(** The batches of this section are those whose conversions all return
    a result, [convertResult]; a conversion that rejects is the matter
    of [BatchFacts]. *)
Local Abbreviation resultFor := (resultFor basename pathJoin convertResult).
Local Abbreviation succeeds := (succeeds basename pathJoin convertResult).
Local Abbreviation chunksLoop :=
    (chunksLoop basename pathJoin (returning convertResult)).
Local Abbreviation batchConvert :=
    (batchConvert basename pathJoin glob (returning convertResult)).

Lemma tallyLoop_all_ok (continue : bool) : forall rs st,
    Forall (fun r => success r = true) rs ->
    tallyLoop continue rs st =
      {| stResults := stResults st ++ rs;
         stSuccessful := stSuccessful st + length rs;
         stFailed := stFailed st; launched := launched st |}.
  Proof.
    induction rs as [|r rs IH]; intros st Hall; simpl.
    - rewrite app_nil_r, Nat.add_0_r. destruct st; reflexivity.
    - apply Forall_cons in Hall. destruct Hall as [Hr Hall]. rewrite Hr.
      rewrite IH by exact Hall. simpl. rewrite <- app_assoc. f_equal. lia.
  Qed.

(** Without [continueOnError] the tally stops at the first failed
    result of the group: it is pushed and counted, the results after
    it are not. *)
Lemma tallyLoop_first_failure : forall pre r post st,
    Forall (fun r => success r = true) pre -> success r = false ->
    tallyLoop false (pre ++ r :: post) st =
      {| stResults := stResults st ++ pre ++ [r];
         stSuccessful := stSuccessful st + length pre;
         stFailed := S (stFailed st); launched := launched st |}.
  Proof.
    induction pre as [|x pre IH]; intros r post st Hall Hr; simpl.
    - rewrite Hr. simpl. rewrite Nat.add_0_r. reflexivity.
    - apply Forall_cons in Hall. destruct Hall as [Hx Hall]. rewrite Hx.
      rewrite IH by assumption. simpl. rewrite <- app_assoc. f_equal. lia.
  Qed.

Lemma chunksLoop_step (o : BatchConversionOptions) chunk rest st :
    chunksLoop o (chunk :: rest) st =
      let st1 := tallyLoop (default false (continueOnError o))
                   (map (resultFor o) chunk)
                   {| stResults := stResults st;
                      stSuccessful := stSuccessful st;
                      stFailed := stFailed st;
                      launched := launched st ++ chunk |} in
      if negb (default false (continueOnError o)) && (0 <? stFailed st1)%nat
      then (st1, None)
      else chunksLoop o rest st1.
  Proof.
    cbn [Converter.chunksLoop]. unfold returning at 1.
    rewrite (allResolved_returning
               (fun file => convertResult file (batchOutputPath basename pathJoin o file))).
    reflexivity.
  Qed.

Lemma chunksLoop_all_ok (o : BatchConversionOptions) : forall chunks st,
    stFailed st = 0%nat ->
    Forall (fun f => succeeds o f = true) (concat chunks) ->
    chunksLoop o chunks st =
      ({| stResults := stResults st ++ map (resultFor o) (concat chunks);
          stSuccessful := stSuccessful st + length (concat chunks);
          stFailed := 0; launched := launched st ++ concat chunks |}, None).
  Proof.
    induction chunks as [|c chunks IH]; intros st H0 Hall.
    - simpl. rewrite !app_nil_r, Nat.add_0_r. destruct st; simpl in *. congruence.
    - simpl concat in Hall. apply Forall_app in Hall. destruct Hall as [Hc Hall].
      rewrite chunksLoop_step. cbv zeta.
      rewrite tallyLoop_all_ok by (apply Forall_map; exact Hc).
      cbn [stFailed]. rewrite H0. simpl (0 <? 0)%nat. rewrite andb_false_r.
      rewrite IH by (try reflexivity; exact Hall).
      cbn [stResults stSuccessful launched]. simpl concat.
      rewrite map_app, length_app, length_map, <- !app_assoc. do 2 f_equal. lia.
  Qed.

Lemma chunksLoop_first_failure (o : BatchConversionOptions) :
    default false (continueOnError o) = false ->
    forall cs1 pre f post cs2 st,
      stFailed st = 0%nat ->
      Forall (fun x => succeeds o x = true) (concat cs1 ++ pre) ->
      succeeds o f = false ->
      chunksLoop o (cs1 ++ (pre ++ f :: post) :: cs2) st =
        ({| stResults := stResults st ++ map (resultFor o) (concat cs1 ++ pre ++ [f]);
            stSuccessful := stSuccessful st + length (concat cs1 ++ pre);
            stFailed := 1;
            launched := launched st ++ concat cs1 ++ pre ++ f :: post |}, None).
  Proof.
    intros Hc. induction cs1 as [|c cs1 IH]; intros pre f post cs2 st H0 Hall Hf.
    - simpl app. simpl concat in *. simpl app in *.
      rewrite chunksLoop_step. cbv zeta. rewrite Hc.
      rewrite map_app. simpl map.
      rewrite tallyLoop_first_failure;
        [|apply Forall_map; exact Hall|exact Hf].
      cbn [stFailed stResults stSuccessful launched]. rewrite H0. simpl.
      rewrite map_app, length_map. reflexivity.
    - simpl concat in *. rewrite <- app_assoc in Hall.
      apply Forall_app in Hall. destruct Hall as [Hcs Hall].
      simpl app. rewrite chunksLoop_step. cbv zeta. rewrite Hc.
      rewrite tallyLoop_all_ok by (apply Forall_map; exact Hcs).
      cbn [stFailed]. rewrite H0. simpl (0 <? 0)%nat. rewrite andb_false_r.
      rewrite IH by (try reflexivity; assumption).
      cbn [stResults stSuccessful launched].
      rewrite !map_app, !length_app, length_map, <- !app_assoc. do 2 f_equal. lia.
  Qed.

(** C3, amended.  Without [continueOnError], let the groups be
    [cs1 ++ (pre ++ f :: post) :: cs2] where every file of [cs1] and
    [pre] converts and [f] fails.  Then [batchConvert] launches the
    groups of [cs1] and the whole failing group and no group of [cs2];
    it returns the results of the files of [cs1] and [pre] and the
    result of [f], and tallies these: the files of [cs1] and [pre] as
    successful and one failure.  The results of [post], the members of
    the failing group after [f], are neither returned nor tallied,
    although their conversions were launched and awaited. *)
Theorem batchConvert_stops_at_first_failure (o : BatchConversionOptions)
      cs1 pre f post cs2 :
    default false (continueOnError o) = false ->
    chunkArray (uniqueFiles glob o) (default (Int 3) (concurrency o))
      = Some (cs1 ++ (pre ++ f :: post) :: cs2) ->
    Forall (fun x => succeeds o x = true) (concat cs1 ++ pre) ->
    succeeds o f = false ->
    batchConvert o =
      Some (Resolved {| total := length (uniqueFiles glob o);
                        successful := length (concat cs1 ++ pre);
                        failed := 1;
                        results := map (resultFor o) (concat cs1 ++ pre ++ [f]) |},
            concat cs1 ++ pre ++ f :: post).
  Proof.
    intros Hc Hchunks Hall Hf. unfold Converter.batchConvert.
    rewrite Hchunks. cbn [mbind option_bind].
    rewrite chunksLoop_first_failure by (try reflexivity; assumption).
    reflexivity.
  Qed.

(** When every file converts, every result is returned and tallied. *)
Lemma batchConvert_all_ok (o : BatchConversionOptions) (size : Z) chunks :
    default (Int 3) (concurrency o) = Int size ->
    chunkArray (uniqueFiles glob o) (Int size) = Some chunks ->
    Forall (fun x => succeeds o x = true) (uniqueFiles glob o) ->
    batchConvert o =
      Some (Resolved {| total := length (uniqueFiles glob o);
                        successful := length (uniqueFiles glob o);
                        failed := 0;
                        results := map (resultFor o) (uniqueFiles glob o) |},
            uniqueFiles glob o).
  Proof.
    intros Hsize Hchunks Hall. unfold Converter.batchConvert.
    rewrite Hsize, Hchunks. cbn [mbind option_bind].
    destruct (chunkArray_concat _ _ _ Hchunks) as (Hcat & _).
    rewrite chunksLoop_all_ok by (try reflexivity; rewrite Hcat; exact Hall).
    rewrite Hcat. reflexivity.
  Qed.
End Batch.

(** C3, as stated, fails: three files form one group, the first fails
    and the other two convert.  All three conversions are launched, but
    only the result of the first is returned and tallied. *)
Lemma batchConvert_drops_results_counterexample :
  batchConvert (fun p => p) joinWithSlash sampleGlob
    (returning sampleConvertResult) sampleBatch
    = Some (Resolved {| total := 3; successful := 0; failed := 1;
                        results := [sampleConvertResult fileA None] |},
            [fileA; fileB; fileC]) /\
  ~ reportsEveryLaunched (fun p => p) joinWithSlash sampleGlob
      sampleConvertResult sampleBatch.
Proof.
  assert (Hrun : batchConvert (fun p => p) joinWithSlash sampleGlob
                   (returning sampleConvertResult) sampleBatch
                 = Some (Resolved {| total := 3; successful := 0; failed := 1;
                                     results := [sampleConvertResult fileA None] |},
                         [fileA; fileB; fileC]))
    by (vm_compute; reflexivity).
  split; [exact Hrun|]. intros H.
  destruct (H eq_refl _ _ Hrun) as (_ & Hcount). simpl in Hcount. lia.
Qed.

Lemma batchConvert_stops_at_first_failure_witness :
  batchConvert (fun p => p) joinWithSlash sampleGlob
    (returning sampleConvertResult) sampleBatch
    = Some (Resolved {| total := 3; successful := 0; failed := 1;
                        results := [sampleConvertResult fileA None] |},
            [fileA; fileB; fileC]).
Proof.
  apply (batchConvert_stops_at_first_failure (fun p => p) joinWithSlash
           sampleGlob sampleConvertResult sampleBatch [] [] fileA
           [fileB; fileC] []).
  - reflexivity.
  - vm_compute. reflexivity.
  - constructor.
  - vm_compute. reflexivity.
Defined.

End BatchClaims.

(* ===================================================================== *)
(** * converter.ts: the watcher                                           *)
(* ===================================================================== *)
Module WatchClaims.
Import JS Eff Converter ConverterSpec Samples.

Lemma clearAll_lookup (l : list nat) (m : gmap nat jsstring) (t : nat) :
  foldr clearTimeout m l !! t = if decide (t ∈ l) then None else m !! t.
Proof.
  induction l as [|x l IH]; simpl.
  - destruct (decide (t ∈ [])) as [H|H]; [inversion H|reflexivity].
  - unfold clearTimeout at 1. destruct (decide (x = t)) as [->|Hne].
    + rewrite lookup_delete_eq. rewrite decide_True by constructor. reflexivity.
    + rewrite lookup_delete_ne by exact Hne. rewrite IH.
      destruct (decide (t ∈ l)) as [Hin|Hin].
      * rewrite decide_True by (constructor; exact Hin). reflexivity.
      * rewrite decide_False; [reflexivity|].
        intros Hc. apply elem_of_cons in Hc. destruct Hc; congruence.
Qed.

Lemma watchInv_init : watchInv watchInit.
Proof.
  unfold watchInv, watchInit; simpl. repeat split; intros; try discriminate;
    rewrite lookup_empty in *; discriminate.
Qed.

Lemma step_inv (s s' : WatchState) (ev : Event) :
  watchInv s -> step s ev = Some s' -> watchInv s'.
Proof.
  intros (H1 & H2 & H3) Hstep. destruct ev as [f|t| |]; simpl in Hstep.
  - destruct (subscribed s) eqn:Hsub; [|discriminate].
    injection Hstep as <-.
    assert (Hcl : closed s = false).
    { destruct (closed s); [|reflexivity]. destruct (H3 eq_refl). congruence. }
    unfold watchInv, handleChange; cbn [timers pending nextTimer closed subscribed].
    assert (Hp1 : forall t f',
      match timers s !! f with
      | Some existing => clearTimeout existing (pending s)
      | None => pending s
      end !! t = Some f' -> pending s !! t = Some f' /\ f' <> f).
    { intros t f' Hl. destruct (timers s !! f) as [existing|] eqn:He.
      - unfold clearTimeout in Hl. destruct (decide (existing = t)) as [->|Hne].
        + rewrite lookup_delete_eq in Hl. discriminate.
        + rewrite lookup_delete_ne in Hl by exact Hne. split; [exact Hl|].
          intros ->. apply H1 in Hl. congruence.
      - split; [exact Hl|]. intros ->. apply H1 in Hl. congruence. }
    repeat split.
    + intros t f' Hl. destruct (decide (nextTimer s = t)) as [<-|Hne].
      * rewrite lookup_insert_eq in Hl. injection Hl as <-.
        apply lookup_insert_eq.
      * rewrite lookup_insert_ne in Hl by exact Hne.
        apply Hp1 in Hl. destruct Hl as [Hl Hf].
        rewrite lookup_insert_ne by congruence. apply H1, Hl.
    + intros t f' Hl. destruct (decide (nextTimer s = t)) as [<-|Hne]; [lia|].
      rewrite lookup_insert_ne in Hl by exact Hne.
      apply Hp1 in Hl. destruct Hl as [Hl _]. apply H2 in Hl. lia.
    + congruence.
    + congruence.
  - destruct (pending s !! t) as [f|] eqn:Hp; [|discriminate].
    injection Hstep as <-.
    assert (Hcl : closed s = false).
    { destruct (closed s); [|reflexivity]. destruct (H3 eq_refl) as [_ He].
      rewrite He, lookup_empty in Hp. discriminate. }
    unfold watchInv, timerCallback; cbn [timers pending nextTimer closed subscribed].
    repeat split; try congruence.
    + intros t' f' Hl. destruct (decide (t = t')) as [->|Hne].
      * rewrite lookup_delete_eq in Hl. discriminate.
      * rewrite lookup_delete_ne in Hl by exact Hne.
        assert (f' <> f).
        { intros ->. apply H1 in Hl. apply H1 in Hp. congruence. }
        rewrite lookup_delete_ne by congruence. apply H1, Hl.
    + intros t' f' Hl. destruct (decide (t = t')) as [->|Hne].
      * rewrite lookup_delete_eq in Hl. discriminate.
      * rewrite lookup_delete_ne in Hl by exact Hne. eapply H2, Hl.
  - injection Hstep as <-. unfold watchInv; cbn. auto.
  - destruct (0 <? closing s)%nat; [|discriminate]. injection Hstep as <-.
    assert (He : foldr clearTimeout (pending s) (map snd (map_to_list (timers s))) = ∅).
    { apply map_eq. intros t. rewrite clearAll_lookup, lookup_empty.
      destruct (decide (t ∈ map snd (map_to_list (timers s)))) as [Hin|Hin];
        [reflexivity|].
      destruct (pending s !! t) as [f|] eqn:Hp; [|reflexivity].
      exfalso. apply Hin. apply H1 in Hp.
      apply list_elem_of_fmap. exists (f, t). split; [reflexivity|].
      apply elem_of_map_to_list. exact Hp. }
    unfold watchInv, closeRest; cbn [timers pending nextTimer closed subscribed].
    rewrite He. repeat split; intros; rewrite ?lookup_empty in *; discriminate.
Qed.

Lemma runEvents_inv : forall evs s s',
  watchInv s -> runEvents s evs = Some s' -> watchInv s'.
Proof.
  induction evs as [|ev evs IH]; intros s s' Hinv Hrun; simpl in Hrun.
  - injection Hrun as <-. exact Hinv.
  - destruct (step s ev) as [s1|] eqn:Hs; [|discriminate].
    eapply IH; [eapply step_inv; eassumption|exact Hrun].
Qed.

(** After a [close()] has returned the only steps left are further
    calls of [close()]; none of them starts a conversion. *)
Lemma step_after_close (s s' : WatchState) (ev : Event) :
  watchInv s -> closed s = true -> step s ev = Some s' ->
  isFire ev = false /\ isChange ev = false /\
  closed s' = true /\ conversions s' = conversions s.
Proof.
  intros (_ & _ & H3) Hcl Hstep. destruct (H3 Hcl) as [Hsub Hp].
  destruct ev as [f|t| |]; simpl in Hstep.
  - rewrite Hsub in Hstep. discriminate.
  - rewrite Hp, lookup_empty in Hstep. discriminate.
  - injection Hstep as <-. auto.
  - destruct (0 <? closing s)%nat; [|discriminate]. injection Hstep as <-. auto.
Qed.

(** While [close()] waits for [watcher.close()], a pending timer can
    still fire and start a conversion: the timers are cleared only
    after the wait. *)
Lemma timer_fires_while_closing :
  exists s,
    runEvents watchInit [Change fileA; CloseCall; Fire 0%nat; CloseReturn] = Some s /\
    closed s = true /\ conversions s = [fileA].
Proof. eexists. split; [vm_compute; reflexivity|]. split; reflexivity. Qed.

(** C7.  In every run of the watcher, once a [close()] call has
    returned, no timeout is pending and the subscription is released;
    whatever happens afterwards, no timer fires, no change is handled
    and no conversion starts.  This holds whatever changes arrived
    before [close()] was called and however many of their timers were
    still pending at that moment. *)
Theorem close_stops_conversions (before : list Event) (s : WatchState) :
  runEvents watchInit before = Some s ->
  closed s = true ->
  pending s = ∅ /\ subscribed s = false /\
  forall after s',
    runEvents s after = Some s' ->
    conversions s' = conversions s /\
    forallb (fun ev => negb (isFire ev) && negb (isChange ev)) after = true.
Proof.
  intros Hrun Hcl.
  pose proof (runEvents_inv before watchInit s watchInv_init Hrun) as Hinv.
  destruct Hinv as (H1 & H2 & H3). destruct (H3 Hcl) as [Hsub Hp].
  split; [exact Hp|]. split; [exact Hsub|].
  assert (Hinv : watchInv s) by (repeat split; assumption).
  clear Hrun H1 H2 H3 Hsub Hp. revert s Hcl Hinv.
  intros s Hcl Hinv after. revert s Hcl Hinv.
  induction after as [|ev after IH]; intros s Hcl Hinv s' Hrun; simpl in Hrun.
  - injection Hrun as <-. auto.
  - destruct (step s ev) as [s1|] eqn:Hs; [|discriminate].
    destruct (step_after_close s s1 ev Hinv Hcl Hs) as (Hf & Hc & Hcl1 & Hconv).
    destruct (IH s1 Hcl1 (step_inv s s1 ev Hinv Hs) s' Hrun) as (Hconv' & Hall).
    split; [congruence|]. simpl. rewrite Hf, Hc, Hall. reflexivity.
Qed.

(** Two files change, [close()] is called while both timers are
    pending and returns: nothing is pending and nothing was converted;
    a later step cannot convert either. *)
Lemma close_stops_conversions_witness :
  exists s,
    runEvents watchInit [Change fileA; Change fileB; CloseCall; CloseReturn] = Some s /\
    closed s = true /\ pending s = ∅ /\ conversions s = [] /\
    forall s', runEvents s [CloseCall] = Some s' -> conversions s' = [].
Proof.
  destruct (runEvents watchInit [Change fileA; Change fileB; CloseCall; CloseReturn])
    as [s|] eqn:Hrun; [|vm_compute in Hrun; discriminate].
  assert (Hcl : closed s = true)
    by (vm_compute in Hrun; injection Hrun as <-; reflexivity).
  assert (Hconv : conversions s = [])
    by (vm_compute in Hrun; injection Hrun as <-; reflexivity).
  destruct (close_stops_conversions _ s Hrun Hcl) as (Hp & _ & Hafter).
  exists s. split; [reflexivity|]. split; [exact Hcl|]. split; [exact Hp|].
  split; [exact Hconv|].
  intros s' Hs'. destruct (Hafter _ s' Hs') as [-> _]. exact Hconv.
Defined.

End WatchClaims.

(* ===================================================================== *)
(** * The repository's unit tests, replayed on the model                  *)
(* ===================================================================== *)
Module Tests.
Import JS Eff Mermaid Samples.

(** mermaid-processor.test.ts, [extractDiagrams] *)
Example extracts_code_fence :
  length (extractDiagrams testCodeFence) = 1%nat /\
  (code <$> extractDiagrams testCodeFence !! 0%nat)
    = Some (lit "flowchart TD
    A --> B").
Proof. split; vm_compute; reflexivity. Qed.

Example extracts_triple_colon :
  length (extractDiagrams testTripleColon) = 1%nat /\
  (includes (lit "sequenceDiagram") <$> (code <$> extractDiagrams testTripleColon !! 0%nat))
    = Some true.
Proof. split; vm_compute; reflexivity. Qed.

Example extracts_multiple : length (extractDiagrams testBoth) = 2%nat.
Proof. vm_compute. reflexivity. Qed.

Example extracts_none : extractDiagrams testNone = [].
Proof. vm_compute. reflexivity. Qed.

(** mermaid-processor.test.ts, [processMarkdown], with a renderer that
    works. *)
Example replaces_diagram_with_image :
  match processMarkdown joinWithSlash (lit "png") (fun _ => renderOk)
          testCodeFence (lit "/w") (lit "test") emptyWorld with
  | (Ok out, _) =>
      diagramCount out = 1%nat /\
      includes (lit "![Diagram 1]") (resultContent out) = true /\
      includes (lit "```mermaid") (resultContent out) = false
  | (Throw _, _) => False
  end.
Proof. vm_compute. repeat split. Qed.

(** config.test.ts, [mergeConfig] *)
Example merges_file_config_with_cli_options :
  let merged := Config.mergeConfig (Some testFileConfig) testCliOptions in
  ConfigSpec.read (Config.pdf merged) "format" = Config.VStr (lit "A4") /\
  ConfigSpec.read (Config.pdf merged) "landscape" = Config.VBool true /\
  ConfigSpec.read (Config.mermaid merged) "theme" = Config.VStr (lit "default") /\
  Config.verbose merged = Some true.
Proof. vm_compute. repeat split. Qed.

Example handles_null_file_config :
  let merged :=
    Config.mergeConfig None
      {| Config.input := Some (lit "test.md"); Config.output := Some (lit "test.pdf");
         Config.pdf := None; Config.mermaid := None; Config.style := None;
         Config.keepIntermediate := None; Config.workingDir := None;
         Config.verbose := None |} in
  Config.input merged = Some (lit "test.md") /\
  Config.output merged = Some (lit "test.pdf").
Proof. vm_compute. repeat split. Qed.

(** The default output path. *)
Example default_output_paths :
  Converter.mdToPdf (lit "/docs/guide.md") = lit "/docs/guide.pdf" /\
  Converter.mdToPdf (lit "/docs/GUIDE.MD") = lit "/docs/GUIDE.pdf" /\
  Converter.mdToPdf (lit "/docs/notes.md.txt") = lit "/docs/notes.md.txt" /\
  Converter.mdToPdf (lit "/docs/README") = lit "/docs/README".
Proof. vm_compute. repeat split. Qed.

End Tests.

(* ===================================================================== *)
(** * mermaid-processor.ts: the shape and completeness of the matches     *)
(* ===================================================================== *)
Module BlockFacts.
Import JS Eff Mermaid MermaidSpec BlockSpec JSFacts ExtractFacts.

Lemma codeFence_fence : codeFence = fencePattern (lit "```mermaid") (lit "```").
Proof. reflexivity. Qed.

Lemma tripleColon_fence : tripleColon = fencePattern (lit ":::mermaid") (lit ":::").
Proof. reflexivity. Qed.

(** ** [trim] *)

Lemma trimStart_head (s : jsstring) :
  match trimStart s with c :: _ => isSpace c = false | [] => True end.
Proof.
  induction s as [|c s IH]; simpl; [exact I|].
  destruct (isSpace c) eqn:Hc; [exact IH|exact Hc].
Qed.

Lemma trimStart_split (s : jsstring) :
  exists pre, s = pre ++ trimStart s.
Proof.
  induction s as [|c s [pre IH]]; simpl.
  - exists []. reflexivity.
  - destruct (isSpace c).
    + exists (c :: pre). simpl. f_equal. exact IH.
    + exists []. reflexivity.
Qed.

Lemma trim_trimmed (s : jsstring) : trimmed (trim s).
Proof.
  unfold trimmed, trim. rewrite rev_involutive.
  split; [|apply trimStart_head].
  destruct (trimStart_split (rev (trimStart s))) as [pre Hpre].
  pose proof (trimStart_head s) as Hhead.
  set (u := trimStart (rev (trimStart s))) in *.
  assert (Ht : trimStart s = rev u ++ rev pre).
  { rewrite <- rev_app_distr, <- Hpre, rev_involutive. reflexivity. }
  destruct (rev u) as [|c ru]; [exact I|].
  rewrite Ht in Hhead. exact Hhead.
Qed.

(** ** The matcher on the pieces of a delimiter pattern *)

Lemma run_units (l : jsstring) (p : pattern) : forall s pos g cap r,
  run (map (fun c => AChar (CUnit c)) l ++ p) s pos g cap = Some r ->
  exists s', s = l ++ s' /\ run p s' (pos + length l) g cap = Some r.
Proof.
  induction l as [|c l IH]; intros s pos g cap r H.
  - exists s. rewrite Nat.add_0_r. auto.
  - simpl in H. destruct s as [|x s]; [discriminate|].
    destruct (x =? c)%N eqn:Hx; [|discriminate].
    apply N.eqb_eq in Hx. subst x.
    apply IH in H. destruct H as (s' & -> & H).
    exists s'. split; [reflexivity|].
    simpl length. rewrite <- H. f_equal. lia.
Qed.

Lemma run_units_only (l : jsstring) : forall s pos g cap,
  run (map (fun c => AChar (CUnit c)) l) s pos g cap =
    if startsWith l s then Some ((pos + length l)%nat, cap) else None.
Proof.
  induction l as [|c l IH]; intros s pos g cap; simpl.
  - rewrite Nat.add_0_r. destruct s; reflexivity.
  - destruct s as [|x s]; [reflexivity|].
    rewrite (N.eqb_sym c x). destruct (x =? c)%N; [|reflexivity].
    rewrite IH. simpl. destruct (startsWith l s); [|reflexivity].
    do 2 f_equal. lia.
Qed.

Lemma run_star_greedy (k : cclass) (q : pattern) : forall s pos g cap r,
  run (AStar true k :: q) s pos g cap = Some r ->
  exists ws s', s = ws ++ s' /\ Forall (fun c => inClass k c = true) ws /\
                run q s' (pos + length ws) g cap = Some r.
Proof.
  intros s. induction s as [|c s IH]; intros pos g cap r H; simpl in H.
  - exists [], []. rewrite Nat.add_0_r. auto.
  - destruct (inClass k c) eqn:Hc.
    + match type of H with
      | match ?star with _ => _ end = _ => destruct star as [r'|] eqn:Hs
      end.
      * injection H as <-. apply IH in Hs.
        destruct Hs as (ws & s' & -> & Hws & Hr).
        exists (c :: ws), s'. split; [reflexivity|]. split; [constructor; assumption|].
        simpl length. rewrite <- Hr. f_equal. lia.
      * exists [], (c :: s). rewrite Nat.add_0_r. auto.
    + exists [], (c :: s). rewrite Nat.add_0_r. auto.
Qed.

Lemma run_star_lazy (k : cclass) (q : pattern) : forall s pos g cap r,
  run (AStar false k :: q) s pos g cap = Some r ->
  exists ws s', s = ws ++ s' /\ Forall (fun c => inClass k c = true) ws /\
                run q s' (pos + length ws) g cap = Some r /\
                forall j, (j < length ws)%nat ->
                  run q (drop j s) (pos + j) g cap = None.
Proof.
  intros s. induction s as [|c s IH]; intros pos g cap r H; simpl in H.
  - destruct (run q [] pos g cap) as [r'|] eqn:Hq; [|discriminate].
    injection H as <-. exists [], []. rewrite Nat.add_0_r.
    repeat split; auto. intros j Hj. simpl in Hj. lia.
  - destruct (run q (c :: s) pos g cap) as [r'|] eqn:Hq.
    + injection H as <-. exists [], (c :: s). rewrite Nat.add_0_r.
      repeat split; auto. intros j Hj. simpl in Hj. lia.
    + destruct (inClass k c) eqn:Hc; [|discriminate].
      apply IH in H. destruct H as (ws & s' & -> & Hws & Hr & Hmin).
      exists (c :: ws), s'. split; [reflexivity|]. split; [constructor; assumption|].
      split.
      * simpl length. rewrite <- Hr. f_equal. lia.
      * intros [|j] Hj.
        -- rewrite drop_0, Nat.add_0_r. exact Hq.
        -- simpl in Hj. simpl drop.
           replace (pos + S j)%nat with (S pos + j)%nat by lia.
           apply Hmin. lia.
Qed.

Lemma startsWith_app (needle a t : jsstring) :
  startsWith needle a = true -> startsWith needle (a ++ t) = true.
Proof.
  revert a. induction needle as [|x needle IH]; intros a H.
  - destruct a; reflexivity.
  - destruct a as [|y a]; [discriminate|]. simpl in *.
    apply andb_true_iff in H. destruct H as [-> H]. apply IH, H.
Qed.

Lemma startsWith_split (needle s : jsstring) :
  startsWith needle s = true -> exists s', s = needle ++ s'.
Proof.
  revert s. induction needle as [|a needle IH]; intros s H.
  - exists s. reflexivity.
  - destruct s as [|b s]; [discriminate|]. simpl in H.
    apply andb_true_iff in H. destruct H as [Hab H].
    apply N.eqb_eq in Hab. subst b. destruct (IH _ H) as [s' ->].
    exists s'. reflexivity.
Qed.

(** A match of a delimiter pattern, piece by piece. *)
Lemma run_fence (opening closing : jsstring) (s : jsstring) (pos g : nat) cap e c :
  run (fencePattern opening closing) s pos g cap = Some (e, c) ->
  exists ws body s',
    s = opening ++ ws ++ [10%N] ++ body ++ closing ++ s' /\
    Forall (fun x => isSpace x = true) ws /\
    (forall j, (j < length body)%nat ->
       startsWith closing (drop j (body ++ closing ++ s')) = false) /\
    e = (pos + length (opening ++ ws ++ [10%N] ++ body ++ closing))%nat /\
    c = Some ((pos + length (opening ++ ws ++ [10%N]))%nat,
              (pos + length (opening ++ ws ++ [10%N]) + length body)%nat).
Proof.
  unfold fencePattern. intros H.
  apply run_units in H. destruct H as (s1 & -> & H).
  change ([AStar true CSpace; AChar (CUnit 10); AOpen; AStar false CAny; AClose]
            ++ map (fun c => AChar (CUnit c)) closing)
    with (AStar true CSpace
            :: (AChar (CUnit 10) :: AOpen :: AStar false CAny :: AClose
                  :: map (fun c => AChar (CUnit c)) closing)) in H.
  apply run_star_greedy in H. destruct H as (ws & s2 & -> & Hws & H).
  cbn [run] in H. destruct s2 as [|x s2]; [discriminate|].
  cbn [inClass] in H. destruct (x =? 10)%N eqn:Hx; [|discriminate].
  apply N.eqb_eq in Hx. subst x.
  change (run (AStar false CAny :: AClose :: map (fun c => AChar (CUnit c)) closing)
            s2 (S (pos + length opening + length ws))
            (S (pos + length opening + length ws)) cap = Some (e, c)) in H.
  apply run_star_lazy in H. destruct H as (body & s3 & -> & _ & H & Hmin).
  cbn [run] in H. rewrite run_units_only in H.
  destruct (startsWith closing s3) eqn:Hcl; [|discriminate].
  injection H as <- <-.
  assert (Hs3 : exists s', s3 = closing ++ s') by (apply startsWith_split; exact Hcl).
  destruct Hs3 as [s' ->].
  exists ws, body, s'. split; [reflexivity|]. split; [exact Hws|]. split.
  - intros j Hj. specialize (Hmin j Hj). cbn [run] in Hmin.
    rewrite run_units_only in Hmin.
    destruct (startsWith closing (drop j (body ++ closing ++ s'))); [discriminate|].
    reflexivity.
  - rewrite !length_app. simpl length. split; [lia|]. f_equal. f_equal; lia.
Qed.

(** ** Where [search] and [exec] find their match *)

Lemma search_run (p : pattern) (content : jsstring) : forall s pos m,
  search p content s pos = Some m ->
  exists n cap,
    (n <= length s)%nat /\ index m = (pos + n)%nat /\
    run p (drop n s) (pos + n) (pos + n) None = Some (lastIndexAfter m, cap) /\
    whole m = slice content (index m) (lastIndexAfter m) /\
    group1 m = (fun '(a, b) => slice content a b) <$> cap /\
    forall j, (j < n)%nat -> run p (drop j s) (pos + j) (pos + j) None = None.
Proof.
  induction s as [|c s IH]; intros pos m H; cbn [search] in H.
  - destruct (run p [] pos pos None) as [[e cap]|] eqn:Hr; [|discriminate].
    injection H as <-. exists 0%nat, cap. cbn [index lastIndexAfter whole group1].
    rewrite Nat.add_0_r, drop_0. repeat split; auto; lia.
  - destruct (run p (c :: s) pos pos None) as [[e cap]|] eqn:Hr.
    + injection H as <-. exists 0%nat, cap. cbn [index lastIndexAfter whole group1].
      rewrite Nat.add_0_r, drop_0. repeat split; auto; lia.
    + apply IH in H. destruct H as (n & cap & Hn & Hi & Hrun & Hw & Hg & Hmin).
      exists (S n), cap. simpl length. simpl drop.
      replace (pos + S n)%nat with (S pos + n)%nat by lia.
      repeat split; auto; try lia.
      intros [|j] Hj.
      * rewrite drop_0, Nat.add_0_r. exact Hr.
      * simpl drop. replace (pos + S j)%nat with (S pos + j)%nat by lia.
        apply Hmin. lia.
Qed.

Lemma search_none (p : pattern) (content : jsstring) : forall s pos,
  search p content s pos = None ->
  forall j, (j <= length s)%nat -> run p (drop j s) (pos + j) (pos + j) None = None.
Proof.
  induction s as [|c s IH]; intros pos H j Hj; cbn [search] in H.
  - destruct (run p [] pos pos None) as [[e cap]|] eqn:Hr; [discriminate|].
    simpl in Hj. replace j with 0%nat by lia. rewrite Nat.add_0_r. exact Hr.
  - destruct (run p (c :: s) pos pos None) as [[e cap]|] eqn:Hr; [discriminate|].
    destruct j as [|j].
    + rewrite drop_0, Nat.add_0_r. exact Hr.
    + simpl drop. replace (pos + S j)%nat with (S pos + j)%nat by lia.
      apply IH; [exact H|simpl in Hj; lia].
Qed.

Lemma exec_run (p : pattern) (content : jsstring) (lastIndex : nat) m :
  exec p content lastIndex = Some m ->
  exists cap,
    (lastIndex <= index m <= length content)%nat /\
    run p (drop (index m) content) (index m) (index m) None
      = Some (lastIndexAfter m, cap) /\
    whole m = slice content (index m) (lastIndexAfter m) /\
    group1 m = (fun '(a, b) => slice content a b) <$> cap /\
    forall i, (lastIndex <= i < index m)%nat -> ~ matchesAt p content i.
Proof.
  unfold exec. destruct (length content <? lastIndex)%nat eqn:Hlt; [discriminate|].
  apply Nat.ltb_ge in Hlt. intros H. apply search_run in H.
  destruct H as (n & cap & Hn & Hi & Hrun & Hw & Hg & Hmin).
  rewrite length_drop in Hn. rewrite drop_drop, <- Hi in Hrun.
  exists cap. repeat split; auto; try lia.
  intros i Hi' Hm. apply Hm. unfold matchesAt.
  specialize (Hmin (i - lastIndex)%nat ltac:(lia)).
  rewrite drop_drop in Hmin.
  replace (lastIndex + (i - lastIndex))%nat with i in Hmin by lia. exact Hmin.
Qed.

Lemma exec_none (p : pattern) (content : jsstring) (lastIndex : nat) :
  exec p content lastIndex = None ->
  forall i, (lastIndex <= i <= length content)%nat -> ~ matchesAt p content i.
Proof.
  unfold exec. destruct (length content <? lastIndex)%nat eqn:Hlt.
  - apply Nat.ltb_lt in Hlt. intros _ i Hi. lia.
  - intros H i Hi Hm. apply Hm. unfold matchesAt.
    pose proof (search_none p content _ _ H (i - lastIndex)%nat) as Hn.
    rewrite length_drop, drop_drop in Hn.
    replace (lastIndex + (i - lastIndex))%nat with i in Hn by lia.
    apply Hn. lia.
Qed.

(** The diagram of a match of a delimiter pattern is a block. *)
Lemma diagramOf_fenced (opening closing content : jsstring) (lastIndex : nat) m :
  exec (fencePattern opening closing) content lastIndex = Some m ->
  fenced opening closing (fullMatch (diagramOf m)) (code (diagramOf m)).
Proof.
  intros H. apply exec_run in H. destruct H as (cap & Hi & Hrun & Hw & Hg & _).
  apply run_fence in Hrun.
  destruct Hrun as (ws & body & s' & Hs & Hws & Hmin & He & Hc).
  exists ws, body. unfold diagramOf. cbn [fullMatch code].
  rewrite Hg, Hc, Hw, He. cbn [fmap option_fmap option_map].
  unfold slice. rewrite Hs.
  replace (index m + length (opening ++ ws ++ [10%N] ++ body ++ closing) - index m)%nat
    with (length (opening ++ ws ++ [10%N] ++ body ++ closing)) by lia.
  assert (Hfull : take (length (opening ++ ws ++ [10%N] ++ body ++ closing))
                    (opening ++ ws ++ [10%N] ++ body ++ closing ++ s')
                  = opening ++ ws ++ [10%N] ++ body ++ closing).
  { replace (opening ++ ws ++ [10%N] ++ body ++ closing ++ s')
      with ((opening ++ ws ++ [10%N] ++ body ++ closing) ++ s')
      by (rewrite <- !app_assoc; reflexivity).
    apply take_app_length. }
  rewrite Hfull. split; [reflexivity|]. split; [exact Hws|]. split.
  - intros j Hj. specialize (Hmin j Hj).
    destruct (startsWith closing (drop j (body ++ closing))) eqn:Hst; [|reflexivity].
    rewrite <- Hmin. symmetry.
    replace (body ++ closing ++ s') with ((body ++ closing) ++ s')
      by (rewrite <- app_assoc; reflexivity).
    rewrite drop_app_le by (rewrite length_app; lia).
    apply startsWith_app. exact Hst.
  - f_equal.
    replace (index m + length (opening ++ ws ++ [10%N]) + length body
             - (index m + length (opening ++ ws ++ [10%N])))%nat
      with (length body) by lia.
    assert (Hd : drop (index m + length (opening ++ ws ++ [10%N])) content
                 = body ++ closing ++ s').
    { rewrite <- drop_drop, Hs.
      replace (opening ++ ws ++ [10%N] ++ body ++ closing ++ s')
        with ((opening ++ ws ++ [10%N]) ++ body ++ closing ++ s')
        by (rewrite <- !app_assoc; reflexivity).
      apply drop_app_length. }
    rewrite Hd. apply take_app_length.
Qed.

Lemma execLoop_fenced (opening closing content : jsstring) : forall fuel lastIndex,
  Forall (fun d => fenced opening closing (fullMatch d) (code d))
    (execLoop fuel (fencePattern opening closing) content lastIndex).
Proof.
  induction fuel as [|fuel IH]; intros lastIndex; cbn [execLoop]; [constructor|].
  destruct (exec (fencePattern opening closing) content lastIndex) as [m|] eqn:Hm;
    [|constructor].
  constructor; [eapply diagramOf_fenced; exact Hm|apply IH].
Qed.

(** The [exec] loop leaves no match out: a position where the pattern
    matches is the start of a returned match or lies inside one. *)
Lemma execLoop_complete (p : pattern) (content : jsstring) :
  (0 < minLen p)%nat ->
  forall fuel lastIndex i,
    (length content - lastIndex < fuel)%nat ->
    (lastIndex <= i)%nat -> matchesAt p content i ->
    exists d, In d (execLoop fuel p content lastIndex) /\
              startIndex d <= Z.of_nat i < endIndex d.
Proof.
  intros Hp. induction fuel as [|fuel IH]; intros lastIndex i Hf Hi Hm; [lia|].
  assert (Hil : (i <= length content)%nat).
  { destruct (decide (i <= length content)%nat) as [H|H]; [exact H|].
    exfalso. apply Hm. unfold matchesAt. rewrite drop_ge by lia.
    destruct (run p [] i i None) as [[e c]|] eqn:Hr; [|reflexivity].
    apply run_bounds in Hr. simpl in Hr. lia. }
  cbn [execLoop].
  destruct (exec p content lastIndex) as [m|] eqn:Hex.
  - pose proof (diagramOf_located p content lastIndex m Hp Hex) as (Hlo & Hloc & He).
    pose proof (exec_run p content lastIndex m Hex) as (cap & Hr & _ & _ & _ & Hmin).
    pose proof (exec_spec p content lastIndex m Hex) as (_ & Hlen & Hhi & _).
    destruct (decide (i < lastIndexAfter m)%nat) as [Hin|Hout].
    + exists (diagramOf m). split; [left; reflexivity|].
      rewrite He. split; [|lia].
      change (startIndex (diagramOf m)) with (Z.of_nat (index m)).
      destruct (decide (index m <= i)%nat) as [H|H]; [lia|].
      exfalso. apply (Hmin i); [lia|exact Hm].
    + destruct (IH (lastIndexAfter m) i) as (d & Hd & Hspan); try assumption; try lia.
      exists d. split; [right; exact Hd|exact Hspan].
  - exfalso. apply (exec_none p content lastIndex Hex i); [lia|exact Hm].
Qed.

End BlockFacts.

(* ===================================================================== *)
(** * mermaid-processor.ts: further properties                            *)
(* ===================================================================== *)
Module ProcessorFacts.
Import JS Eff Mermaid MermaidSpec BlockSpec JSFacts ExtractFacts SpliceFacts
  BlockFacts Samples MoreSamples.

(** Every diagram returned by [extractDiagrams] is a block of one of the
    two syntaxes: the opening marker, white space up to a line feed, a
    body in which the closing marker does not occur, the closing marker.
    Its [code] is the body without the white space around it, so it has
    white space at neither end. *)
Theorem extractDiagrams_blocks (content : jsstring) :
  Forall (fun d =>
            (fenced (lit "```mermaid") (lit "```") (fullMatch d) (code d) \/
             fenced (lit ":::mermaid") (lit ":::") (fullMatch d) (code d)) /\
            trimmed (code d))
    (extractDiagrams content).
Proof.
  unfold extractDiagrams.
  eapply Permutation_Forall; [symmetry; apply sortBy_perm|].
  simpl. rewrite app_nil_r. apply Forall_app. split.
  - unfold matchesOf. rewrite codeFence_fence.
    eapply Forall_impl; [apply execLoop_fenced|].
    intros d Hd. split; [left; exact Hd|].
    destruct Hd as (ws & body & _ & _ & _ & ->). apply trim_trimmed.
  - unfold matchesOf. rewrite tripleColon_fence.
    eapply Forall_impl; [apply execLoop_fenced|].
    intros d Hd. split; [right; exact Hd|].
    destruct Hd as (ws & body & _ & _ & _ & ->). apply trim_trimmed.
Qed.

(** [extractDiagrams] misses no block: wherever one of the two patterns
    matches in the text, that position is the start of a returned
    diagram or lies inside the span of one. *)
Theorem extractDiagrams_complete (content : jsstring) (p : pattern) (i : nat) :
  In p MERMAID_PATTERNS ->
  matchesAt p content i ->
  exists d, In d (extractDiagrams content) /\
            startIndex d <= Z.of_nat i < endIndex d.
Proof.
  intros Hp Hm.
  assert (Hlen : (0 < minLen p)%nat).
  { destruct Hp as [<-|[<-|[]]]; [rewrite minLen_codeFence|rewrite minLen_tripleColon]; lia. }
  destruct (execLoop_complete p content Hlen (S (length content)) 0 i)
    as (d & Hd & Hspan); [lia|lia|exact Hm|].
  exists d. split; [|exact Hspan].
  unfold extractDiagrams.
  eapply Permutation_in; [symmetry; apply sortBy_perm|].
  simpl. rewrite app_nil_r. apply in_or_app.
  destruct Hp as [<-|[<-|[]]]; [left|right]; exact Hd.
Qed.

(** The code fence of [threeDiagrams] at offset 8. *)
Lemma extractDiagrams_complete_witness :
  exists d, In d (extractDiagrams threeDiagrams) /\
            startIndex d <= 8 < endIndex d.
Proof.
  apply (extractDiagrams_complete threeDiagrams codeFence 8).
  - left. reflexivity.
  - unfold matchesAt. vm_compute. intros H. discriminate H.
Defined.

Section Process.
Variable pathJoin : jsstring -> jsstring -> jsstring.
Variable outputFormat : jsstring.
Variable renders : nat -> RenderEnv.
Variables outputDir baseFileName : jsstring.

Local Abbreviation processMarkdown :=
  (processMarkdown pathJoin outputFormat renders).
Local Abbreviation resultsOf :=
  (resultsOf pathJoin outputFormat renders outputDir baseFileName).
Local Abbreviation renderRun :=
  (renderRun pathJoin outputFormat renders outputDir baseFileName).
Local Abbreviation spliceFrom := (spliceFrom outputFormat baseFileName).

Lemma errors_spliceFrom : forall ds rs i st,
  length rs = length ds ->
  errors (spliceFrom i ds rs st) = errors st ++ failuresFrom i rs.
Proof.
  induction ds as [|d ds IH]; intros rs i st Hl.
  - destruct rs; [|discriminate]. simpl. rewrite app_nil_r. reflexivity.
  - destruct rs as [|r rs]; [discriminate|]. cbn [MermaidSpec.spliceFrom failuresFrom].
    rewrite IH by (simpl in Hl; lia). unfold spliceStep.
    destruct (success r); cbn [errors]; [reflexivity|].
    rewrite <- app_assoc. reflexivity.
Qed.

Lemma failuresFrom_length : forall rs i,
  length (failuresFrom i rs) = length (List.filter (fun r => negb (success r)) rs).
Proof.
  induction rs as [|r rs IH]; intros i; simpl; [reflexivity|].
  rewrite length_app, IH. destruct (success r); reflexivity.
Qed.



Lemma all_failed_count (rs : list RenderResult) :
  Forall (fun r => success r = false) rs ->
  length (List.filter (fun r => negb (success r)) rs) = length rs.
Proof.
  induction 1 as [|r rs Hr _ IH]; simpl; [reflexivity|].
  rewrite Hr. simpl. f_equal. exact IH.
Qed.

Lemma spliceFrom_all_failed : forall ds rs i st,
  Forall (fun r => success r = false) rs ->
  processedContent (spliceFrom i ds rs st) = processedContent st /\
  offset (spliceFrom i ds rs st) = offset st.
Proof.
  induction ds as [|d ds IH]; intros rs i st Hall; [split; reflexivity|].
  destruct rs as [|r rs]; [split; reflexivity|].
  apply Forall_cons in Hall. destruct Hall as [Hr Hall].
  cbn [MermaidSpec.spliceFrom].
  destruct (IH rs (S i) (spliceStep outputFormat baseFileName i d r st) Hall)
    as [-> ->].
  unfold spliceStep. rewrite Hr. split; reflexivity.
Qed.

(** When every render fails, the text comes back unchanged, whatever
    the spans are, with one error per diagram. *)
Theorem processMarkdown_all_failed (content : jsstring) (w : World) :
  Forall (fun r => success r = false) (resultsOf content w) ->
  exists out w',
    processMarkdown content outputDir baseFileName w = (Ok out, w') /\
    resultContent out = content /\
    length (resultErrors out) = diagramCount out.
Proof.
  intros Hall.
  destruct (MermaidClaims.processMarkdown_run pathJoin outputFormat renders
              outputDir baseFileName content w) as (w' & Hrun).
  eexists _, w'. split; [exact Hrun|]. cbn [resultContent diagramCount resultErrors].
  assert (Hlen : length (resultsOf content w) = length (extractDiagrams content))
    by apply renderRun_length.
  split.
  - apply spliceFrom_all_failed. exact Hall.
  - rewrite errors_spliceFrom by exact Hlen. cbn [errors initialState app].
    rewrite failuresFrom_length, <- Hlen. apply all_failed_count. exact Hall.
Qed.

(** ** The workspace of the processor *)

(** What a render call does to the world: nothing, or it creates the
    workspace of a processor that has none. *)
Lemma renderDiagram_world (e : RenderEnv) (code outputPath : jsstring) (w : World) :
  (renderDiagram e code outputPath w).2 = w \/
  (truthy (tempDir w) = false /\
   exists p, tmpDirCall e = Ok p /\
     (renderDiagram e code outputPath w).2 =
       {| dirs := {[ p ]} ∪ dirs w; tempDir := Some p; pdfDests := pdfDests w |}).
Proof.
  destruct e as [td wi wm wp ex oe], w as [ds t pd].
  unfold renderDiagram, tryCatch, mbind, M_bind, bind,
    getWorld, call, execAsync, setDirs, setTempDir, ret, throw.
  cbn [tmpDirCall writeInput writeMermaidConfig writePuppeteerConfig mmdc
       outputExists tempDir dirs pdfDests].
  destruct (truthy t) eqn:Ht; cbn [negb].
  - left. destruct wi as [[]|m1]; destruct wm as [[]|m2];
      destruct wp as [[]|m3]; destruct ex as [|m4|m4]; destruct oe; reflexivity.
  - destruct td as [p|m0].
    + right. split; [reflexivity|]. exists p. split; [reflexivity|].
      destruct wi as [[]|m1]; destruct wm as [[]|m2];
        destruct wp as [[]|m3]; destruct ex as [|m4|m4]; destruct oe; reflexivity.
    + left. reflexivity.
Qed.

Lemma renderRun_reuses : forall ds i w,
  truthy (tempDir w) = true -> (renderRun i ds w).2 = w.
Proof.
  induction ds as [|d ds IH]; intros i w Ht; cbn [MermaidSpec.renderRun]; [reflexivity|].
  pose proof (renderDiagram_world (renders i) (code d)
                (pathJoin outputDir (imageName outputFormat baseFileName i)) w) as Hw.
  destruct (renderDiagram (renders i) (code d)
              (pathJoin outputDir (imageName outputFormat baseFileName i)) w)
    as [[r|msg] w1]; cbn [snd] in Hw.
  - destruct Hw as [->|[Hf _]]; [|congruence].
    specialize (IH (S i) w Ht). destruct (renderRun (S i) ds w) as [rs w2].
    exact IH.
  - destruct Hw as [->|[Hf _]]; [reflexivity|congruence].
Qed.

Lemma renderRun_pdfDests : forall ds i w,
  pdfDests (renderRun i ds w).2 = pdfDests w.
Proof.
  induction ds as [|d ds IH]; intros i w; cbn [MermaidSpec.renderRun]; [reflexivity|].
  pose proof (renderDiagram_world (renders i) (code d)
                (pathJoin outputDir (imageName outputFormat baseFileName i)) w) as Hw.
  destruct (renderDiagram (renders i) (code d)
              (pathJoin outputDir (imageName outputFormat baseFileName i)) w)
    as [[r|msg] w1]; cbn [snd] in Hw.
  - specialize (IH (S i) w1). destruct (renderRun (S i) ds w1) as [rs w2].
    cbn [snd] in *. rewrite IH.
    destruct Hw as [->|(_ & p & _ & ->)]; reflexivity.
  - cbn [snd]. destruct Hw as [->|(_ & p & _ & ->)]; reflexivity.
Qed.


Lemma processMarkdown_full (content : jsstring) (w : World) :
  processMarkdown content outputDir baseFileName w =
    (Ok {| resultContent :=
             processedContent
               (spliceFrom 0 (extractDiagrams content) (resultsOf content w)
                  (initialState content));
           diagramCount := length (extractDiagrams content);
           resultErrors :=
             errors (spliceFrom 0 (extractDiagrams content)
                       (resultsOf content w) (initialState content)) |},
     (renderRun 0 (extractDiagrams content) w).2).
Proof.
  unfold Mermaid.processMarkdown, mbind, M_bind, bind.
  rewrite processLoop_run. reflexivity.
Qed.



End Process.

(** Every render of [threeDiagrams] fails. *)
Lemma processMarkdown_all_failed_witness :
  exists out w',
    processMarkdown joinWithSlash (lit "png") (fun _ => renderExitOne)
      threeDiagrams (lit "/w") (lit "doc") emptyWorld = (Ok out, w') /\
    resultContent out = threeDiagrams /\
    length (resultErrors out) = diagramCount out.
Proof.
  apply processMarkdown_all_failed. vm_compute.
  repeat constructor.
Defined.



(** [cleanup] removes the workspace of the processor and nothing else:
    when [fs.remove] works, it returns, no other directory is touched,
    afterwards the processor has no workspace that exists, and a second
    [cleanup] changes nothing.  When [tempDir] names a directory that is
    already gone, the field is left as it is.  When [fs.remove] throws,
    [cleanup] throws exactly if there was a workspace to remove, and the
    world is unchanged. *)
Theorem cleanup_releases_workspace (w : World) :
  (exists w',
     cleanup (Ok tt) w = (Ok tt, w') /\
     (forall p, tempDir w' = Some p -> truthy (tempDir w') = true -> p ∉ dirs w') /\
     (forall q, q ∈ dirs w' <-> q ∈ dirs w /\
                  ~ (truthy (tempDir w) = true /\ tempDir w = Some q)) /\
     pdfDests w' = pdfDests w /\
     (tempDir w' = None \/ w' = w) /\
     cleanup (Ok tt) w' = (Ok tt, w')) /\
  (forall msg,
     cleanup (Throw msg) w =
       (match tempDir w with
        | Some p => if truthy (tempDir w) && bool_decide (p ∈ dirs w)
                    then Throw msg else Ok tt
        | None => Ok tt
        end, w)).
Proof.
  destruct w as [ds t pd].
  unfold cleanup, mbind, M_bind, bind, getWorld, call, setDirs, setTempDir, ret.
  cbn [tempDir dirs pdfDests].
  split.
  - destruct t as [p|].
    + destruct (truthy (Some p)) eqn:Ht; cbn [andb].
      * destruct (bool_decide (p ∈ ds)) eqn:Hin.
        -- apply bool_decide_eq_true in Hin.
           eexists. split; [reflexivity|]. cbn [tempDir dirs pdfDests].
           split; [discriminate|]. split.
           { intros q. rewrite elem_of_difference, elem_of_singleton. split.
             - intros [Hq Hne]. split; [exact Hq|]. intros [_ [= ->]]. auto.
             - intros [Hq Hn]. split; [exact Hq|]. intros ->. auto. }
           split; [reflexivity|]. split; [left; reflexivity|reflexivity].
        -- eexists. split; [reflexivity|]. cbn [tempDir dirs pdfDests].
           rewrite Ht, Hin. cbn [andb].
           apply bool_decide_eq_false in Hin.
           split; [intros q [= ->] _; exact Hin|]. split.
           { intros q. split; [|tauto]. intros Hq. split; [exact Hq|].
             intros [_ [= ->]]. contradiction. }
           split; [reflexivity|]. split; [right; reflexivity|reflexivity].
      * eexists. split; [reflexivity|]. cbn [tempDir dirs pdfDests].
        rewrite Ht. cbn [andb].
        split; [intros q _ Hc; discriminate Hc|]. split.
        { intros q. split; [|tauto]. intros Hq. split; [exact Hq|].
          intros [Hc _]. discriminate Hc. }
        split; [reflexivity|]. split; [right; reflexivity|reflexivity].
    + eexists. split; [reflexivity|]. cbn [tempDir dirs pdfDests].
      split; [discriminate|]. split.
      { intros q. split; [|tauto]. intros Hq. split; [exact Hq|].
        intros [Hc _]. discriminate Hc. }
      split; [reflexivity|]. split; [left; reflexivity|reflexivity].
  - intros msg. destruct t as [p|]; [|reflexivity].
    destruct (truthy (Some p) && bool_decide (p ∈ ds)); reflexivity.
Qed.

End ProcessorFacts.

(* ===================================================================== *)
(** * converter.ts: further properties of single conversions              *)
(* ===================================================================== *)
Module ConvertFacts.
Import JS Eff Converter ConverterSpec ConvertSpec MermaidSpec JSFacts Samples
  MoreSamples.

Lemma cleanup_hasWorkspace (o : Exc unit) (w : World) :
  Mermaid.cleanup o w =
    if hasWorkspace w then
      match o with
      | Ok _ => (Ok tt, {| dirs := dirs w ∖ {[ default [] (tempDir w) ]};
                           tempDir := None; pdfDests := pdfDests w |})
      | Throw msg => (Throw msg, w)
      end
    else (Ok tt, w).
Proof.
  destruct w as [ds t pd].
  unfold Mermaid.cleanup, hasWorkspace, mbind, M_bind, bind, getWorld, call,
    setDirs, setTempDir, ret.
  cbn [tempDir dirs pdfDests]. destruct t as [p|]; [|reflexivity].
  destruct (truthy (Some p) && bool_decide (p ∈ ds)); [|reflexivity].
  destruct o as [[]|msg]; reflexivity.
Qed.

Section Convert.
Variable resolve : jsstring -> jsstring.
Variable basename : jsstring -> jsstring.
Variable basenameWithout : jsstring -> jsstring -> jsstring.
Variable extname : jsstring -> jsstring.
Variable pathJoin : jsstring -> jsstring -> jsstring.
Variable options : Config.ConversionOptions.

Local Abbreviation convert :=
  (convert resolve basename basenameWithout extname pathJoin options).
Local Abbreviation convertBody :=
  (convertBody basename basenameWithout extname pathJoin options).
Local Abbreviation afterDiagrams :=
  (afterDiagrams basenameWithout extname pathJoin options).

(** The [try] block of [convert], path by path. *)
Lemma convertBody_paths (e : ConvertEnv) (resolvedInput resolvedOutput : jsstring)
    (w : World) :
  convertBody e resolvedInput resolvedOutput w =
    if negb (inputExists e)
    then (Throw (lit "Input file not found: " ++ resolvedInput), w)
    else
      match readFile e with
      | Throw msg => (Throw msg, w)
      | Ok content =>
          match tmpDirCall e with
          | Throw msg => (Throw msg, w)
          | Ok wd =>
              let w2 := afterDiagrams e resolvedInput content wd w in
              match writeProcessed e with
              | Throw msg => (Throw msg, w2)
              | Ok _ =>
                  match copyLocalAssets e with
                  | Throw msg => (Throw msg, w2)
                  | Ok _ =>
                      if negb (genSuccess (generate e))
                      then (Throw (match genError (generate e) with
                                   | Some msg => msg
                                   | None => lit "PDF generation failed"
                                   end), withDest resolvedOutput w2)
                      else if negb (default false (Config.keepIntermediate options))
                      then match tmpCleanup e with
                           | Throw msg => (Throw msg, withDest resolvedOutput w2)
                           | Ok _ =>
                               (Ok (successResult resolvedInput resolvedOutput content),
                                withoutDir wd (withDest resolvedOutput w2))
                           end
                      else (Ok (successResult resolvedInput resolvedOutput content),
                            withDest resolvedOutput w2)
                  end
              end
          end
      end.
Proof.
  cbv beta iota zeta delta [Converter.convertBody mbind M_bind bind call
    throw ret addDir removeDir logPdfDest getWorld setDirs].
  destruct (inputExists e); cbn [negb]; [|reflexivity].
  destruct (readFile e) as [content|]; [|reflexivity].
  destruct (tmpDirCall e) as [wd|]; [|reflexivity].
  rewrite ProcessorFacts.processMarkdown_full.
  unfold ConvertSpec.afterDiagrams. cbv zeta. cbn [dirs tempDir pdfDests].
  destruct (writeProcessed e) as [[]|]; [|reflexivity].
  destruct (copyLocalAssets e) as [[]|]; [|reflexivity].
  destruct (genSuccess (generate e)); cbn [negb]; [|reflexivity].
  unfold successResult. cbn [Mermaid.diagramCount].
  destruct (negb (default false (Config.keepIntermediate options))); [|reflexivity].
  destruct (tmpCleanup e) as [[]|]; reflexivity.
Qed.

(** [convert] is its body, failures turned into values, followed by the
    clean-up of the renderer. *)
Lemma convert_paths (e : ConvertEnv) (inputPath : jsstring)
    (outputPath : option jsstring) (w : World) :
  convert e inputPath outputPath w =
    let body := convertBody e (resolve inputPath)
                  (resolvedOutputOf resolve inputPath outputPath) w in
    let r := match body.1 with
             | Ok r => r
             | Throw msg => {| success := false; inputFile := resolve inputPath;
                               outputFile := None; error := Some msg;
                               diagramCount := None |}
             end in
    if hasWorkspace body.2 then
      match removeTempDir e with
      | Ok _ => (Ok r, {| dirs := dirs body.2 ∖ {[ default [] (tempDir body.2) ]};
                          tempDir := None; pdfDests := pdfDests body.2 |})
      | Throw msg => (Throw msg, body.2)
      end
    else (Ok r, body.2).
Proof.
  unfold Converter.convert, finally, tryCatch, ret. cbv zeta.
  destruct (convertBody e (resolve inputPath)
              (resolvedOutputOf resolve inputPath outputPath) w) as [[r0|msg] w0];
    cbn [fst snd]; rewrite cleanup_hasWorkspace;
    destruct (hasWorkspace w0); try reflexivity;
    destruct (removeTempDir e) as [[]|]; reflexivity.
Qed.

Lemma convertBody_flag (e : ConvertEnv) (rin rout : jsstring) (w : World) :
  returned (convertBody e rin rout w).1 = convertOk options e /\
  (forall r, (convertBody e rin rout w).1 = Ok r -> success r = true).
Proof.
  rewrite convertBody_paths. unfold convertOk.
  destruct (inputExists e); cbn [negb andb]; [|split; [reflexivity|discriminate]].
  destruct (readFile e) as [content|]; cbn [returned andb];
    [|split; [reflexivity|discriminate]].
  destruct (tmpDirCall e) as [wd|]; cbn [returned andb];
    [|split; [reflexivity|discriminate]].
  cbv zeta.
  destruct (writeProcessed e) as [[]|]; cbn [returned andb];
    [|split; [reflexivity|discriminate]].
  destruct (copyLocalAssets e) as [[]|]; cbn [returned andb];
    [|split; [reflexivity|discriminate]].
  destruct (genSuccess (generate e)); cbn [negb andb];
    [|split; [reflexivity|discriminate]].
  destruct (default false (Config.keepIntermediate options)); cbn [negb orb].
  - split; [reflexivity|]. intros r [= <-]. reflexivity.
  - destruct (tmpCleanup e) as [[]|]; cbn [returned fst];
      split; try reflexivity; try discriminate. intros r [= <-]. reflexivity.
Qed.

Lemma convert_success_flag (e : ConvertEnv) (inputPath : jsstring)
    (outputPath : option jsstring) (w w' : World) (r : ConversionResult) :
  convert e inputPath outputPath w = (Ok r, w') ->
  success r = convertOk options e.
Proof.
  rewrite convert_paths. cbv zeta.
  destruct (convertBody_flag e (resolve inputPath)
              (resolvedOutputOf resolve inputPath outputPath) w) as (Hflag & Hok).
  destruct (convertBody e (resolve inputPath)
              (resolvedOutputOf resolve inputPath outputPath) w) as [[r0|msg] w0];
    cbn [fst snd] in *; rewrite <- Hflag.
  - specialize (Hok r0 eq_refl).
    destruct (hasWorkspace w0); [destruct (removeTempDir e) as [[]|]|];
      intros [= <- _]; try discriminate; exact Hok.
  - destruct (hasWorkspace w0); [destruct (removeTempDir e) as [[]|]|];
      intros [= <- _]; try discriminate; reflexivity.
Qed.

Lemma afterDiagrams_pdfDests (e : ConvertEnv) (rin content wd : jsstring)
    (w : World) :
  pdfDests (afterDiagrams e rin content wd w) = pdfDests w.
Proof.
  unfold ConvertSpec.afterDiagrams. rewrite ProcessorFacts.renderRun_pdfDests.
  reflexivity.
Qed.

(** The destinations handed to the PDF generator by [convert]: the
    resolved output path, when the generator is reached. *)
Lemma convert_pdfDests (e : ConvertEnv) (inputPath : jsstring)
    (outputPath : option jsstring) (w : World) :
  pdfDests (convert e inputPath outputPath w).2
  = pdfDests w ++ (if reachesGenerate e
                   then [resolvedOutputOf resolve inputPath outputPath]
                   else []).
Proof.
  rewrite convert_paths. cbv zeta.
  set (out := resolvedOutputOf resolve inputPath outputPath).
  assert (Hbody : pdfDests (convertBody e (resolve inputPath) out w).2
                  = pdfDests w ++ (if reachesGenerate e then [out] else [])).
  { rewrite convertBody_paths. unfold reachesGenerate.
    destruct (inputExists e); cbn [negb andb snd]; [|symmetry; apply app_nil_r].
    destruct (readFile e) as [content|]; cbn [returned andb snd];
      [|symmetry; apply app_nil_r].
    destruct (tmpDirCall e) as [wd|]; cbn [returned andb snd];
      [|symmetry; apply app_nil_r].
    cbv zeta.
    destruct (writeProcessed e) as [[]|]; cbn [returned andb snd];
      [|rewrite afterDiagrams_pdfDests; symmetry; apply app_nil_r].
    destruct (copyLocalAssets e) as [[]|]; cbn [returned andb snd];
      [|rewrite afterDiagrams_pdfDests; symmetry; apply app_nil_r].
    destruct (genSuccess (generate e)); cbn [negb];
      [destruct (negb (default false (Config.keepIntermediate options)));
       [destruct (tmpCleanup e) as [[]|]|]|];
      cbn [snd withDest withoutDir pdfDests];
      rewrite afterDiagrams_pdfDests; reflexivity. }
  destruct (hasWorkspace (convertBody e (resolve inputPath) out w).2);
    [destruct (removeTempDir e) as [[]|]|]; cbn [snd pdfDests]; exact Hbody.
Qed.

(** C10.  Without an output path ([undefined], or the empty string),
    the output path of [convert] is the resolved input path with a
    final [.md] (in any case) replaced by [.pdf], and the resolved
    input path itself when it does not end in [.md].  Every call of
    [convert] that reaches the PDF generator hands it this path as the
    destination, and no other; a successful conversion has reached the
    generator and reports this path as [outputFile].  So for an input
    path that does not end in [.md] a successful conversion has handed
    the path of its own source to the PDF generator and reports it as
    [outputFile]. *)
Theorem convert_default_output (e : ConvertEnv) (inputPath : jsstring)
    (outputPath : option jsstring) (w : World) :
  truthy outputPath = false ->
  let resolvedInput := resolve inputPath in
  let defaultOutput :=
    if endsWithMd resolvedInput
    then take (length resolvedInput - 3) resolvedInput ++ lit ".pdf"
    else resolvedInput in
  resolvedOutputOf resolve inputPath outputPath = defaultOutput /\
  mdToPdf resolvedInput = defaultOutput /\
  pdfDests (convert e inputPath outputPath w).2
    = pdfDests w ++ (if reachesGenerate e then [defaultOutput] else []) /\
  (forall r w',
     convert e inputPath outputPath w = (Ok r, w') ->
     success r = true ->
     reachesGenerate e = true /\
     inputFile r = resolvedInput /\
     outputFile r = Some defaultOutput /\
     In defaultOutput (pdfDests w')) /\
  (endsWithMd resolvedInput = false ->
   forall r w',
     convert e inputPath outputPath w = (Ok r, w') ->
     success r = true ->
     outputFile r = Some (inputFile r) /\
     In (inputFile r) (pdfDests w')).
Proof.
  intros Ht resolvedInput defaultOutput.
  assert (Hmd : mdToPdf resolvedInput = defaultOutput)
    by apply ConvertClaims.mdToPdf_spec.
  assert (Hout : resolvedOutputOf resolve inputPath outputPath = defaultOutput).
  { unfold resolvedOutputOf. destruct outputPath as [o|]; [|exact Hmd].
    rewrite Ht. exact Hmd. }
  assert (Hsucc : forall r w',
            convert e inputPath outputPath w = (Ok r, w') ->
            success r = true ->
            reachesGenerate e = true /\
            inputFile r = resolvedInput /\
            outputFile r = Some defaultOutput /\
            In defaultOutput (pdfDests w')).
  { intros r w' Hrun Hs.
    destruct (ConvertClaims.convert_success resolve basename basenameWithout
                extname pathJoin options e inputPath outputPath w w' r Hrun Hs)
      as (Hi & Ho & Hd).
    rewrite Hout in Ho, Hd.
    pose proof (convert_success_flag e inputPath outputPath w w' r Hrun) as Hflag.
    rewrite Hs in Hflag. symmetry in Hflag. unfold convertOk in Hflag.
    split; [|split; [exact Hi|split; [exact Ho|exact Hd]]].
    unfold reachesGenerate.
    apply andb_true_iff in Hflag. destruct Hflag as [Hflag _].
    apply andb_true_iff in Hflag. destruct Hflag as [Hflag _]. exact Hflag. }
  split; [exact Hout|]. split; [exact Hmd|]. split.
  - rewrite convert_pdfDests, Hout. reflexivity.
  - split; [exact Hsucc|]. intros Hn r w' Hrun Hs.
    destruct (Hsucc r w' Hrun Hs) as (_ & Hi & Ho & Hd).
    subst defaultOutput. rewrite Hn in Ho, Hd. fold resolvedInput in Hi.
    rewrite Hi. split; assumption.
Qed.

(** Whenever [convert] returns, it reports success exactly when its
    environment worked; whether the diagrams rendered does not enter:
    a failed render never fails the conversion. *)
Theorem convert_success_iff (e : ConvertEnv) (inputPath : jsstring)
    (outputPath : option jsstring) (w w' : World) (r : ConversionResult) :
  convert e inputPath outputPath w = (Ok r, w') ->
  success r = convertOk options e.
Proof.
  rewrite convert_paths. cbv zeta.
  destruct (convertBody_flag e (resolve inputPath)
              (resolvedOutputOf resolve inputPath outputPath) w) as (Hflag & Hok).
  destruct (convertBody e (resolve inputPath)
              (resolvedOutputOf resolve inputPath outputPath) w) as [[r0|msg] w0];
    cbn [fst snd] in *; rewrite <- Hflag.
  - specialize (Hok r0 eq_refl).
    destruct (hasWorkspace w0); [destruct (removeTempDir e) as [[]|]|];
      intros [= <- _]; try discriminate; exact Hok.
  - destruct (hasWorkspace w0); [destruct (removeTempDir e) as [[]|]|];
      intros [= <- _]; try discriminate; reflexivity.
Qed.

(** When the removal of the renderer's workspace does not throw,
    [convert] returns a result value on every path.  A success carries
    the output file and the diagram count and no error; a failure
    carries an error message and neither output file nor count. *)
Theorem convert_returns_value (e : ConvertEnv) (inputPath : jsstring)
    (outputPath : option jsstring) (w : World) :
  removeTempDir e = Ok tt ->
  exists r w',
    convert e inputPath outputPath w = (Ok r, w') /\
    inputFile r = resolve inputPath /\
    (success r = true ->
     outputFile r = Some (resolvedOutputOf resolve inputPath outputPath) /\
     error r = None /\ exists n, diagramCount r = Some n) /\
    (success r = false ->
     outputFile r = None /\ diagramCount r = None /\
     exists msg, error r = Some msg).
Proof.
  intros Hrm. rewrite convert_paths, Hrm. cbv zeta.
  assert (Hbody : match (convertBody e (resolve inputPath)
                           (resolvedOutputOf resolve inputPath outputPath) w).1 with
                  | Ok r => exists content,
                      r = successResult (resolve inputPath)
                            (resolvedOutputOf resolve inputPath outputPath) content
                  | Throw _ => True
                  end).
  { rewrite convertBody_paths.
    destruct (inputExists e); cbn [negb]; [|exact I].
    destruct (readFile e) as [content|]; [|exact I].
    destruct (tmpDirCall e) as [wd|]; [|exact I]. cbv zeta.
    destruct (writeProcessed e) as [[]|]; [|exact I].
    destruct (copyLocalAssets e) as [[]|]; [|exact I].
    destruct (genSuccess (generate e)); cbn [negb]; [|exact I].
    destruct (negb (default false (Config.keepIntermediate options)));
      [destruct (tmpCleanup e) as [[]|]|]; cbn [fst]; eauto. }
  destruct (convertBody e (resolve inputPath)
              (resolvedOutputOf resolve inputPath outputPath) w) as [[r0|msg] w0];
    cbn [fst snd] in *.
  - destruct Hbody as (content & ->).
    destruct (hasWorkspace w0); eexists _, _; (split; [reflexivity|]);
      cbn; repeat split; eauto; discriminate.
  - destruct (hasWorkspace w0); eexists _, _; (split; [reflexivity|]);
      cbn; repeat split; eauto; discriminate.
Qed.

(** A missing input is reported as a value: [success] is false, the
    error names the resolved path; no working directory is created and
    the PDF generator is not called.  This holds when the processor has
    no workspace left over or the removal of it works; when the
    processor has a workspace and its removal throws, [convert] throws
    that error instead, and nothing has changed. *)
Theorem convert_missing_input (e : ConvertEnv) (inputPath : jsstring)
    (outputPath : option jsstring) (w : World) :
  inputExists e = false ->
  (hasWorkspace w = false \/ removeTempDir e = Ok tt ->
   exists w',
     convert e inputPath outputPath w =
       (Ok {| success := false; inputFile := resolve inputPath;
              outputFile := None;
              error := Some (lit "Input file not found: " ++ resolve inputPath);
              diagramCount := None |}, w') /\
     pdfDests w' = pdfDests w /\
     dirs w' ⊆ dirs w) /\
  (forall msg,
     hasWorkspace w = true -> removeTempDir e = Throw msg ->
     convert e inputPath outputPath w = (Throw msg, w)).
Proof.
  intros Hin. rewrite convert_paths, convertBody_paths, Hin.
  cbn [negb fst snd]. cbv zeta. split.
  - intros [Hws|Hrm].
    + rewrite Hws. eexists. split; [reflexivity|]. split; [reflexivity|].
      set_solver.
    + rewrite Hrm. destruct (hasWorkspace w); eexists;
        (split; [reflexivity|]); cbn [pdfDests dirs];
        (split; [reflexivity|]); set_solver.
  - intros msg Hws Hrm. rewrite Hws, Hrm. reflexivity.
Qed.

Lemma convertBody_ok_workDir (e : ConvertEnv) (rin rout : jsstring) (w : World)
    (wd : jsstring) (r : ConversionResult) :
  (convertBody e rin rout w).1 = Ok r ->
  default false (Config.keepIntermediate options) = false ->
  tmpDirCall e = Ok wd ->
  wd ∉ dirs (convertBody e rin rout w).2.
Proof.
  rewrite convertBody_paths. intros Hr Hk Hwd. revert Hr. rewrite Hk, Hwd.
  cbv zeta. cbn [negb].
  destruct (inputExists e); cbn [negb]; [|discriminate].
  destruct (readFile e) as [content|]; [|discriminate].
  destruct (writeProcessed e) as [[]|]; [|discriminate].
  destruct (copyLocalAssets e) as [[]|]; [|discriminate].
  destruct (genSuccess (generate e)); cbn [negb]; [|discriminate].
  destruct (tmpCleanup e) as [[]|]; [|discriminate].
  intros _. cbn [snd dirs withoutDir withDest]. set_solver.
Qed.

(** A successful conversion that was not asked to keep intermediate
    files has removed its working directory when it returns. *)
Theorem convert_success_releases_workDir (e : ConvertEnv) (inputPath : jsstring)
    (outputPath : option jsstring) (w w' : World) (r : ConversionResult)
    (wd : jsstring) :
  convert e inputPath outputPath w = (Ok r, w') ->
  success r = true ->
  default false (Config.keepIntermediate options) = false ->
  tmpDirCall e = Ok wd ->
  wd ∉ dirs w'.
Proof.
  intros Hrun Hs Hk Hwd. rewrite convert_paths in Hrun. cbv zeta in Hrun.
  pose proof (convertBody_ok_workDir e (resolve inputPath)
                (resolvedOutputOf resolve inputPath outputPath) w wd) as Hbody.
  destruct (convertBody e (resolve inputPath)
              (resolvedOutputOf resolve inputPath outputPath) w) as [[r0|msg] w0];
    cbn [fst snd] in *.
  - specialize (Hbody r0 eq_refl Hk Hwd).
    destruct (hasWorkspace w0); [destruct (removeTempDir e) as [[]|]|];
      try discriminate; injection Hrun as _ <-; cbn [dirs]; set_solver.
  - destruct (hasWorkspace w0); [destruct (removeTempDir e) as [[]|]|];
      try discriminate; injection Hrun as <- _; discriminate.
Qed.

(** Whenever [convert] returns, on success or failure, the renderer is
    left without a workspace that exists: the [finally] block has
    released it. *)
Theorem convert_releases_renderer_workspace (e : ConvertEnv)
    (inputPath : jsstring) (outputPath : option jsstring) (w w' : World)
    (r : ConversionResult) :
  convert e inputPath outputPath w = (Ok r, w') ->
  hasWorkspace w' = false.
Proof.
  rewrite convert_paths. cbv zeta.
  destruct (hasWorkspace (convertBody e (resolve inputPath)
              (resolvedOutputOf resolve inputPath outputPath) w).2) eqn:Hws.
  - destruct (removeTempDir e) as [[]|]; [|discriminate].
    intros [= _ <-]. reflexivity.
  - intros [= _ <-]. exact Hws.
Qed.

(** When the removal of the renderer's workspace throws, [convert]
    throws instead of returning a result: here for a processor that
    enters with a workspace other than the working directory. *)
Theorem convert_throws_when_cleanup_fails (e : ConvertEnv) (inputPath : jsstring)
    (outputPath : option jsstring) (w : World) (msg : jsstring) :
  hasWorkspace w = true ->
  tmpDirCall e <> Ok (default [] (tempDir w)) ->
  removeTempDir e = Throw msg ->
  exists w', convert e inputPath outputPath w = (Throw msg, w').
Proof.
  intros Hws Hne Hrm. rewrite convert_paths, Hrm. cbv zeta.
  assert (Hkeep : hasWorkspace (convertBody e (resolve inputPath)
                    (resolvedOutputOf resolve inputPath outputPath) w).2 = true).
  { rewrite convertBody_paths.
    destruct (inputExists e); cbn [negb]; [|exact Hws].
    destruct (readFile e) as [content|]; [|exact Hws].
    destruct (tmpDirCall e) as [wd|] eqn:Hwd; [|exact Hws]. cbv zeta.
    assert (Ht : truthy (tempDir w) = true /\ exists p, tempDir w = Some p /\ p ∈ dirs w).
    { unfold hasWorkspace in Hws. destruct (tempDir w) as [p|]; [|discriminate].
      apply andb_true_iff in Hws. destruct Hws as [Ht Hin].
      apply bool_decide_eq_true in Hin. eauto. }
    destruct Ht as (Ht & p & Hp & Hin).
    assert (Hw2 : afterDiagrams e (resolve inputPath) content wd w =
                  {| dirs := {[ wd ]} ∪ dirs w; tempDir := tempDir w;
                     pdfDests := pdfDests w |}).
    { unfold ConvertSpec.afterDiagrams. apply ProcessorFacts.renderRun_reuses. exact Ht. }
    rewrite Hw2.
    assert (Hpw : p <> wd).
    { intros ->. apply Hne. rewrite Hp. reflexivity. }
    assert (H1 : hasWorkspace {| dirs := {[ wd ]} ∪ dirs w; tempDir := tempDir w;
                                 pdfDests := pdfDests w |} = true).
    { unfold hasWorkspace. cbn [tempDir dirs]. rewrite Hp. rewrite Hp in Ht.
      rewrite Ht. cbn [andb]. apply bool_decide_eq_true. set_solver. }
    assert (H2 : forall d, hasWorkspace (withDest d {| dirs := {[ wd ]} ∪ dirs w;
                   tempDir := tempDir w; pdfDests := pdfDests w |}) = true).
    { intros d. exact H1. }
    assert (H3 : forall d, hasWorkspace (withoutDir wd (withDest d
                   {| dirs := {[ wd ]} ∪ dirs w; tempDir := tempDir w;
                      pdfDests := pdfDests w |})) = true).
    { intros d. unfold hasWorkspace, withoutDir, withDest. cbn [tempDir dirs].
      rewrite Hp. rewrite Hp in Ht. rewrite Ht. cbn [andb].
      apply bool_decide_eq_true. set_solver. }
    destruct (writeProcessed e) as [[]|]; [|exact H1].
    destruct (copyLocalAssets e) as [[]|]; [|exact H1].
    destruct (genSuccess (generate e)); cbn [negb]; [|apply H2].
    destruct (negb (default false (Config.keepIntermediate options)));
      [destruct (tmpCleanup e) as [[]|]|]; cbn [snd]; auto. }
  rewrite Hkeep. eexists. reflexivity.
Qed.
End Convert.

(** A Markdown file goes to the [.pdf] beside it; for a README without
    extension the PDF goes to the path of the source. *)
Lemma convert_default_output_witness :
  truthy None = false /\
  (exists r w',
     sampleConvert (envWith generateWorks) (lit "/docs/a.md") None emptyWorld
       = (Ok r, w') /\
     success r = true /\
     outputFile r = Some (lit "/docs/a.pdf") /\
     pdfDests w' = [lit "/docs/a.pdf"]) /\
  (exists r w',
     sampleConvert (envWith generateWorks) (lit "/docs/README") None emptyWorld
       = (Ok r, w') /\
     success r = true /\
     outputFile r = Some (lit "/docs/README") /\
     In (lit "/docs/README") (pdfDests w')).
Proof.
  split; [reflexivity|]. split.
  - destruct (sampleConvert (envWith generateWorks) (lit "/docs/a.md") None
                emptyWorld) as [[r|msg] w'] eqn:Hrun;
      [|vm_compute in Hrun; discriminate].
    assert (Hs : success r = true)
      by (vm_compute in Hrun; injection Hrun as <- _; reflexivity).
    exists r, w'. split; [reflexivity|]. split; [exact Hs|].
    destruct (convert_default_output (fun p => p) (fun p => p) (fun p _ => p)
                (fun _ => []) joinWithSlash noOptions (envWith generateWorks)
                (lit "/docs/a.md") None emptyWorld eq_refl)
      as (_ & _ & Hdests & Hsucc & _).
    destruct (Hsucc r w' Hrun Hs) as (_ & _ & Ho & _).
    split; [exact Ho|].
    change (Converter.convert (fun p => p) (fun p => p) (fun p _ => p)
              (fun _ => []) joinWithSlash noOptions (envWith generateWorks)
              (lit "/docs/a.md") None emptyWorld)
      with (sampleConvert (envWith generateWorks) (lit "/docs/a.md") None
              emptyWorld) in Hdests.
    rewrite Hrun in Hdests. exact Hdests.
  - destruct (sampleConvert (envWith generateWorks) (lit "/docs/README") None
                emptyWorld) as [[r|msg] w'] eqn:Hrun;
      [|vm_compute in Hrun; discriminate].
    assert (Hs : success r = true)
      by (vm_compute in Hrun; injection Hrun as <- _; reflexivity).
    exists r, w'. split; [reflexivity|]. split; [exact Hs|].
    destruct (convert_default_output (fun p => p) (fun p => p) (fun p _ => p)
                (fun _ => []) joinWithSlash noOptions (envWith generateWorks)
                (lit "/docs/README") None emptyWorld eq_refl)
      as (_ & _ & _ & _ & Hn).
    destruct (Hn ltac:(vm_compute; reflexivity) r w' Hrun Hs) as (Ho & Hd).
    assert (Hi : inputFile r = lit "/docs/README")
      by (vm_compute in Hrun; injection Hrun as <- _; reflexivity).
    rewrite Hi in Ho, Hd. split; assumption.
Defined.

Lemma convert_success_iff_witness :
  exists r w',
    sampleConvert (envWith generateWorks) fileA None emptyWorld = (Ok r, w') /\
    success r = convertOk noOptions (envWith generateWorks).
Proof.
  destruct (sampleConvert (envWith generateWorks) fileA None emptyWorld)
    as [[r|msg] w'] eqn:Hrun; [|vm_compute in Hrun; discriminate].
  exists r, w'. split; [reflexivity|].
  exact (convert_success_iff (fun p => p) (fun p => p) (fun p _ => p)
           (fun _ => []) joinWithSlash noOptions (envWith generateWorks)
           fileA None emptyWorld w' r Hrun).
Defined.

Lemma convert_returns_value_witness :
  removeTempDir (envWith generateFails) = Ok tt /\
  exists r w',
    sampleConvert (envWith generateFails) fileA None emptyWorld = (Ok r, w') /\
    inputFile r = fileA /\
    (success r = true ->
     outputFile r = Some (resolvedOutputOf (fun p => p) fileA None) /\
     error r = None /\ exists n, diagramCount r = Some n) /\
    (success r = false ->
     outputFile r = None /\ diagramCount r = None /\
     exists msg, error r = Some msg).
Proof.
  split; [reflexivity|].
  apply (convert_returns_value (fun p => p) (fun p => p) (fun p _ => p)
           (fun _ => []) joinWithSlash noOptions (envWith generateFails)
           fileA None emptyWorld).
  reflexivity.
Defined.

Lemma convert_missing_input_witness :
  inputExists missingInput = false /\
  (exists w',
     sampleConvert missingInput fileA None emptyWorld =
       (Ok {| success := false; inputFile := fileA; outputFile := None;
              error := Some (lit "Input file not found: " ++ fileA);
              diagramCount := None |}, w') /\
     pdfDests w' = pdfDests emptyWorld /\
     dirs w' ⊆ dirs emptyWorld) /\
  sampleConvert missingInputBusy fileA None worldWithWorkspace
  = (Throw (lit "EBUSY: resource busy or locked"), worldWithWorkspace).
Proof.
  split; [reflexivity|]. split.
  - apply (convert_missing_input (fun p => p) (fun p => p) (fun p _ => p)
             (fun _ => []) joinWithSlash noOptions missingInput fileA None
             emptyWorld eq_refl).
    left. reflexivity.
  - apply (convert_missing_input (fun p => p) (fun p => p) (fun p _ => p)
             (fun _ => []) joinWithSlash noOptions missingInputBusy fileA None
             worldWithWorkspace eq_refl).
    + vm_compute. reflexivity.
    + reflexivity.
Defined.

Lemma convert_success_releases_workDir_witness :
  exists r w',
    sampleConvert (envWith generateWorks) fileA None emptyWorld = (Ok r, w') /\
    success r = true /\
    default false (Config.keepIntermediate noOptions) = false /\
    tmpDirCall (envWith generateWorks) = Ok workDir /\
    workDir ∉ dirs w'.
Proof.
  destruct (sampleConvert (envWith generateWorks) fileA None emptyWorld)
    as [[r|msg] w'] eqn:Hrun; [|vm_compute in Hrun; discriminate].
  assert (Hs : success r = true)
    by (vm_compute in Hrun; injection Hrun as <- _; reflexivity).
  exists r, w'. split; [reflexivity|]. split; [exact Hs|].
  split; [reflexivity|]. split; [reflexivity|].
  exact (convert_success_releases_workDir (fun p => p) (fun p => p)
           (fun p _ => p) (fun _ => []) joinWithSlash noOptions
           (envWith generateWorks) fileA None emptyWorld w' r workDir
           Hrun Hs eq_refl eq_refl).
Defined.

Lemma convert_releases_renderer_workspace_witness :
  hasWorkspace worldWithWorkspace = true /\
  exists r w',
    sampleConvert (envWith generateFails) fileA None worldWithWorkspace
      = (Ok r, w') /\
    hasWorkspace w' = false.
Proof.
  split; [vm_compute; reflexivity|].
  destruct (sampleConvert (envWith generateFails) fileA None worldWithWorkspace)
    as [[r|msg] w'] eqn:Hrun; [|vm_compute in Hrun; discriminate].
  exists r, w'. split; [reflexivity|].
  exact (convert_releases_renderer_workspace (fun p => p) (fun p => p)
           (fun p _ => p) (fun _ => []) joinWithSlash noOptions
           (envWith generateFails) fileA None worldWithWorkspace w' r Hrun).
Defined.

Lemma convert_throws_when_cleanup_fails_witness :
  hasWorkspace worldWithWorkspace = true /\
  exists w',
    sampleConvert cleanupThrows fileA None worldWithWorkspace
      = (Throw (lit "EBUSY: resource busy or locked"), w').
Proof.
  split; [vm_compute; reflexivity|].
  apply (convert_throws_when_cleanup_fails (fun p => p) (fun p => p)
           (fun p _ => p) (fun _ => []) joinWithSlash noOptions cleanupThrows
           fileA None worldWithWorkspace).
  - vm_compute. reflexivity.
  - intros H. vm_compute in H. discriminate.
  - reflexivity.
Defined.

End ConvertFacts.

(* ===================================================================== *)
(** * converter.ts: further properties of batches                        *)
(* ===================================================================== *)
Module BatchFacts.
Import JS Eff Converter MermaidSpec ConverterSpec BatchSpec Samples MoreSamples
  BatchSamples.

(** ** [[...new Set(files)]] *)

Lemma uniqueFrom_spec (files : list jsstring) : forall seen,
  NoDup (uniqueFrom seen files) /\
  (forall f, In f (uniqueFrom seen files) <-> In f files /\ f ∉ seen) /\
  sublist (uniqueFrom seen files) files.
Proof.
  induction files as [|x files IH]; intros seen; cbn [uniqueFrom].
  - split; [constructor|]. split; [|constructor]. intros f. simpl. tauto.
  - destruct (bool_decide (x ∈ seen)) eqn:Hx.
    + apply bool_decide_eq_true in Hx. destruct (IH seen) as (Hnd & Hin & Hsub).
      split; [exact Hnd|]. split; [|apply sublist_cons; exact Hsub].
      intros f. rewrite Hin. simpl. split; [tauto|].
      intros [[->|Hf] Hn]; [contradiction|tauto].
    + apply bool_decide_eq_false in Hx.
      destruct (IH ({[ x ]} ∪ seen)) as (Hnd & Hin & Hsub).
      split; [|split; [|apply sublist_skip; exact Hsub]].
      * apply NoDup_cons. split; [|exact Hnd].
        rewrite list_elem_of_In, Hin. intros [_ Hn]. apply Hn. set_solver.
      * intros f. simpl. rewrite Hin. split.
        -- intros [->|[Hf Hn]]; [tauto|]. split; [tauto|]. set_solver.
        -- intros [[->|Hf] Hn]; [tauto|].
           destruct (decide (x = f)) as [->|Hne]; [tauto|].
           right. split; [exact Hf|]. set_solver.
Qed.

(** The set of the paths seen grows along the list. *)
Lemma uniqueFrom_app (before after : list jsstring) : forall seen,
  uniqueFrom seen (before ++ after)
  = uniqueFrom seen before ++ uniqueFrom (list_to_set before ∪ seen) after.
Proof.
  induction before as [|x before IH]; intros seen; cbn [app uniqueFrom].
  - f_equal. set_solver.
  - destruct (bool_decide (x ∈ seen)) eqn:Hx.
    + apply bool_decide_eq_true in Hx. rewrite IH. f_equal. f_equal.
      cbn [list_to_set]. set_solver.
    + rewrite IH. cbn [app]. f_equal. f_equal. f_equal.
      cbn [list_to_set]. set_solver.
Qed.

(** ** [chunkArray] *)

Lemma number_nan_dec (x : number) : x = NaN \/ x <> NaN.
Proof. destruct x; [left; reflexivity|right; discriminate..]. Qed.

Lemma chunkArray_nan {T} (array : list T) :
  chunkArray array NaN = Some (match array with [] => [] | _ => [[]] end).
Proof. destruct array; reflexivity. Qed.

Lemma chunkArray_infinity {T} (array : list T) :
  chunkArray array (Infinity false)
  = Some (match array with [] => [] | _ => [array] end).
Proof.
  destruct array as [|x array]; [reflexivity|].
  unfold chunkArray. cbn [chunkLoop length numLt numAdd].
  destruct (0 <? Z.of_nat (S (length array))) eqn:Hlt;
    [|apply Z.ltb_ge in Hlt; lia].
  unfold arraySlice, relativeIndex. cbn [Z.ltb Z.compare].
  replace (Z.to_nat (Z.min 0 (Z.of_nat (length (x :: array))))) with 0%nat by lia.
  rewrite Nat.sub_0_r, drop_0, firstn_all. reflexivity.
Qed.

(** What [chunkArray] makes of its size.  A positive integer cuts the
    array into consecutive groups: together they are the array, none is
    empty, none has more than [size] elements, and every group but the
    last has exactly [size].  With [NaN] the only group is empty (no
    element of the array is in a group); with [Infinity] the array is
    the only group.  With zero, a negative integer or [-Infinity] the
    loop does not end on an array that is not empty. *)
Theorem chunkArray_partition {T} (array : list T) (size : number) :
  (forall z, size = Int z -> 0 < z ->
     exists chunks,
       chunkArray array size = Some chunks /\
       concat chunks = array /\
       Forall (fun c => 0 < Z.of_nat (length c) <= z) chunks /\
       (forall k c, chunks !! k = Some c -> (S k < length chunks)%nat ->
                    Z.of_nat (length c) = z)) /\
  (size = NaN ->
   chunkArray array size = Some (match array with [] => [] | _ => [[]] end)) /\
  (size = Infinity false ->
   chunkArray array size = Some (match array with [] => [] | _ => [array] end)) /\
  ((size = Infinity true \/ exists z, size = Int z /\ z <= 0) ->
   match array with
   | [] => chunkArray array size = Some []
   | _ => forall fuel, chunkLoop fuel array size (Int 0) = None
   end).
Proof.
  split; [|split; [|split]].
  - intros z -> Hz. unfold chunkArray.
    destruct (BatchClaims.chunkLoop_concat array z Hz (S (length array)) 0%nat
                ltac:(lia)) as (chunks & Hrun & Hc & Hf & Hfull).
    exists chunks. split; [exact Hrun|]. split; [exact Hc|].
    split; [exact Hf|exact Hfull].
  - intros ->. apply chunkArray_nan.
  - intros ->. apply chunkArray_infinity.
  - intros Hsize. destruct array as [|x array]; [destruct size; reflexivity|].
    destruct Hsize as [->|(z & -> & Hz)].
    + intros [|fuel]; [reflexivity|].
      cbn [chunkLoop numLt numAdd length].
      destruct (0 <? Z.of_nat (S (length array))) eqn:Hlt;
        [|apply Z.ltb_ge in Hlt; lia].
      rewrite BatchClaims.chunkLoop_diverges_infinity. reflexivity.
    + intros fuel. apply BatchClaims.chunkLoop_diverges; [exact Hz|discriminate|lia].
Qed.

Section Files.
Variable glob : jsstring -> list jsstring.

(** The files of a batch are the files of its patterns, each once, in
    the order of their first appearance: at the first appearance of a
    file, the files before it in the batch are exactly those that
    appeared before. *)
Theorem uniqueFiles_once (o : BatchConversionOptions) :
  NoDup (uniqueFiles glob o) /\
  (forall f, In f (uniqueFiles glob o) <->
             exists pattern, In pattern (patterns o) /\ In f (glob pattern)) /\
  sublist (uniqueFiles glob o) (concat (map glob (patterns o))) /\
  (forall before f after,
     concat (map glob (patterns o)) = before ++ f :: after ->
     ~ In f before ->
     exists earlier later,
       uniqueFiles glob o = earlier ++ f :: later /\
       forall g, In g earlier <-> In g before).
Proof.
  unfold uniqueFiles.
  destruct (uniqueFrom_spec (concat (map glob (patterns o))) ∅) as (Hnd & Hin & Hsub).
  split; [exact Hnd|]. split; [|split; [exact Hsub|]].
  - intros f. rewrite Hin. split.
    + intros [Hf _]. apply in_concat in Hf. destruct Hf as (l & Hl & Hf).
      apply in_map_iff in Hl. destruct Hl as (pat & <- & Hp). eauto.
    + intros (pat & Hp & Hf). split; [|set_solver].
      apply in_concat. exists (glob pat). split; [|exact Hf].
      apply in_map. exact Hp.
  - intros before f after -> Hnew.
    rewrite uniqueFrom_app. cbn [uniqueFrom].
    rewrite bool_decide_eq_false_2.
    2:{ rewrite elem_of_union, elem_of_list_to_set, list_elem_of_In.
        intros [H|H]; [contradiction|set_solver]. }
    eexists _, _. split; [reflexivity|].
    intros g. destruct (uniqueFrom_spec before ∅) as (_ & Hb & _).
    rewrite Hb. split; [tauto|]. intros Hg. split; [exact Hg|set_solver].
Qed.
End Files.

Section Batch.
Variable basename : jsstring -> jsstring.
Variable pathJoin : jsstring -> jsstring -> jsstring.
Variable glob : jsstring -> list jsstring.
Variable convertOutcome : jsstring -> option jsstring -> Exc ConversionResult.

Local Abbreviation outcomeFor := (outcomeFor basename pathJoin convertOutcome).
Local Abbreviation resolves := (resolves basename pathJoin convertOutcome).
Local Abbreviation failsToConvert :=
  (failsToConvert basename pathJoin convertOutcome).
Local Abbreviation chunksLoop := (chunksLoop basename pathJoin convertOutcome).
Local Abbreviation batchConvert :=
  (batchConvert basename pathJoin glob convertOutcome).

(** The tally of one group: it pushes and counts a prefix of the
    results, the whole group unless it stopped at a failure. *)
Lemma tallyLoop_prefix (continue : bool) : forall rs st,
  exists n,
    (n <= length rs)%nat /\
    stResults (tallyLoop continue rs st) = stResults st ++ take n rs /\
    stSuccessful (tallyLoop continue rs st)
      = (stSuccessful st + succeeded (take n rs))%nat /\
    stFailed (tallyLoop continue rs st)
      = (stFailed st + failures (take n rs))%nat /\
    launched (tallyLoop continue rs st) = launched st /\
    (n = length rs \/
     (continue = false /\ (0 < failures (take n rs))%nat)).
Proof.
  unfold succeeded, failures.
  induction rs as [|r rs IH]; intros st; cbn [tallyLoop].
  - exists 0%nat. simpl. rewrite app_nil_r, !Nat.add_0_r. auto 10.
  - destruct (success r) eqn:Hr.
    + destruct (IH {| stResults := stResults st ++ [r];
                      stSuccessful := S (stSuccessful st);
                      stFailed := stFailed st; launched := launched st |})
        as (n & Hn & H1 & H2 & H3 & H4 & H5).
      exists (S n). cbn [stResults stSuccessful stFailed launched] in *.
      rewrite H1, H2, H3, H4. simpl. rewrite Hr. simpl.
      rewrite <- app_assoc. repeat split; try lia; auto.
      all: destruct H5 as [->|H5]; [left; reflexivity|right; exact H5].
    + destruct continue; cbn [negb].
      * destruct (IH {| stResults := stResults st ++ [r];
                        stSuccessful := stSuccessful st;
                        stFailed := S (stFailed st); launched := launched st |})
          as (n & Hn & H1 & H2 & H3 & H4 & H5).
        exists (S n). cbn [stResults stSuccessful stFailed launched] in *.
        rewrite H1, H2, H3, H4. simpl. rewrite Hr. simpl.
        rewrite <- app_assoc. repeat split; try lia; auto.
        all: destruct H5 as [->|[H5 _]]; [left; reflexivity|discriminate].
      * exists 1%nat. cbn [stResults stSuccessful stFailed launched].
        simpl. rewrite Hr. simpl. rewrite take_0.
        repeat split; try lia; auto. all: right; split; [reflexivity|lia].
Qed.

Lemma succeeded_app (a b : list ConversionResult) :
  succeeded (a ++ b) = (succeeded a + succeeded b)%nat.
Proof. unfold succeeded. rewrite List.filter_app, length_app. reflexivity. Qed.

Lemma failures_app (a b : list ConversionResult) :
  failures (a ++ b) = (failures a + failures b)%nat.
Proof. unfold failures. rewrite List.filter_app, length_app. reflexivity. Qed.

Lemma tally_total (rs : list ConversionResult) :
  (succeeded rs + failures rs = length rs)%nat.
Proof.
  unfold succeeded, failures. induction rs as [|r rs IH]; simpl; [reflexivity|].
  destruct (success r); simpl; lia.
Qed.

Lemma failures_zero (rs : list ConversionResult) :
  failures rs = 0%nat <-> Forall (fun r => success r = true) rs.
Proof.
  unfold failures. induction rs as [|r rs IH]; simpl.
  - split; [constructor|reflexivity].
  - destruct (success r) eqn:Hr; simpl.
    + rewrite IH. split; [intros H; constructor; assumption|].
      intros H. apply Forall_cons in H. tauto.
    + split; [discriminate|]. intros H. apply Forall_cons in H.
      destruct H as [H _]. congruence.
Qed.

(** ** [Promise.all] *)

Lemma allResolved_Some {A} (outcomes : list (Exc A)) (values : list A) :
  allResolved outcomes = Some values <-> outcomes = map Ok values.
Proof.
  revert values. induction outcomes as [|[a|msg] outcomes IH]; intros values;
    cbn [allResolved].
  - split; [intros [= <-]; reflexivity|].
    destruct values; [reflexivity|discriminate].
  - destruct (allResolved outcomes) as [vs|].
    + split.
      * intros [= <-]. cbn [map]. f_equal. apply IH. reflexivity.
      * destruct values as [|v values]; [discriminate|]. cbn [map].
        intros [= -> H]. apply IH in H. congruence.
    + split; [discriminate|].
      destruct values as [|v values]; [discriminate|]. cbn [map].
      intros [= -> H]. apply IH in H. discriminate.
  - split; [discriminate|]. destruct values; discriminate.
Qed.

Lemma rejections_In {A} (outcomes : list (Exc A)) (reason : jsstring) :
  In reason (rejections outcomes) <-> In (Throw reason) outcomes.
Proof.
  induction outcomes as [|[a|msg] outcomes IH]; cbn [rejections]; simpl.
  - tauto.
  - rewrite IH. split; [tauto|]. intros [H|H]; [discriminate|exact H].
  - rewrite IH. split; (intros [H|H]; [left; congruence|right; exact H]).
Qed.

Lemma allResolved_None {A} (outcomes : list (Exc A)) :
  allResolved outcomes = None -> rejections outcomes <> [].
Proof.
  induction outcomes as [|[a|msg] outcomes IH]; cbn [allResolved rejections].
  - discriminate.
  - destruct (allResolved outcomes); [discriminate|]. intros _. apply IH.
    reflexivity.
  - intros _. discriminate.
Qed.

Lemma take_map_Ok {A} (n : nat) (values : list A) :
  take n (map (@Ok A) values) = map Ok (take n values).
Proof.
  revert n. induction values as [|v values IH]; intros [|n]; simpl;
    try reflexivity. f_equal. apply IH.
Qed.

Lemma take_map_outcomeFor (o : BatchConversionOptions) (n : nat)
    (l : list jsstring) :
  take n (map (outcomeFor o) l) = map (outcomeFor o) (take n l).
Proof.
  revert n. induction l as [|x l IH]; intros [|n]; simpl; try reflexivity.
  f_equal. apply IH.
Qed.

Lemma map_Ok_inj {A} (a b : list A) : map (@Ok A) a = map Ok b -> a = b.
Proof.
  revert b. induction a as [|x a IH]; intros [|y b]; simpl; try discriminate.
  - reflexivity.
  - intros [= -> H]. f_equal. apply IH, H.
Qed.

Lemma resolved_all (o : BatchConversionOptions) (files : list jsstring)
    (values : list ConversionResult) :
  map (outcomeFor o) files = map Ok values ->
  Forall (fun f => resolves o f = true) files.
Proof.
  revert values. induction files as [|f files IH]; intros [|v values]; simpl;
    try discriminate; [constructor|].
  intros [= Hf H]. constructor; [|eapply IH; exact H].
  unfold BatchSpec.resolves. rewrite Hf. reflexivity.
Qed.

(** The loop over the groups, relative to the state it starts in.  It
    launches some first groups and pushes and counts the results of a
    prefix of what it launched.  When it ends without a rejection,
    every launched conversion has returned, and unless it stopped at a
    failure it has launched every group and pushed every result.  When
    it ends with a rejection, the reasons are those of launched
    conversions that reject. *)
Lemma chunksLoop_delta (o : BatchConversionOptions) : forall chunks st,
  (stFailed st = 0%nat \/ default false (continueOnError o) = true) ->
  exists m n values,
    (m <= length chunks)%nat /\
    (n <= length (concat (take m chunks)))%nat /\
    launched (chunksLoop o chunks st).1 = launched st ++ concat (take m chunks) /\
    map Ok values = map (outcomeFor o) (take n (concat (take m chunks))) /\
    stResults (chunksLoop o chunks st).1 = stResults st ++ values /\
    stSuccessful (chunksLoop o chunks st).1
      = (stSuccessful st + succeeded values)%nat /\
    stFailed (chunksLoop o chunks st).1 = (stFailed st + failures values)%nat /\
    match (chunksLoop o chunks st).2 with
    | None =>
        Forall (fun f => resolves o f = true) (concat (take m chunks)) /\
        ((stFailed (chunksLoop o chunks st).1 = 0%nat
          \/ default false (continueOnError o) = true) ->
         m = length chunks /\ n = length (concat chunks))
    | Some reasons =>
        reasons <> [] /\
        forall reason, In reason reasons ->
          exists f, In f (concat (take m chunks)) /\ outcomeFor o f = Throw reason
    end.
Proof.
  induction chunks as [|c chunks IH]; intros st Hf; cbn [Converter.chunksLoop].
  - exists 0%nat, 0%nat, []. cbn [fst snd take concat length map].
    unfold succeeded, failures. simpl. rewrite !app_nil_r, !Nat.add_0_r.
    repeat split; auto.
  - fold (outcomeFor o).
    set (st0 := {| stResults := stResults st; stSuccessful := stSuccessful st;
                   stFailed := stFailed st; launched := launched st ++ c |}).
    destruct (allResolved (map (outcomeFor o) c)) as [cr|] eqn:Hall.
    + apply allResolved_Some in Hall.
      destruct (tallyLoop_prefix (default false (continueOnError o)) cr st0)
        as (k & Hk & H1 & H2 & H3 & H4 & H5).
      set (st1 := tallyLoop (default false (continueOnError o)) cr st0) in *.
      cbn [stResults stSuccessful stFailed launched st0] in H1, H2, H3, H4.
      assert (Hlen : length cr = length c).
      { apply (f_equal (@length _)) in Hall. rewrite !length_map in Hall. lia. }
      rewrite Hlen in Hk, H5.
      destruct (negb (default false (continueOnError o)) && (0 <? stFailed st1)%nat)
        eqn:Hbreak.
      * apply andb_true_iff in Hbreak. destruct Hbreak as [Hc Hpos].
        apply negb_true_iff in Hc. apply Nat.ltb_lt in Hpos.
        exists 1%nat, k, (take k cr). cbn [fst snd take concat length].
        rewrite app_nil_r. split; [lia|]. split; [exact Hk|].
        split; [exact H4|].
        split; [rewrite <- take_map_Ok, <- Hall, take_map_outcomeFor; reflexivity|].
        split; [exact H1|]. split; [exact H2|]. split; [exact H3|].
        split; [eapply resolved_all; exact Hall|].
        intros [H0|Ht]; [lia|congruence].
      * assert (Hfull : k = length c /\
                        (stFailed st1 = 0%nat
                         \/ default false (continueOnError o) = true)).
        { apply andb_false_iff in Hbreak. destruct Hbreak as [Hc|Hz].
          - apply negb_false_iff in Hc. split; [|right; exact Hc].
            destruct H5 as [->|[H5 _]]; [reflexivity|congruence].
          - apply Nat.ltb_ge in Hz. split; [|left; lia].
            destruct H5 as [->|[_ H5]]; [reflexivity|]. rewrite H3 in Hz. lia. }
        destruct Hfull as [-> Hf1]. rewrite <- Hlen, firstn_all in H1, H2, H3.
        destruct (IH st1 Hf1) as (m & n & vs & L0 & L1 & L2 & L3 & L4 & L5 & L6 & L7).
        exists (S m), (length c + n)%nat, (cr ++ vs).
        cbn [take concat length].
        rewrite take_app_add', !map_app, succeeded_app, failures_app by reflexivity.
        split; [lia|]. split; [rewrite length_app; lia|].
        split; [rewrite L2, H4, <- app_assoc; reflexivity|].
        split; [rewrite <- L3, Hall; reflexivity|].
        split; [rewrite L4, H1, <- app_assoc; reflexivity|].
        split; [rewrite L5, H2; lia|]. split; [rewrite L6, H3; lia|].
        destruct (chunksLoop o chunks st1).2 as [reasons|].
        -- destruct L7 as [Hne Hin]. split; [exact Hne|].
           intros reason Hr. destruct (Hin reason Hr) as (f & Hf' & Ho).
           exists f. split; [apply in_or_app; right; exact Hf'|exact Ho].
        -- destruct L7 as [Hres Hend]. split.
           ++ apply Forall_app. split; [eapply resolved_all; exact Hall|exact Hres].
           ++ intros He. destruct (Hend He) as [-> ->].
              rewrite length_app. split; reflexivity.
    + exists 1%nat, 0%nat, []. cbn [fst snd take concat length map].
      unfold succeeded, failures. simpl. rewrite !app_nil_r, !Nat.add_0_r.
      split; [lia|]. split; [lia|]. split; [reflexivity|].
      split; [reflexivity|]. split; [reflexivity|]. split; [reflexivity|].
      split; [reflexivity|]. split; [apply allResolved_None; exact Hall|].
      intros reason Hr. apply rejections_In in Hr.
      apply in_map_iff in Hr. destruct Hr as (f & Ho & Hf'). eauto.
Qed.

(** What the groups cover: the whole array, except that with [NaN]
    they hold nothing. *)
Lemma chunkArray_covers {T} (array : list T) (size : number) chunks :
  chunkArray array size = Some chunks ->
  (size <> NaN -> concat chunks = array) /\
  (size = NaN -> concat chunks = []).
Proof.
  intros Hrun. destruct size as [|[|]|z].
  - rewrite chunkArray_nan in Hrun. injection Hrun as <-.
    split; [congruence|]. intros _. destruct array; reflexivity.
  - split; [|discriminate]. intros _. destruct array as [|x array].
    + cbn in Hrun. injection Hrun as <-. reflexivity.
    + unfold chunkArray in Hrun. cbn [chunkLoop length numLt numAdd] in Hrun.
      destruct (0 <? Z.of_nat (S (length array))) eqn:Hlt;
        [|apply Z.ltb_ge in Hlt; lia].
      rewrite BatchClaims.chunkLoop_diverges_infinity in Hrun. discriminate.
  - rewrite chunkArray_infinity in Hrun. injection Hrun as <-.
    split; [|discriminate]. intros _. destruct array; [reflexivity|].
    cbn [concat]. apply app_nil_r.
  - split; [|discriminate]. intros _.
    apply (BatchClaims.chunkArray_concat _ _ _ Hrun).
Qed.

Lemma batchConvert_delta (o : BatchConversionOptions) outcome launchedFiles :
  batchConvert o = Some (outcome, launchedFiles) ->
  exists m n values chunks,
    chunkArray (uniqueFiles glob o) (default (Int 3) (concurrency o))
      = Some chunks /\
    launchedFiles = concat (take m chunks) /\
    (n <= length launchedFiles)%nat /\
    map Ok values = map (outcomeFor o) (take n launchedFiles) /\
    match outcome with
    | Resolved res =>
        total res = length (uniqueFiles glob o) /\
        results res = values /\
        successful res = succeeded values /\
        failed res = failures values /\
        Forall (fun f => resolves o f = true) launchedFiles /\
        ((failed res = 0%nat \/ default false (continueOnError o) = true) ->
         launchedFiles = concat chunks /\ n = length launchedFiles)
    | Rejected reasons =>
        reasons <> [] /\
        forall reason, In reason reasons ->
          exists f, In f launchedFiles /\ outcomeFor o f = Throw reason
    end.
Proof.
  unfold Converter.batchConvert.
  destruct (chunkArray (uniqueFiles glob o) (default (Int 3) (concurrency o)))
    as [chunks|] eqn:Hchunks; [|discriminate].
  cbn [mbind option_bind].
  destruct (chunksLoop_delta o chunks
              {| stResults := []; stSuccessful := 0; stFailed := 0; launched := [] |}
              (or_introl eq_refl))
    as (m & n & values & L0 & L1 & L2 & L3 & L4 & L5 & L6 & L7).
  destruct (chunksLoop o chunks _) as [st rejected].
  cbn [fst snd stResults stSuccessful stFailed launched app] in *.
  intros [= <- <-]. exists m, n, values, chunks.
  split; [reflexivity|]. split; [exact L2|]. rewrite L2.
  split; [exact L1|]. split; [exact L3|].
  destruct rejected as [reasons|].
  - exact L7.
  - cbn [total results successful failed]. destruct L7 as [Hres Hend].
    split; [reflexivity|]. split; [exact L4|]. split; [exact L5|].
    split; [exact L6|]. split; [exact Hres|].
    intros He. destruct (Hend He) as [-> ->].
    rewrite firstn_all. split; reflexivity.
Qed.

Lemma launched_prefix {T} (m : nat) (chunks : list (list T)) :
  concat chunks = concat (take m chunks) ++ concat (drop m chunks).
Proof. rewrite <- (take_drop m chunks) at 1. apply concat_app. Qed.

(** Whenever [batchConvert] returns a result, with whatever options:
    the conversions it launched are a prefix of the files of the batch,
    each launched once, and all of them have returned; the results are,
    in order, those of a prefix of the launched files; [successful] and
    [failed] count exactly the returned results and add up to their
    number; [total] is the number of files.  When the concurrency is
    not [NaN] and no failure was counted, or [continueOnError] is set,
    every file was converted and every result is returned.  When the
    concurrency is [NaN], no conversion is launched and no result is
    returned. *)
Theorem batchConvert_accounting (o : BatchConversionOptions) res launchedFiles :
  batchConvert o = Some (Resolved res, launchedFiles) ->
  total res = length (uniqueFiles glob o) /\
  (exists rest, uniqueFiles glob o = launchedFiles ++ rest) /\
  NoDup launchedFiles /\
  Forall (fun f => resolves o f = true) launchedFiles /\
  (exists n, map Ok (results res) = map (outcomeFor o) (take n launchedFiles)) /\
  successful res = succeeded (results res) /\
  failed res = failures (results res) /\
  (successful res + failed res = length (results res))%nat /\
  (length (results res) <= total res)%nat /\
  (default (Int 3) (concurrency o) <> NaN ->
   (failed res = 0%nat \/ default false (continueOnError o) = true) ->
   launchedFiles = uniqueFiles glob o /\
   map Ok (results res) = map (outcomeFor o) (uniqueFiles glob o)) /\
  (default (Int 3) (concurrency o) = NaN ->
   launchedFiles = [] /\ results res = []).
Proof.
  intros H. apply batchConvert_delta in H.
  destruct H as (m & n & values & chunks & Hchunks & -> & Hn & Hvals
                 & Ht & Hr & Hs & Hf & Hres & Hend).
  destruct (chunkArray_covers _ _ _ Hchunks) as [Hcover Hnan].
  assert (Hpre : exists rest,
            uniqueFiles glob o = concat (take m chunks) ++ rest).
  { destruct (number_nan_dec (default (Int 3) (concurrency o))) as [He|Hne].
    - pose proof (Hnan He) as Hnil. rewrite (launched_prefix m) in Hnil.
      apply app_eq_nil in Hnil. destruct Hnil as [-> _]. eauto.
    - rewrite <- (Hcover Hne). exists (concat (drop m chunks)).
      apply launched_prefix. }
  split; [exact Ht|]. split; [exact Hpre|]. split.
  { destruct (uniqueFrom_spec (concat (map glob (patterns o))) ∅) as (Hnd & _).
    fold (uniqueFiles glob o) in Hnd. destruct Hpre as [rest Hp].
    rewrite Hp in Hnd. apply NoDup_app in Hnd. tauto. }
  split; [exact Hres|]. rewrite Hr.
  split; [exists n; exact Hvals|]. split; [exact Hs|]. split; [exact Hf|].
  split; [rewrite Hs, Hf; apply tally_total|].
  assert (Hlen : length values = n).
  { apply (f_equal (@length _)) in Hvals.
    rewrite !length_map, length_take in Hvals. lia. }
  split.
  { destruct Hpre as [rest Hp]. rewrite Ht, Hp, length_app. lia. }
  split.
  - intros Hne He. destruct (Hend He) as [E1 E2].
    rewrite <- (Hcover Hne), <- E1. split; [reflexivity|].
    rewrite Hvals, E2, firstn_all. reflexivity.
  - intros He. pose proof (Hnan He) as Hnil. rewrite (launched_prefix m) in Hnil.
    apply app_eq_nil in Hnil. destruct Hnil as [Hl _]. rewrite Hl in *.
    split; [reflexivity|]. simpl in Hn. destruct values; [reflexivity|].
    simpl in Hlen. lia.
Qed.

(** With [continueOnError] and a concurrency that is not [NaN]: when
    every conversion of the batch returns, [batchConvert] returns every
    result in the order of the files and the tallies count the
    successful and the failed ones; when a conversion rejects,
    [batchConvert] rejects, with reasons of launched conversions. *)
Theorem batchConvert_continue_on_error (o : BatchConversionOptions) chunks :
  continueOnError o = Some true ->
  default (Int 3) (concurrency o) <> NaN ->
  chunkArray (uniqueFiles glob o) (default (Int 3) (concurrency o)) = Some chunks ->
  (forall values,
     map Ok values = map (outcomeFor o) (uniqueFiles glob o) ->
     batchConvert o =
       Some (Resolved {| total := length (uniqueFiles glob o);
                         successful := succeeded values;
                         failed := failures values;
                         results := values |},
             uniqueFiles glob o)) /\
  (Exists (fun f => resolves o f = false) (uniqueFiles glob o) ->
   exists reasons launchedFiles,
     batchConvert o = Some (Rejected reasons, launchedFiles) /\
     reasons <> [] /\
     forall reason, In reason reasons ->
       exists f, In f launchedFiles /\ outcomeFor o f = Throw reason).
Proof.
  intros Hc Hne Hchunks.
  destruct (chunkArray_covers _ _ _ Hchunks) as [Hcover _].
  specialize (Hcover Hne).
  assert (Hrun : exists outcome launchedFiles,
            batchConvert o = Some (outcome, launchedFiles)).
  { unfold Converter.batchConvert. rewrite Hchunks. cbn [mbind option_bind].
    destruct (chunksLoop o chunks _) as [st rejected]. eauto. }
  destruct Hrun as (outcome & launchedFiles & Hrun).
  pose proof (batchConvert_delta o outcome launchedFiles Hrun) as Hd.
  destruct Hd as (m & n & vals & chunks' & Hchunks' & Hl & Hn & Hvals & Hout).
  rewrite Hchunks in Hchunks'. injection Hchunks' as <-.
  assert (Hsub : forall f, In f launchedFiles -> In f (uniqueFiles glob o)).
  { intros f Hf. rewrite <- Hcover, (launched_prefix m chunks), <- Hl.
    apply in_or_app. left. exact Hf. }
  split.
  - intros values Hall. destruct outcome as [res|reasons].
    + destruct Hout as (Ht & Hr & Hs & Hf & _ & Hend).
      destruct Hend as [E1 E2]; [right; rewrite Hc; reflexivity|].
      rewrite Hrun, E1, Hcover. rewrite E1, Hcover in E2, Hvals.
      rewrite E2, firstn_all, <- Hall in Hvals. apply map_Ok_inj in Hvals.
      subst vals. destruct res as [t s f r]; simpl in *. subst. reflexivity.
    + exfalso. destruct Hout as [Hnil Hin].
      destruct reasons as [|reason reasons]; [congruence|].
      destruct (Hin reason (or_introl eq_refl)) as (f & Hf & Ho).
      apply Hsub in Hf. symmetry in Hall. apply resolved_all in Hall.
      rewrite List.Forall_forall in Hall. specialize (Hall f Hf).
      unfold BatchSpec.resolves in Hall. rewrite Ho in Hall. discriminate.
  - intros Hex. destruct outcome as [res|reasons].
    + exfalso. destruct Hout as (_ & _ & _ & _ & Hres & Hend).
      destruct Hend as [E1 _]; [right; rewrite Hc; reflexivity|].
      rewrite E1, Hcover in Hres. apply List.Exists_exists in Hex.
      destruct Hex as (f & Hf & Hno). rewrite List.Forall_forall in Hres.
      rewrite (Hres f Hf) in Hno. discriminate.
    + exists reasons, launchedFiles. split; [exact Hrun|]. exact Hout.
Qed.

Lemma failures_positive (o : BatchConversionOptions) :
  forall l values,
    map Ok values = map (outcomeFor o) l ->
    (0 < failures values)%nat <->
    Exists (fun f => failsToConvert o f = true) l.
Proof.
  induction l as [|f l IH]; intros [|v values]; cbn [map]; try discriminate.
  - intros _. unfold failures. cbn [List.filter length].
    split; [lia|]. intros H. inversion H.
  - intros [= Hv H]. specialize (IH values H).
    rewrite List.Exists_cons. unfold BatchSpec.failsToConvert at 1.
    rewrite <- Hv. unfold failures in *. cbn [List.filter].
    destruct (success v); cbn [negb length].
    + rewrite IH. split; [tauto|]. intros [Hx|Hx]; [discriminate|exact Hx].
    + split; [intros _; left; reflexivity|lia].
Qed.

(** The exit code of the [batch] command once [batchConvert] has
    settled.  It is 1 exactly when a launched conversion rejects, or
    [--continue-on-error] was not given and a launched conversion
    returns a failure.  When [--concurrency] does not start with a
    number, no conversion is launched and the code is 0, whatever the
    files would do.  Otherwise, when every conversion of the batch
    returns, the code is 1 exactly when [--continue-on-error] was not
    given and some file of the batch fails to convert. *)
Theorem batch_exit_code (patternArgs : list jsstring) (flags : BatchFlags)
    outcome launchedFiles :
  batchConvert (batchOptionsOf patternArgs flags) = Some (outcome, launchedFiles) ->
  (batchExitCode (flagContinueOnError flags) outcome = 0 \/
   batchExitCode (flagContinueOnError flags) outcome = 1) /\
  (batchExitCode (flagContinueOnError flags) outcome = 1 <->
   Exists (fun f => resolves (batchOptionsOf patternArgs flags) f = false)
     launchedFiles \/
   (default false (flagContinueOnError flags) = false /\
    Exists (fun f => failsToConvert (batchOptionsOf patternArgs flags) f = true)
      launchedFiles)) /\
  (parseInt10 (flagConcurrency flags) = NaN ->
   launchedFiles = [] /\
   batchExitCode (flagContinueOnError flags) outcome = 0) /\
  (parseInt10 (flagConcurrency flags) <> NaN ->
   Forall (fun f => resolves (batchOptionsOf patternArgs flags) f = true)
     (uniqueFiles glob (batchOptionsOf patternArgs flags)) ->
   (batchExitCode (flagContinueOnError flags) outcome = 1 <->
    default false (flagContinueOnError flags) = false /\
    Exists (fun f => failsToConvert (batchOptionsOf patternArgs flags) f = true)
      (uniqueFiles glob (batchOptionsOf patternArgs flags)))).
Proof.
  set (o := batchOptionsOf patternArgs flags). intros Hrun.
  pose proof (batchConvert_delta o outcome launchedFiles Hrun) as Hd.
  destruct Hd as (m & n & vals & chunks & Hchunks & Hl & Hn & Hvals & Hout).
  destruct (chunkArray_covers _ _ _ Hchunks) as [Hcover Hnan].
  change (default (Int 3) (concurrency o)) with (parseInt10 (flagConcurrency flags))
    in Hcover, Hnan.
  change (continueOnError o) with (flagContinueOnError flags) in Hout.
  pose proof (failures_positive o) as Hfails.
  assert (Hiff : batchExitCode (flagContinueOnError flags) outcome = 1 <->
            Exists (fun f => resolves o f = false) launchedFiles \/
            (default false (flagContinueOnError flags) = false /\
             Exists (fun f => failsToConvert o f = true) launchedFiles)).
  { destruct outcome as [res|reasons]; cbn [batchExitCode].
    - destruct Hout as (Ht & Hr & Hs & Hf & Hres & Hend).
      assert (Hnone : ~ Exists (fun f => resolves o f = false) launchedFiles).
      { intros Hex. apply List.Exists_exists in Hex.
        destruct Hex as (f & Hin & Hno). rewrite List.Forall_forall in Hres.
        rewrite (Hres f Hin) in Hno. discriminate. }
      destruct (default false (flagContinueOnError flags)) eqn:Hc; cbn [negb].
      + rewrite andb_false_r. split; [discriminate|].
        intros [Hx|[Hx _]]; [contradiction|discriminate].
      + rewrite andb_true_r. destruct (0 <? failed res)%nat eqn:Hpos.
        * split; [|reflexivity]. intros _. right. split; [reflexivity|].
          apply Nat.ltb_lt in Hpos. rewrite Hf in Hpos.
          apply (Hfails _ _ Hvals) in Hpos.
          apply List.Exists_exists in Hpos. destruct Hpos as (f & Hin & Hfl).
          apply List.Exists_exists. exists f. split; [|exact Hfl].
          rewrite <- (take_drop n launchedFiles). apply in_or_app. left. exact Hin.
        * split; [discriminate|]. intros [Hx|[_ Hx]]; [contradiction|].
          exfalso. apply Nat.ltb_ge in Hpos.
          destruct Hend as [_ E2]; [left; lia|].
          rewrite E2, firstn_all in Hvals.
          apply (Hfails _ _ Hvals) in Hx. lia.
    - split; [|reflexivity]. intros _. left. destruct Hout as [Hne Hin].
      destruct reasons as [|reason reasons]; [congruence|].
      destruct (Hin reason (or_introl eq_refl)) as (f & Hf & Ho).
      apply List.Exists_exists. exists f. split; [exact Hf|].
      unfold BatchSpec.resolves. rewrite Ho. reflexivity. }
  split.
  { destruct outcome as [res|reasons]; cbn [batchExitCode]; [|auto].
    destruct ((0 <? failed res)%nat && negb (default false (flagContinueOnError flags)));
      auto. }
  split; [exact Hiff|]. split.
  - intros He. pose proof (Hnan He) as Hnil.
    rewrite (launched_prefix m), <- Hl in Hnil.
    apply app_eq_nil in Hnil. destruct Hnil as [Hnil _].
    split; [exact Hnil|].
    destruct (batchExitCode (flagContinueOnError flags) outcome =? 1) eqn:Hcode.
    + apply Z.eqb_eq in Hcode. apply Hiff in Hcode. rewrite Hnil in Hcode.
      destruct Hcode as [Hx|[_ Hx]]; inversion Hx.
    + apply Z.eqb_neq in Hcode.
      destruct outcome as [res|reasons]; cbn [batchExitCode] in *; [|congruence].
      destruct ((0 <? failed res)%nat && negb (default false (flagContinueOnError flags)));
        [congruence|reflexivity].
  - intros Hne Hall. specialize (Hcover Hne).
    assert (Hsub : forall f, In f launchedFiles -> In f (uniqueFiles glob o)).
    { intros f Hf. rewrite <- Hcover, (launched_prefix m chunks), <- Hl.
      apply in_or_app. left. exact Hf. }
    rewrite Hiff. split.
    + intros [Hx|[Hc Hx]].
      * exfalso. apply List.Exists_exists in Hx. destruct Hx as (f & Hin & Hno).
        rewrite List.Forall_forall in Hall. rewrite (Hall f (Hsub f Hin)) in Hno.
        discriminate.
      * split; [exact Hc|]. apply List.Exists_exists in Hx.
        destruct Hx as (f & Hin & Hfl). apply List.Exists_exists.
        exists f. split; [apply Hsub; exact Hin|exact Hfl].
    + intros [Hc Hx]. right. split; [exact Hc|].
      destruct outcome as [res|reasons].
      * destruct Hout as (Ht & Hr & Hs & Hf & Hres & Hend).
        destruct (Nat.eq_dec (failed res) 0%nat) as [H0|Hpos].
        -- destruct Hend as [E1 _]; [left; exact H0|].
           rewrite E1, Hcover. exact Hx.
        -- rewrite Hf in Hpos.
           assert (Hp : (0 < failures vals)%nat) by lia.
           apply (Hfails _ _ Hvals) in Hp.
           apply List.Exists_exists in Hp. destruct Hp as (f & Hin & Hfl).
           apply List.Exists_exists. exists f. split; [|exact Hfl].
           rewrite <- (take_drop n launchedFiles). apply in_or_app. left. exact Hin.
      * exfalso. destruct Hout as [Hnil Hin].
        destruct reasons as [|reason reasons]; [congruence|].
        destruct (Hin reason (or_introl eq_refl)) as (f & Hf & Ho).
        rewrite List.Forall_forall in Hall. specialize (Hall f (Hsub f Hf)).
        unfold BatchSpec.resolves in Hall. fold o in Hall. rewrite Ho in Hall.
        discriminate.
Qed.
End Batch.

Lemma uniqueFiles_once_witness :
  exists earlier later,
    uniqueFiles (fun _ => [fileA; fileB; fileA; fileC; fileB]) sampleBatch
    = earlier ++ fileC :: later /\
    forall g, In g earlier <-> In g [fileA; fileB; fileA].
Proof.
  apply (uniqueFiles_once (fun _ => [fileA; fileB; fileA; fileC; fileB])
           sampleBatch) with (after := [fileB]).
  - reflexivity.
  - intros H. vm_compute in H. repeat destruct H as [H|H]; try discriminate H.
    exact H.
Defined.

Lemma chunkArray_partition_witness :
  (exists chunks,
     chunkArray [fileA; fileB; fileC] (Int 2) = Some chunks /\
     concat chunks = [fileA; fileB; fileC] /\
     Forall (fun c => 0 < Z.of_nat (length c) <= 2) chunks /\
     (forall k c, chunks !! k = Some c -> (S k < length chunks)%nat ->
                  Z.of_nat (length c) = 2)) /\
  chunkArray [fileA; fileB; fileC] NaN = Some [[]].
Proof.
  split.
  - apply (chunkArray_partition [fileA; fileB; fileC] (Int 2)); [reflexivity|lia].
  - apply (chunkArray_partition [fileA; fileB; fileC] NaN). reflexivity.
Defined.

Lemma batchConvert_accounting_witness :
  batchConvert (fun p => p) joinWithSlash sampleGlob
    (returning sampleConvertResult) sampleBatch
    = Some (Resolved stoppedResult, [fileA; fileB; fileC]) /\
  total stoppedResult = length (uniqueFiles sampleGlob sampleBatch) /\
  (exists rest, uniqueFiles sampleGlob sampleBatch = [fileA; fileB; fileC] ++ rest) /\
  NoDup [fileA; fileB; fileC] /\
  (successful stoppedResult + failed stoppedResult
   = length (results stoppedResult))%nat.
Proof.
  split; [vm_compute; reflexivity|].
  destruct (batchConvert_accounting (fun p => p) joinWithSlash sampleGlob
              (returning sampleConvertResult) sampleBatch stoppedResult
              [fileA; fileB; fileC])
    as (H1 & H2 & H3 & _ & _ & _ & _ & H8 & _); [vm_compute; reflexivity|].
  split; [exact H1|]. split; [exact H2|]. split; [exact H3|exact H8].
Defined.

Lemma batchConvert_continue_on_error_witness :
  batchConvert (fun p => p) joinWithSlash sampleGlob
    (returning sampleConvertResult) continuingBatch
  = Some (Resolved {| total := 3; successful := 2; failed := 1;
                      results := [sampleConvertResult fileA None;
                                  sampleConvertResult fileB None;
                                  sampleConvertResult fileC None] |},
          [fileA; fileB; fileC]) /\
  exists reasons launchedFiles,
    batchConvert (fun p => p) joinWithSlash sampleGlob rejectingOutcome
      continuingBatch = Some (Rejected reasons, launchedFiles) /\
    reasons <> [].
Proof.
  split.
  - destruct (batchConvert_continue_on_error (fun p => p) joinWithSlash sampleGlob
                (returning sampleConvertResult) continuingBatch
                [[fileA; fileB]; [fileC]]
                eq_refl ltac:(discriminate) ltac:(vm_compute; reflexivity))
      as [Hall _].
    apply (Hall [sampleConvertResult fileA None; sampleConvertResult fileB None;
                 sampleConvertResult fileC None]).
    vm_compute. reflexivity.
  - destruct (batchConvert_continue_on_error (fun p => p) joinWithSlash sampleGlob
                rejectingOutcome continuingBatch [[fileA; fileB]; [fileC]]
                eq_refl ltac:(discriminate) ltac:(vm_compute; reflexivity))
      as [_ Hrej].
    destruct Hrej as (reasons & launchedFiles & Hrun & Hne & _).
    + apply List.Exists_exists. exists fileB. split; [vm_compute; tauto|].
      vm_compute. reflexivity.
    + exists reasons, launchedFiles. split; [exact Hrun|exact Hne].
Defined.

Lemma batch_exit_code_witness :
  (batchConvert (fun p => p) joinWithSlash sampleGlob
     (returning sampleConvertResult)
     (batchOptionsOf [lit "/docs/*.md"] plainFlags)
   = Some (Resolved stoppedResult, [fileA; fileB; fileC]) /\
   batchExitCode (flagContinueOnError plainFlags) (Resolved stoppedResult) = 1) /\
  (batchConvert (fun p => p) joinWithSlash sampleGlob
     (returning sampleConvertResult)
     (batchOptionsOf [lit "/docs/*.md"] wordFlags)
   = Some (Resolved {| total := 3; successful := 0; failed := 0; results := [] |},
           []) /\
   batchExitCode (flagContinueOnError wordFlags)
     (Resolved {| total := 3; successful := 0; failed := 0; results := [] |}) = 0).
Proof.
  split.
  - split; [vm_compute; reflexivity|].
    destruct (batch_exit_code (fun p => p) joinWithSlash sampleGlob
                (returning sampleConvertResult) [lit "/docs/*.md"] plainFlags
                (Resolved stoppedResult) [fileA; fileB; fileC])
      as (_ & Hiff & _); [vm_compute; reflexivity|].
    apply Hiff. right. split; [reflexivity|].
    apply List.Exists_exists. exists fileA. split; [left; reflexivity|].
    vm_compute. reflexivity.
  - split; [vm_compute; reflexivity|].
    destruct (batch_exit_code (fun p => p) joinWithSlash sampleGlob
                (returning sampleConvertResult) [lit "/docs/*.md"] wordFlags
                (Resolved {| total := 3; successful := 0; failed := 0;
                             results := [] |}) [])
      as (_ & _ & Hnan & _); [vm_compute; reflexivity|].
    apply Hnan. vm_compute. reflexivity.
Defined.

End BatchFacts.

(* ===================================================================== *)
(** * converter.ts: further properties of the watcher                     *)
(* ===================================================================== *)
Module WatchFacts.
Import JS Eff Converter ConverterSpec BatchSpec Samples MoreSamples.

Lemma timersMatch_step (s s' : WatchState) (ev : Event) :
  watchInv s -> timersMatch s -> step s ev = Some s' -> timersMatch s'.
Proof.
  intros (H1 & H2 & H3) Hm Hstep f t. destruct ev as [g|u| |]; simpl in Hstep.
  - destruct (subscribed s); [|discriminate]. injection Hstep as <-.
    unfold handleChange; cbn [timers pending].
    destruct (decide (g = f)) as [->|Hgf].
    + rewrite lookup_insert_eq. split.
      * intros [= <-]. apply lookup_insert_eq.
      * intros Hl. destruct (decide (nextTimer s = t)) as [->|Hne]; [reflexivity|].
        rewrite lookup_insert_ne in Hl by exact Hne. exfalso.
        destruct (timers s !! f) as [existing|] eqn:He.
        -- unfold clearTimeout in Hl.
           destruct (decide (existing = t)) as [->|Hne'].
           ++ rewrite lookup_delete_eq in Hl. discriminate.
           ++ rewrite lookup_delete_ne in Hl by exact Hne'.
              apply H1 in Hl. congruence.
        -- apply H1 in Hl. congruence.
    + rewrite lookup_insert_ne by exact Hgf. split.
      * intros Hl. pose proof (proj1 (Hm f t) Hl) as Hp.
        assert (Hlt : (t < nextTimer s)%nat) by (eapply H2; exact Hp).
        rewrite lookup_insert_ne by lia.
        destruct (timers s !! g) as [existing|] eqn:He; [|exact Hp].
        unfold clearTimeout. rewrite lookup_delete_ne; [exact Hp|].
        intros ->. apply Hm in He. congruence.
      * intros Hl. destruct (decide (nextTimer s = t)) as [Heq|Hne].
        -- rewrite Heq, lookup_insert_eq in Hl. congruence.
        -- rewrite lookup_insert_ne in Hl by exact Hne. apply Hm.
           destruct (timers s !! g) as [existing|]; [|exact Hl].
           unfold clearTimeout in Hl.
           destruct (decide (existing = t)) as [->|Hne'].
           ++ rewrite lookup_delete_eq in Hl. discriminate.
           ++ rewrite lookup_delete_ne in Hl by exact Hne'. exact Hl.
  - destruct (pending s !! u) as [g|] eqn:Hp; [|discriminate].
    injection Hstep as <-. unfold timerCallback; cbn [timers pending].
    pose proof (H1 _ _ Hp) as Hg. split.
    + intros Hl. destruct (decide (g = f)) as [->|Hgf].
      * rewrite lookup_delete_eq in Hl. discriminate.
      * rewrite lookup_delete_ne in Hl by exact Hgf.
        rewrite lookup_delete_ne; [apply Hm; exact Hl|].
        intros ->. apply Hm in Hl. congruence.
    + intros Hl. destruct (decide (u = t)) as [->|Hne].
      * rewrite lookup_delete_eq in Hl. discriminate.
      * rewrite lookup_delete_ne in Hl by exact Hne.
        rewrite lookup_delete_ne; [apply Hm; exact Hl|].
        intros ->. apply H1 in Hl. congruence.
  - injection Hstep as <-. cbn [timers pending]. apply Hm.
  - destruct (0 <? closing s)%nat; [|discriminate]. injection Hstep as <-.
    unfold closeRest; cbn [timers pending]. rewrite lookup_empty.
    split; [discriminate|]. intros Hl. exfalso.
    rewrite WatchClaims.clearAll_lookup in Hl.
    destruct (decide (t ∈ map snd (map_to_list (timers s)))) as [Hin|Hin];
      [discriminate|].
    apply Hin. apply H1 in Hl. apply list_elem_of_fmap. exists (f, t).
    split; [reflexivity|]. apply elem_of_map_to_list. exact Hl.
Qed.

Lemma timersMatch_run : forall evs s s',
  watchInv s -> timersMatch s -> runEvents s evs = Some s' -> timersMatch s'.
Proof.
  induction evs as [|ev evs IH]; intros s s' Hinv Hm Hrun; simpl in Hrun.
  - injection Hrun as <-. exact Hm.
  - destruct (step s ev) as [s1|] eqn:Hs; [|discriminate].
    eapply IH; [eapply WatchClaims.step_inv; eassumption| |exact Hrun].
    eapply timersMatch_step; eassumption.
Qed.

(** In every run of the watcher, the map [timers] holds exactly the
    timeouts that are pending: an entry is removed when its timeout
    fires or is superseded, never left behind.  So at most one timeout
    is pending for a file, whatever the number of its changes. *)
Theorem watch_one_timer_per_file (evs : list Event) (s : WatchState) :
  runEvents watchInit evs = Some s ->
  timersMatch s /\
  (forall t1 t2 f,
     pending s !! t1 = Some f -> pending s !! t2 = Some f -> t1 = t2).
Proof.
  intros Hrun.
  assert (Hm : timersMatch s).
  { eapply timersMatch_run; [apply WatchClaims.watchInv_init| |exact Hrun].
    intros f t. unfold watchInit; cbn [timers pending].
    rewrite !lookup_empty. split; discriminate. }
  split; [exact Hm|]. intros t1 t2 f Hp1 Hp2.
  apply Hm in Hp1. apply Hm in Hp2. congruence.
Qed.

Lemma watch_one_timer_per_file_witness :
  exists s,
    runEvents watchInit [Change fileA; Change fileA; Change fileB; Change fileA]
      = Some s /\
    timersMatch s /\
    (forall t1 t2 f,
       pending s !! t1 = Some f -> pending s !! t2 = Some f -> t1 = t2).
Proof.
  destruct (runEvents watchInit
              [Change fileA; Change fileA; Change fileB; Change fileA])
    as [s|] eqn:Hrun; [|vm_compute in Hrun; discriminate].
  exists s. split; [reflexivity|].
  exact (watch_one_timer_per_file _ s Hrun).
Defined.

Lemma filter_file_app (file : jsstring) (l : list jsstring) (g : jsstring) :
  length (List.filter (fun f => bool_decide (f = file)) (l ++ [g]))
  = (length (List.filter (fun f => bool_decide (f = file)) l)
     + if bool_decide (g = file) then 1 else 0)%nat.
Proof.
  rewrite List.filter_app, length_app. simpl.
  destruct (bool_decide (g = file)); reflexivity.
Qed.

Lemma debounce_step (file : jsstring) (s s' : WatchState) (ev : Event) :
  watchInv s -> step s ev = Some s' ->
  (conversionsOf file s' + waiting file s'
   <= conversionsOf file s + waiting file s + changesOf file [ev])%nat.
Proof.
  intros (H1 & _ & _) Hstep. unfold conversionsOf, waiting, changesOf.
  destruct ev as [g|u| |]; simpl in Hstep; cbn [List.filter].
  - destruct (subscribed s); [|discriminate]. injection Hstep as <-.
    unfold handleChange; cbn [timers conversions].
    destruct (decide (g = file)) as [->|Hne].
    + rewrite lookup_insert_eq, bool_decide_eq_true_2 by reflexivity.
      simpl. destruct (timers s !! file); lia.
    + rewrite lookup_insert_ne by exact Hne.
      rewrite bool_decide_eq_false_2 by exact Hne. simpl. lia.
  - destruct (pending s !! u) as [g|] eqn:Hp; [|discriminate].
    injection Hstep as <-. unfold timerCallback; cbn [timers conversions].
    rewrite filter_file_app. simpl.
    destruct (decide (g = file)) as [->|Hne].
    + rewrite lookup_delete_eq, bool_decide_eq_true_2 by reflexivity.
      rewrite (H1 _ _ Hp). lia.
    + rewrite lookup_delete_ne by exact Hne.
      rewrite bool_decide_eq_false_2 by exact Hne. lia.
  - injection Hstep as <-. cbn [timers conversions]. simpl. lia.
  - destruct (0 <? closing s)%nat; [|discriminate]. injection Hstep as <-.
    unfold closeRest; cbn [timers conversions]. rewrite lookup_empty. simpl.
    destruct (timers s !! file); lia.
Qed.

Lemma changesOf_cons (file : jsstring) (ev : Event) (evs : list Event) :
  changesOf file (ev :: evs) = (changesOf file [ev] + changesOf file evs)%nat.
Proof.
  unfold changesOf. cbn [List.filter].
  destruct (match ev with Change f => bool_decide (f = file) | _ => false end);
    reflexivity.
Qed.

Lemma debounce_run (file : jsstring) : forall evs s s',
  watchInv s -> runEvents s evs = Some s' ->
  (conversionsOf file s' + waiting file s'
   <= conversionsOf file s + waiting file s + changesOf file evs)%nat.
Proof.
  induction evs as [|ev evs IH]; intros s s' Hinv Hrun; simpl in Hrun.
  - injection Hrun as <-. unfold changesOf. simpl. lia.
  - destruct (step s ev) as [s1|] eqn:Hs; [|discriminate].
    pose proof (debounce_step file s s1 ev Hinv Hs) as H1.
    pose proof (IH s1 s' (WatchClaims.step_inv s s1 ev Hinv Hs) Hrun) as H2.
    rewrite changesOf_cons. lia.
Qed.

(** Debouncing: in every run of the watcher, the conversions of a file
    started so far, plus one if a timer is still waiting for it, are at
    most the changes of that file.  A file that never changed is never
    converted, and changes that arrive while a timer waits start no
    conversion of their own. *)
Theorem watch_debounce (file : jsstring) (evs : list Event) (s : WatchState) :
  runEvents watchInit evs = Some s ->
  (conversionsOf file s + waiting file s <= changesOf file evs)%nat.
Proof.
  intros Hrun.
  pose proof (debounce_run file evs watchInit s WatchClaims.watchInv_init Hrun) as H.
  assert (H0 : (conversionsOf file watchInit + waiting file watchInit = 0)%nat).
  { unfold conversionsOf, waiting, watchInit. cbn [timers conversions].
    rewrite lookup_empty. reflexivity. }
  lia.
Qed.

Lemma watch_debounce_witness :
  exists s,
    runEvents watchInit
      [Change fileA; Change fileA; Change fileA; Fire 2%nat; Change fileA]
      = Some s /\
    conversions s = [fileA] /\
    (conversionsOf fileA s + waiting fileA s
     <= changesOf fileA
          [Change fileA; Change fileA; Change fileA; Fire 2%nat; Change fileA])%nat.
Proof.
  destruct (runEvents watchInit
              [Change fileA; Change fileA; Change fileA; Fire 2%nat; Change fileA])
    as [s|] eqn:Hrun; [|vm_compute in Hrun; discriminate].
  exists s. split; [reflexivity|]. split.
  - vm_compute in Hrun. injection Hrun as <-. reflexivity.
  - exact (watch_debounce fileA _ s Hrun).
Defined.

(** A burst of changes of one file, with no timer firing in between,
    starts no conversion and leaves one timeout pending for the file:
    the one set by the last change.  When it fires, the file is
    converted once and nothing is left waiting for it. *)
Theorem watch_burst (file : jsstring) (k : nat) (s : WatchState) :
  watchInv s -> timersMatch s -> subscribed s = true ->
  exists s' t,
    runEvents s (repeat (Change file) (S k)) = Some s' /\
    conversions s' = conversions s /\
    t = (nextTimer s + k)%nat /\
    timers s' !! file = Some t /\
    (forall u, pending s' !! u = Some file -> u = t) /\
    exists s'',
      step s' (Fire t) = Some s'' /\
      conversions s'' = conversions s ++ [file] /\
      timers s'' !! file = None /\
      (forall u, pending s'' !! u <> Some file).
Proof.
  revert s. induction k as [|k IH]; intros s Hinv Hm Hsub.
  - assert (Hinv1 : watchInv (handleChange file s)).
    { apply (WatchClaims.step_inv s _ (Change file) Hinv). simpl.
      rewrite Hsub. reflexivity. }
    assert (Hm1 : timersMatch (handleChange file s)).
    { apply (timersMatch_step s _ (Change file) Hinv Hm). simpl.
      rewrite Hsub. reflexivity. }
    assert (Ht : timers (handleChange file s) !! file = Some (nextTimer s))
      by apply lookup_insert_eq.
    pose proof (proj1 (Hm1 _ _) Ht) as Hp.
    exists (handleChange file s), (nextTimer s).
    cbn [repeat runEvents Converter.step]. rewrite Hsub, Hp.
    split; [reflexivity|]. split; [reflexivity|]. split; [lia|].
    split; [exact Ht|]. split.
    { intros u Hu. apply Hm1 in Hu. congruence. }
    eexists. split; [reflexivity|].
    unfold timerCallback. cbn [conversions timers pending].
    split; [reflexivity|]. split; [apply lookup_delete_eq|].
    intros u Hu. destruct (decide (nextTimer s = u)) as [Heq|Hne].
    + rewrite Heq, lookup_delete_eq in Hu. discriminate.
    + rewrite lookup_delete_ne in Hu by exact Hne.
      apply Hm1 in Hu. congruence.
  - assert (Hinv1 : watchInv (handleChange file s)).
    { apply (WatchClaims.step_inv s _ (Change file) Hinv). simpl.
      rewrite Hsub. reflexivity. }
    assert (Hm1 : timersMatch (handleChange file s)).
    { apply (timersMatch_step s _ (Change file) Hinv Hm). simpl.
      rewrite Hsub. reflexivity. }
    destruct (IH (handleChange file s) Hinv1 Hm1 Hsub)
      as (s' & t & Hrun & Hc & Ht & Hrest).
    exists s', t. cbn [repeat runEvents Converter.step]. rewrite Hsub.
    split; [exact Hrun|]. split; [exact Hc|].
    split; [rewrite Ht; cbn [nextTimer handleChange]; lia|]. exact Hrest.
Qed.

Lemma watch_burst_witness :
  watchInv watchInit /\ subscribed watchInit = true /\
  exists s' t,
    runEvents watchInit (repeat (Change fileA) 3) = Some s' /\
    conversions s' = conversions watchInit /\
    t = (nextTimer watchInit + 2)%nat /\
    timers s' !! fileA = Some t /\
    (forall u, pending s' !! u = Some fileA -> u = t) /\
    exists s'',
      step s' (Fire t) = Some s'' /\
      conversions s'' = conversions watchInit ++ [fileA] /\
      timers s'' !! fileA = None /\
      (forall u, pending s'' !! u <> Some fileA).
Proof.
  split; [apply WatchClaims.watchInv_init|]. split; [reflexivity|].
  apply (watch_burst fileA 2 watchInit).
  - apply WatchClaims.watchInv_init.
  - intros f t. unfold watchInit; cbn [timers pending].
    rewrite !lookup_empty. split; discriminate.
  - reflexivity.
Defined.

End WatchFacts.

(* ===================================================================== *)
(** * pdf-generator.ts: the generator                                     *)
(* ===================================================================== *)
Module GeneratorFacts.
Import JS Eff Converter MermaidSpec PdfGen GeneratorSpec Samples MoreSamples
  GeneratorSamples.

Lemma app_ne_self (a b : jsstring) : b <> [] -> a ++ b <> a.
Proof.
  intros Hb He. apply (f_equal (@length N)) in He.
  rewrite length_app in He. destruct b; [congruence|simpl in He; lia].
Qed.

Section Generator.
Variable DEFAULT_STYLES : jsstring.
Variable styleOptions : StyleOptions.

Local Abbreviation loadCustomStyles := (loadCustomStyles DEFAULT_STYLES styleOptions).
Local Abbreviation generateBody := (generateBody DEFAULT_STYLES styleOptions).
Local Abbreviation generate := (generate DEFAULT_STYLES styleOptions).
Local Abbreviation generateAll := (generateAll DEFAULT_STYLES styleOptions).

(** [loadCustomStyles], path by path. *)
Lemma loadCustomStyles_paths (e : GenEnv) (s : GenState) :
  loadCustomStyles e s =
    let inlined (c : jsstring) :=
      match Config.truthyStr (css styleOptions) with
      | Some inline => c ++ [10%N] ++ inline
      | None => c
      end in
    if fileLoaded styleOptions e then
      match readCss e with
      | Ok fileCss =>
          (Ok tt, withCss (inlined (DEFAULT_STYLES ++ [10%N] ++ fileCss)) s)
      | Throw msg => (Throw msg, s)
      end
    else (Ok tt, withCss (inlined (customCss s)) s).
Proof.
  destruct s as [c t p].
  cbv beta iota zeta delta [PdfGen.loadCustomStyles mbind mret G_bind G_ret
    gbind gret gcall getState setCustomCss fileLoaded withCss].
  cbn [customCss tempFiles pdfCalls].
  destruct (truthy (cssFile styleOptions)); cbn [andb].
  - destruct (cssExists e).
    + destruct (readCss e) as [f|msg]; [|reflexivity].
      destruct (Config.truthyStr (css styleOptions)); reflexivity.
    + destruct (Config.truthyStr (css styleOptions)); reflexivity.
  - destruct (Config.truthyStr (css styleOptions)); reflexivity.
Qed.

Lemma truthyStr_truthy (o : option jsstring) :
  truthy o = match Config.truthyStr o with Some _ => true | None => false end.
Proof. destruct o as [[|c l]|]; reflexivity. Qed.

Lemma truthyStr_nonempty (o : option jsstring) (x : jsstring) :
  Config.truthyStr o = Some x -> x <> [] /\ o = Some x.
Proof.
  destruct o as [[|c l]|]; try discriminate. intros [= <-].
  split; [discriminate|reflexivity].
Qed.

(** On a generator whose stylesheet is still the built-in one, loading
    the styles leaves something else exactly when a file was read or an
    inline text is given. *)
Lemma load_first (e : GenEnv) (s : GenState) :
  customCss s = DEFAULT_STYLES ->
  exists c,
    loadCustomStyles e s
      = (if fileLoaded styleOptions e
         then match readCss e with
              | Ok _ => Ok tt
              | Throw msg => Throw msg
              end
         else Ok tt,
         withCss c s) /\
    (stylesOk styleOptions e = false -> c = customCss s) /\
    (stylesOk styleOptions e = true ->
     bool_decide (c = DEFAULT_STYLES) = negb (customised styleOptions e)).
Proof.
  intros Hs. rewrite loadCustomStyles_paths. cbv zeta.
  unfold stylesOk, customised. rewrite (truthyStr_truthy (css styleOptions)).
  destruct (fileLoaded styleOptions e); cbn [negb orb].
  - destruct (readCss e) as [f|msg]; cbn [returned].
    + eexists. split; [reflexivity|]. split; [discriminate|]. intros _.
      apply bool_decide_eq_false.
      destruct (Config.truthyStr (css styleOptions)) as [i|].
      * rewrite <- !app_assoc. apply app_ne_self. discriminate.
      * apply app_ne_self. discriminate.
    + exists (customCss s). destruct s; split; [reflexivity|].
      split; [reflexivity|discriminate].
  - eexists. split; [reflexivity|].
    split; [discriminate|]. intros _.
    destruct (Config.truthyStr (css styleOptions)) as [i|]; cbn [negb].
    + apply bool_decide_eq_false. rewrite Hs. apply app_ne_self. discriminate.
    + apply bool_decide_eq_true. exact Hs.
Qed.

(** The first [generate] of a generator returns a result on every
    path, never throws, and reports success exactly when its
    environment worked: the styles load, the temporary stylesheet (if
    one is needed) is created, written and removed, and [mdToPdf]
    returns a file name, or a content that is then written.  A failure
    carries a message, a success none. *)
Theorem generate_success_iff (e : GenEnv) (markdownPath outputPath : jsstring)
    (s : GenState) :
  customCss s = DEFAULT_STYLES ->
  exists r s',
    generate e markdownPath outputPath s = (Ok r, s') /\
    genSuccess r = generateOk styleOptions e /\
    (genSuccess r = true -> genError r = None) /\
    (genSuccess r = false -> exists msg, genError r = Some msg).
Proof.
  intros Hs. destruct (load_first e s Hs) as (c & Hload & Hbad & Hgood).
  cbv beta iota zeta delta [PdfGen.generate PdfGen.generateBody gtryCatch
    mbind mret G_bind G_ret gbind gret gcall getState setTempFiles logCall].
  rewrite Hload. unfold generateOk, stylesheetOk, pdfOk.
  unfold stylesOk in *.
  destruct (fileLoaded styleOptions e); cbn [negb orb andb] in *;
    [destruct (readCss e) as [f|msg]; cbn [returned andb] in *|].
  2:{ eexists _, _. split; [reflexivity|]. cbn.
      split; [reflexivity|]. split; [discriminate|eauto]. }
  all: cbn [withCss customCss tempFiles pdfCalls];
    rewrite (Hgood eq_refl);
    destruct (customised styleOptions e); cbn [negb orb andb];
    [destruct (tmpFile e) as [p|msg]; cbn [returned andb];
     [destruct (writeCss e) as [[]|msg]; cbn [returned andb];
      [rewrite (truthyStr_truthy (Some p));
       destruct (Config.truthyStr (Some p)) as [p'|]; cbn [negb orb andb]|]|]|].
  all: try (destruct (mdToPdfCall e) as [[[fn ct]|]|msg];
            cbn [filename content];
            try (destruct (removeCss e) as [[]|msg']; cbn [returned andb]);
            try (destruct (truthy fn); cbn [orb];
                 try (destruct ct as [b|];
                      try (destruct (writeOutput e) as [[]|msg'']; cbn [returned]))));
    eexists _, _; (split; [reflexivity|]); cbn;
    (split; [reflexivity|]);
    (split; [intros; first [reflexivity|discriminate]
            |intros; first [discriminate|eauto]]).
Qed.

(** The first [generate] calls [mdToPdf] at most once, and not at all
    when the styles cannot be loaded or the temporary stylesheet cannot
    be created and written.  It hands over a stylesheet exactly when a
    style file was read or an inline text is given: the comparison of
    [customCss] with the built-in text detects just that. *)
Theorem generate_stylesheet (e : GenEnv) (markdownPath outputPath : jsstring)
    (s : GenState) :
  customCss s = DEFAULT_STYLES ->
  let s' := (generate e markdownPath outputPath s).2 in
  if reachesPdf styleOptions e then
    exists call,
      pdfCalls s' = pdfCalls s ++ [call] /\
      source call = markdownPath /\ dest call = outputPath /\
      stylesheet call =
        (if customised styleOptions e
         then match tmpFile e with
              | Ok p => if truthy (Some p) then Some [p] else None
              | Throw _ => None
              end
         else None)
  else pdfCalls s' = pdfCalls s.
Proof.
  intros Hs. destruct (load_first e s Hs) as (c & Hload & Hbad & Hgood).
  cbv beta iota zeta delta [PdfGen.generate PdfGen.generateBody gtryCatch
    mbind mret G_bind G_ret gbind gret gcall getState setTempFiles logCall].
  rewrite Hload. unfold reachesPdf. unfold stylesOk in *.
  destruct (fileLoaded styleOptions e); cbn [negb orb andb] in *;
    [destruct (readCss e) as [f|msg]; cbn [returned andb] in *|].
  2:{ reflexivity. }
  all: cbn [withCss customCss tempFiles pdfCalls];
    rewrite (Hgood eq_refl);
    destruct (customised styleOptions e); cbn [negb orb andb];
    [destruct (tmpFile e) as [p|msg]; cbn [returned andb];
     [destruct (writeCss e) as [[]|msg]; cbn [returned andb];
      [rewrite (truthyStr_truthy (Some p));
       destruct (Config.truthyStr (Some p)) as [p'|] eqn:Hp;
       [apply truthyStr_nonempty in Hp; destruct Hp as [_ [= ->]]|]|]|]|].
  all: try reflexivity.
  all: destruct (mdToPdfCall e) as [[[fn ct]|]|msg];
    cbn [filename content];
    try (destruct (removeCss e) as [[]|msg']);
    try (destruct (truthy fn);
         try (destruct ct as [b|];
              try (destruct (writeOutput e) as [[]|msg''])));
    cbn [snd pdfCalls]; eexists; (split; [reflexivity|]); cbn; auto.
Qed.

(** When the temporary stylesheet of the first [generate] was created
    (under a path that is not empty) and the writing of it, [mdToPdf] or its removal then throws,
    [generate] reports a failure and leaves the stylesheet behind: it
    is removed on the way through only. *)
Theorem generate_abandons_stylesheet (e : GenEnv)
    (markdownPath outputPath : jsstring) (s : GenState) (p : jsstring) :
  customCss s = DEFAULT_STYLES ->
  stylesOk styleOptions e = true ->
  customised styleOptions e = true ->
  tmpFile e = Ok p ->
  truthy (Some p) = true ->
  stylesheetAbandoned e = true ->
  exists msg s',
    generate e markdownPath outputPath s
      = (Ok {| genSuccess := false; genError := Some msg |}, s') /\
    p ∈ tempFiles s'.
Proof.
  intros Hs Hok Hc Hp Htr Hab.
  destruct (load_first e s Hs) as (c & Hload & _ & Hgood).
  specialize (Hgood Hok). rewrite Hc in Hgood. cbn [negb] in Hgood.
  cbv beta iota zeta delta [PdfGen.generate PdfGen.generateBody gtryCatch
    mbind mret G_bind G_ret gbind gret gcall getState setTempFiles logCall].
  rewrite Hload. unfold stylesOk in Hok. unfold stylesheetAbandoned in Hab.
  rewrite Hp in *. cbn [returned andb] in Hab.
  assert (Hres : (if fileLoaded styleOptions e
                  then match readCss e with
                       | Ok _ => Ok tt
                       | Throw msg => Throw msg
                       end
                  else @Ok unit tt) = Ok tt).
  { destruct (fileLoaded styleOptions e); [|reflexivity].
    destruct (readCss e); [reflexivity|discriminate]. }
  rewrite Hres. cbn [withCss customCss tempFiles pdfCalls]. rewrite Hgood.
  destruct (writeCss e) as [[]|msg]; cbn [returned andb] in Hab.
  2:{ eexists _, _. split; [reflexivity|]. cbn [tempFiles]. set_solver. }
  destruct (Config.truthyStr (Some p)) as [p'|] eqn:Hp';
    [apply truthyStr_nonempty in Hp'; destruct Hp' as [_ [= ->]]|].
  - destruct (mdToPdfCall e) as [pdf|msg]; cbn [returned andb] in Hab.
    2:{ eexists _, _. split; [reflexivity|]. cbn [tempFiles]. set_solver. }
    destruct (removeCss e) as [[]|msg]; cbn [returned negb] in Hab;
      [discriminate|].
    eexists _, _. split; [reflexivity|]. cbn [tempFiles]. set_solver.
  - destruct p; discriminate.
Qed.

(** [generate] changes the field [customCss] through
    [loadCustomStyles] only. *)
Lemma generate_customCss (e : GenEnv) (markdownPath outputPath : jsstring)
    (s : GenState) :
  customCss (generate e markdownPath outputPath s).2
  = customCss (loadCustomStyles e s).2.
Proof.
  cbv beta iota zeta delta [PdfGen.generate PdfGen.generateBody gtryCatch
    mbind mret G_bind G_ret gbind gret gcall getState setTempFiles logCall].
  destruct (loadCustomStyles e s) as [[[]|msg] s1]; [|reflexivity].
  cbn [snd].
  destruct (bool_decide (customCss s1 = DEFAULT_STYLES)).
  - cbn [Config.truthyStr].
    destruct (mdToPdfCall e) as [[[fn ct]|]|msg]; cbn [filename content];
      try (destruct (truthy fn);
           try (destruct ct as [b|];
                try (destruct (writeOutput e) as [[]|msg''])));
      reflexivity.
  - destruct (tmpFile e) as [p|msg]; [|reflexivity].
    destruct (writeCss e) as [[]|msg]; [|reflexivity].
    destruct (Config.truthyStr (Some p)) as [p'|];
      destruct (mdToPdfCall e) as [[[fn ct]|]|msg]; cbn [filename content];
      try (destruct (removeCss e) as [[]|msg']);
      try (destruct (truthy fn);
           try (destruct ct as [b|];
                try (destruct (writeOutput e) as [[]|msg''])));
      reflexivity.
Qed.

Lemma appended_S (inline : jsstring) (k : nat) :
  appended inline (S k) = [10%N] ++ inline ++ appended inline k.
Proof. unfold appended. simpl. reflexivity. Qed.

(** With an inline text and no style file, every [generate] on the
    same generator appends the inline text to [customCss] once more,
    whatever the outcome of the call: after [k] calls the built-in
    stylesheet is followed by [k] copies. *)
Theorem generate_inline_css_accumulates (inline : jsstring)
    (calls : list (GenEnv * jsstring * jsstring)) (s : GenState) :
  truthy (cssFile styleOptions) = false ->
  Config.truthyStr (css styleOptions) = Some inline ->
  customCss (generateAll calls s).2
  = customCss s ++ appended inline (length calls).
Proof.
  intros Hf Hi. revert s.
  induction calls as [|[[e m] o] calls IH]; intros s.
  - unfold appended. simpl. rewrite app_nil_r. reflexivity.
  - cbn [PdfGen.generateAll length].
    pose proof (generate_customCss e m o s) as Hc.
    destruct (generate e m o s) as [r s1]. cbn [snd] in Hc.
    specialize (IH s1). destruct (generateAll calls s1) as [rs s2].
    cbn [snd] in *. rewrite IH, Hc, loadCustomStyles_paths. cbv zeta.
    unfold fileLoaded. rewrite Hf, Hi. cbn [andb snd withCss customCss].
    rewrite appended_S, <- !app_assoc. reflexivity.
Qed.

(** With a style file that is read, [customCss] is rebuilt from the
    built-in stylesheet by every call, so the calls do not add up. *)
Lemma generate_css_file_rebuilt (fileCss : jsstring) (e : GenEnv)
    (markdownPath outputPath : jsstring) (s : GenState) :
  fileLoaded styleOptions e = true ->
  readCss e = Ok fileCss ->
  customCss (generate e markdownPath outputPath s).2
  = DEFAULT_STYLES ++ [10%N] ++ fileCss
    ++ match Config.truthyStr (css styleOptions) with
       | Some inline => [10%N] ++ inline
       | None => []
       end.
Proof.
  intros Hf Hr. rewrite generate_customCss, loadCustomStyles_paths.
  cbv zeta. rewrite Hf, Hr. cbn [snd withCss customCss].
  destruct (Config.truthyStr (css styleOptions)).
  - rewrite <- !app_assoc. reflexivity.
  - rewrite app_nil_r. reflexivity.
Qed.

End Generator.

Lemma generate_success_iff_witness :
  customCss (constructed sampleDefaultStyles) = sampleDefaultStyles /\
  exists r s',
    generate sampleDefaultStyles inlineStyle genEnvOk fileA (mdToPdf fileA)
      (constructed sampleDefaultStyles) = (Ok r, s') /\
    genSuccess r = generateOk inlineStyle genEnvOk /\
    (genSuccess r = true -> genError r = None) /\
    (genSuccess r = false -> exists msg, genError r = Some msg).
Proof.
  split; [reflexivity|].
  apply (generate_success_iff sampleDefaultStyles inlineStyle genEnvOk fileA
           (mdToPdf fileA) (constructed sampleDefaultStyles)).
  reflexivity.
Defined.

Lemma generate_stylesheet_witness :
  customCss (constructed sampleDefaultStyles) = sampleDefaultStyles /\
  exists call,
    pdfCalls (generate sampleDefaultStyles inlineStyle genEnvOk fileA
                (mdToPdf fileA) (constructed sampleDefaultStyles)).2
    = pdfCalls (constructed sampleDefaultStyles) ++ [call] /\
    source call = fileA /\ dest call = mdToPdf fileA /\
    stylesheet call = Some [lit "/tmp/tmp-1.css"].
Proof.
  split; [reflexivity|].
  exact (generate_stylesheet sampleDefaultStyles inlineStyle genEnvOk fileA
           (mdToPdf fileA) (constructed sampleDefaultStyles) eq_refl).
Defined.

Lemma generate_abandons_stylesheet_witness :
  stylesheetAbandoned genEnvPdfThrows = true /\
  exists msg s',
    generate sampleDefaultStyles fileStyle genEnvPdfThrows fileA (mdToPdf fileA)
      (constructed sampleDefaultStyles)
    = (Ok {| genSuccess := false; genError := Some msg |}, s') /\
    lit "/tmp/tmp-1.css" ∈ tempFiles s'.
Proof.
  split; [reflexivity|].
  apply (generate_abandons_stylesheet sampleDefaultStyles fileStyle
           genEnvPdfThrows fileA (mdToPdf fileA)
           (constructed sampleDefaultStyles) (lit "/tmp/tmp-1.css"));
    reflexivity.
Defined.

Lemma generate_inline_css_accumulates_witness :
  customCss (generateAll sampleDefaultStyles inlineStyle
               [(genEnvOk, fileA, mdToPdf fileA);
                (genEnvPdfThrows, fileB, mdToPdf fileB);
                (genEnvOk, fileC, mdToPdf fileC)]
               (constructed sampleDefaultStyles)).2
  = sampleDefaultStyles ++ appended (lit "h1 { color: navy; }") 3.
Proof.
  apply (generate_inline_css_accumulates sampleDefaultStyles inlineStyle
           (lit "h1 { color: navy; }")
           [(genEnvOk, fileA, mdToPdf fileA);
            (genEnvPdfThrows, fileB, mdToPdf fileB);
            (genEnvOk, fileC, mdToPdf fileC)]
           (constructed sampleDefaultStyles)); reflexivity.
Defined.

End GeneratorFacts.

(* ===================================================================== *)
(** * config.ts: the search for a configuration file                      *)
(* ===================================================================== *)
Module LoaderFacts.
Import JS Eff Config ConfigLoader GeneratorSpec Samples GeneratorSamples.

Section Search.
Variable resolve : jsstring -> jsstring.
Variable pathJoin : jsstring -> jsstring -> jsstring.
Variable dirname : jsstring -> jsstring.
Variable pathExists : jsstring -> bool.
Variable cwd : jsstring.

Local Abbreviation firstExisting := (firstExisting pathJoin pathExists).
Local Abbreviation searchLoop := (searchLoop pathJoin dirname pathExists).
Local Abbreviation configFileOf :=
  (configFileOf resolve pathJoin dirname pathExists cwd).
Local Abbreviation ancestor := (ancestor dirname).

Local Abbreviation noneIn := (noneIn pathJoin pathExists).

Lemma firstExisting_spec (dir : jsstring) (names : list jsstring) :
  match firstExisting dir names with
  | Some filePath =>
      exists i name,
        names !! i = Some name /\ filePath = pathJoin dir name /\
        pathExists filePath = true /\
        noneIn dir (take i names)
  | None => noneIn dir names
  end.
Proof.
  induction names as [|n names IH]; cbn [ConfigLoader.firstExisting].
  - intros name [].
  - destruct (pathExists (pathJoin dir n)) eqn:Hn.
    + exists 0%nat, n. split; [reflexivity|]. split; [reflexivity|].
      split; [exact Hn|]. intros name [].
    + destruct (firstExisting dir names) as [p|].
      * destruct IH as (i & name & Hi & Hp & He & Hbefore).
        exists (S i), name. split; [exact Hi|]. split; [exact Hp|].
        split; [exact He|]. intros m [<-|Hm]; [exact Hn|]. apply Hbefore, Hm.
      * intros m [<-|Hm]; [exact Hn|]. apply IH, Hm.
Qed.

Lemma ancestor_root (k : nat) (dir : jsstring) :
  dirname dir = dir -> ancestor k dir = dir.
Proof.
  intros Hd. induction k as [|k IH]; cbn [GeneratorSpec.ancestor];
    [reflexivity|]. rewrite Hd. exact IH.
Qed.

Lemma searchLoop_found : forall fuel start filePath,
  searchLoop fuel start = Some (Some filePath) ->
  exists k i name,
    (k < fuel)%nat /\
    CONFIG_FILE_NAMES !! i = Some name /\
    filePath = pathJoin (ancestor k start) name /\
    pathExists filePath = true /\
    noneIn (ancestor k start) (take i CONFIG_FILE_NAMES) /\
    (forall j, (j < k)%nat ->
       noneIn (ancestor j start) CONFIG_FILE_NAMES /\
       dirname (ancestor j start) <> ancestor j start).
Proof.
  induction fuel as [|fuel IH]; intros start filePath;
    cbn [ConfigLoader.searchLoop]; [discriminate|].
  pose proof (firstExisting_spec start CONFIG_FILE_NAMES) as Hfirst.
  destruct (firstExisting start CONFIG_FILE_NAMES) as [p|].
  - intros [= <-]. destruct Hfirst as (i & name & Hi & Hp & He & Hbefore).
    exists 0%nat, i, name. cbn [GeneratorSpec.ancestor].
    split; [lia|]. split; [exact Hi|]. split; [exact Hp|].
    split; [exact He|]. split; [exact Hbefore|]. intros j Hj. lia.
  - cbv zeta.
    destruct (bool_decide (dirname start = start)) eqn:Hroot; [discriminate|].
    apply bool_decide_eq_false in Hroot. intros Hrun.
    destruct (IH _ _ Hrun) as (k & i & name & Hk & Hi & Hp & He & Hbefore & Hup).
    exists (S k), i, name. cbn [GeneratorSpec.ancestor].
    split; [lia|]. split; [exact Hi|]. split; [exact Hp|].
    split; [exact He|]. split; [exact Hbefore|].
    intros [|j] Hj; cbn [GeneratorSpec.ancestor].
    + split; [exact Hfirst|exact Hroot].
    + apply Hup. lia.
Qed.

Lemma configFileOf_search (fuel : nat) (configPath searchDir : option jsstring) :
  truthy configPath = false ->
  configFileOf fuel configPath searchDir
  = searchLoop fuel (match truthyStr searchDir with
                     | Some d => resolve d
                     | None => cwd
                     end).
Proof.
  intros Hc. unfold ConfigLoader.configFileOf.
  assert (Hn : truthyStr configPath = None)
    by (destruct configPath as [[|c l]|]; [reflexivity|discriminate|reflexivity]).
  rewrite Hn. reflexivity.
Qed.

Lemma searchLoop_returns : forall n fuel start,
  dirname (ancestor n start) = ancestor n start ->
  (n < fuel)%nat ->
  exists r,
    searchLoop fuel start = Some r /\
    (r = None <->
     forall k, (k <= n)%nat -> noneIn (ancestor k start) CONFIG_FILE_NAMES).
Proof.
  induction n as [|n IH]; intros fuel start Hroot Hfuel;
    (destruct fuel as [|fuel]; [lia|]); cbn [ConfigLoader.searchLoop];
    pose proof (firstExisting_spec start CONFIG_FILE_NAMES) as Hfirst;
    destruct (firstExisting start CONFIG_FILE_NAMES) as [p|].
  - eexists. split; [reflexivity|]. split; [discriminate|].
    intros Hnone. exfalso.
    destruct Hfirst as (i & name & Hi & Hp & He & _).
    specialize (Hnone 0%nat (Nat.le_refl _) name
                  (proj1 (list_elem_of_In _ _) (list_elem_of_lookup_2 _ _ _ Hi))).
    cbn [GeneratorSpec.ancestor] in Hnone. congruence.
  - cbn [GeneratorSpec.ancestor] in Hroot. cbv zeta.
    rewrite bool_decide_eq_true_2 by exact Hroot.
    eexists. split; [reflexivity|]. split; [|reflexivity].
    intros _ k Hk. assert (k = 0%nat) as -> by lia. exact Hfirst.
  - eexists. split; [reflexivity|]. split; [discriminate|].
    intros Hnone. exfalso.
    destruct Hfirst as (i & name & Hi & Hp & He & _).
    specialize (Hnone 0%nat (Nat.le_0_l _) name
                  (proj1 (list_elem_of_In _ _) (list_elem_of_lookup_2 _ _ _ Hi))).
    cbn [GeneratorSpec.ancestor] in Hnone. congruence.
  - cbv zeta. cbn [GeneratorSpec.ancestor] in Hroot.
    destruct (bool_decide (dirname start = start)) eqn:Hd.
    + apply bool_decide_eq_true in Hd.
      eexists. split; [reflexivity|]. split; [|reflexivity].
      intros _ k Hk. rewrite (ancestor_root k start Hd). exact Hfirst.
    + destruct (IH fuel (dirname start) Hroot ltac:(lia)) as (r & Hr & Hiff).
      exists r. split; [exact Hr|]. rewrite Hiff. split.
      * intros Hnone [|k] Hk; cbn [GeneratorSpec.ancestor];
          [exact Hfirst|apply Hnone; lia].
      * intros Hnone k Hk. apply (Hnone (S k)). lia.
Qed.
End Search.

Section Load.
Variable resolve : jsstring -> jsstring.
Variable pathJoin : jsstring -> jsstring -> jsstring.
Variable dirname : jsstring -> jsstring.
Variable pathExists : jsstring -> bool.
Variable cwd : jsstring.
Variable loadConfigFile : jsstring -> Exc (option ConfigFile).

Local Abbreviation loadConfig :=
  (loadConfig resolve pathJoin dirname pathExists cwd loadConfigFile).
Local Abbreviation ancestor := (ancestor dirname).
Local Abbreviation noneIn := (noneIn pathJoin pathExists).

(** Without an explicit path, whatever [loadConfig] returns other than
    [null] (a configuration, or the error of loading one) comes from
    the nearest directory, from the start directory upwards, that has
    one of the four configuration files, and among the files of that
    directory from the first in the order of [CONFIG_FILE_NAMES]. *)
Theorem loadConfig_nearest (fuel : nat) (configPath searchDir : option jsstring)
    (outcome : Exc (option ConfigFile)) :
  truthy configPath = false ->
  loadConfig fuel configPath searchDir = Some outcome ->
  outcome <> Ok None ->
  let startDir := match truthyStr searchDir with
                  | Some d => resolve d
                  | None => cwd
                  end in
  exists k i name,
    CONFIG_FILE_NAMES !! i = Some name /\
    pathExists (pathJoin (ancestor k startDir) name) = true /\
    outcome = loadConfigFile (pathJoin (ancestor k startDir) name) /\
    noneIn (ancestor k startDir) (take i CONFIG_FILE_NAMES) /\
    (forall j, (j < k)%nat -> noneIn (ancestor j startDir) CONFIG_FILE_NAMES).
Proof.
  intros Hc. unfold ConfigLoader.loadConfig.
  rewrite (configFileOf_search resolve pathJoin dirname pathExists cwd _ _ _ Hc).
  destruct (searchLoop pathJoin dirname pathExists fuel _) as [[p|]|] eqn:Hrun;
    [|intros [= <-] Hne; congruence|discriminate].
  intros [= <-] _.
  destruct (searchLoop_found pathJoin dirname pathExists _ _ _ Hrun)
    as (k & i & name & _ & Hi & Hp & He & Hbefore & Hup).
  exists k, i, name. subst p. split; [exact Hi|]. split; [exact He|].
  split; [reflexivity|]. split; [exact Hbefore|].
  intros j Hj. apply Hup, Hj.
Qed.

(** When the root is reached after [n] steps upwards, [loadConfig]
    returns within [n + 1] rounds of its loop: [null] when none of the
    directories on the way has a configuration file, and otherwise what
    loading an existing file gives. *)
Theorem loadConfig_search_ends (n fuel : nat) (configPath searchDir : option jsstring) :
  truthy configPath = false ->
  let startDir := match truthyStr searchDir with
                  | Some d => resolve d
                  | None => cwd
                  end in
  dirname (ancestor n startDir) = ancestor n startDir ->
  (n < fuel)%nat ->
  exists outcome,
    loadConfig fuel configPath searchDir = Some outcome /\
    ((forall k, (k <= n)%nat -> noneIn (ancestor k startDir) CONFIG_FILE_NAMES) ->
     outcome = Ok None) /\
    (~ (forall k, (k <= n)%nat -> noneIn (ancestor k startDir) CONFIG_FILE_NAMES) ->
     exists filePath,
       pathExists filePath = true /\ outcome = loadConfigFile filePath).
Proof.
  intros Hc startDir Hroot Hfuel. unfold ConfigLoader.loadConfig.
  rewrite (configFileOf_search resolve pathJoin dirname pathExists cwd _ _ _ Hc).
  destruct (searchLoop_returns pathJoin dirname pathExists n fuel startDir
              Hroot Hfuel) as (r & Hr & Hiff).
  fold startDir. rewrite Hr. destruct r as [p|].
  - eexists. split; [reflexivity|]. split.
    + intros Hnone. apply Hiff in Hnone. discriminate.
    + intros _. exists p. split; [|reflexivity].
      destruct (searchLoop_found pathJoin dirname pathExists _ _ _ Hr)
        as (k & i & name & _ & _ & _ & He & _). exact He.
  - eexists. split; [reflexivity|]. split; [reflexivity|].
    intros Hsome. exfalso. apply Hsome, Hiff. reflexivity.
Qed.
End Load.

Lemma loadConfig_nearest_witness :
  truthy None = false /\
  loadConfig (fun p => p) sampleJoin sampleDirname sampleTreeTop (lit "/work/")
    sampleLoadConfigFile 10 None (Some (lit "/work/project/docs/"))
  = Some (Ok (Some landscapeFile)) /\
  exists k i name,
    CONFIG_FILE_NAMES !! i = Some name /\
    sampleTreeTop
      (sampleJoin (ancestor sampleDirname k (lit "/work/project/docs/")) name)
    = true /\
    Ok (Some landscapeFile)
    = sampleLoadConfigFile
        (sampleJoin (ancestor sampleDirname k (lit "/work/project/docs/")) name) /\
    noneIn sampleJoin sampleTreeTop
      (ancestor sampleDirname k (lit "/work/project/docs/"))
      (take i CONFIG_FILE_NAMES) /\
    (forall j, (j < k)%nat ->
       noneIn sampleJoin sampleTreeTop
         (ancestor sampleDirname j (lit "/work/project/docs/")) CONFIG_FILE_NAMES).
Proof.
  split; [reflexivity|]. split; [vm_compute; reflexivity|].
  apply (loadConfig_nearest (fun p => p) sampleJoin sampleDirname sampleTreeTop
           (lit "/work/") sampleLoadConfigFile 10 None
           (Some (lit "/work/project/docs/")) (Ok (Some landscapeFile))).
  - reflexivity.
  - vm_compute. reflexivity.
  - discriminate.
Defined.

Lemma loadConfig_search_ends_witness :
  sampleDirname (ancestor sampleDirname 3 (lit "/work/project/docs/"))
  = ancestor sampleDirname 3 (lit "/work/project/docs/") /\
  exists outcome,
    loadConfig (fun p => p) sampleJoin sampleDirname emptyTree (lit "/work/")
      sampleLoadConfigFile 4 None (Some (lit "/work/project/docs/"))
    = Some outcome /\
    ((forall k, (k <= 3)%nat ->
        noneIn sampleJoin emptyTree
          (ancestor sampleDirname k (lit "/work/project/docs/")) CONFIG_FILE_NAMES) ->
     outcome = Ok None) /\
    (~ (forall k, (k <= 3)%nat ->
          noneIn sampleJoin emptyTree
            (ancestor sampleDirname k (lit "/work/project/docs/"))
            CONFIG_FILE_NAMES) ->
     exists filePath,
       emptyTree filePath = true /\ outcome = sampleLoadConfigFile filePath).
Proof.
  split; [vm_compute; reflexivity|].
  apply (loadConfig_search_ends (fun p => p) sampleJoin sampleDirname emptyTree
           (lit "/work/") sampleLoadConfigFile 3 4 None
           (Some (lit "/work/project/docs/"))).
  - reflexivity.
  - vm_compute. reflexivity.
  - lia.
Defined.

End LoaderFacts.

(* ===================================================================== *)
(** * config.ts: further properties of [mergeConfig]                      *)
(* ===================================================================== *)
Module ConfigFacts.
Import JS Config ConfigSpec Samples.

Lemma mergeSub_default_lookup (fromFile fromCli : option object) (k : string) :
  default ∅ (mergeSub fromFile fromCli) !! k =
    match default ∅ fromCli !! k with
    | Some v => Some v
    | None => default ∅ fromFile !! k
    end.
Proof.
  destruct (mergeSub fromFile fromCli) as [m|] eqn:Hm.
  - cbn [from_option id]. apply (ConfigClaims.mergeSub_lookup _ _ k m Hm).
  - unfold mergeSub in Hm. destruct fromCli; [discriminate|]. subst fromFile.
    cbn [from_option id]. rewrite lookup_empty. reflexivity.
Qed.

Lemma read_default (o : option object) (k : string) :
  read o k = default VUndefined (default ∅ o !! k).
Proof.
  destruct o as [m|]; cbn [read from_option id]; [reflexivity|].
  rewrite lookup_empty. reflexivity.
Qed.

(** The merge is shallow and per key: in each of the three sub-objects
    a property of the caller's sub-object wins, with whatever value it
    has, and replaces the file's property as a whole; every other
    property of the file's sub-object is kept. *)
Theorem mergeConfig_shallow (fileConfig : option ConfigFile)
    (cliOptions : ConversionOptions) (k : string) :
  let file (get : ConfigFile -> option object) :=
    match fileConfig with Some fc => get fc | None => None end in
  let pick (fromFile fromCli : option object) :=
    match default ∅ fromCli !! k with
    | Some v => Some v
    | None => default ∅ fromFile !! k
    end in
  let merged := mergeConfig fileConfig cliOptions in
  default ∅ (pdf merged) !! k = pick (file filePdf) (pdf cliOptions) /\
  default ∅ (mermaid merged) !! k = pick (file fileMermaid) (mermaid cliOptions) /\
  default ∅ (style merged) !! k = pick (file fileStyle) (style cliOptions).
Proof.
  cbv zeta. cbn [mergeConfig pdf mermaid style].
  rewrite !mergeSub_default_lookup. auto.
Qed.

(** The [convert] command always builds [format], [margin] and
    [landscape] into the caller's PDF options and [theme] into the
    Mermaid options, from the flags or their defaults; so for these
    keys the merged configuration never has the value of the config
    file, while every other key of the file comes through. *)
Theorem cli_convert_overrides_file (fileConfig : option ConfigFile)
    (inputArg : jsstring) (f : ConvertFlags) :
  let merged := mergeConfig fileConfig (cliOptionsOf inputArg f) in
  read (pdf merged) "format" = VStr (flagFormat f) /\
  read (pdf merged) "landscape" = optBool (flagLandscape f) /\
  read (pdf merged) "margin"
    = VObj {[ "top" := VStr (flagMarginTop f);
              "bottom" := VStr (flagMarginBottom f);
              "left" := VStr (flagMarginLeft f);
              "right" := VStr (flagMarginRight f) ]} /\
  read (mermaid merged) "theme" = VStr (flagTheme f) /\
  (forall k, k <> "format" -> k <> "landscape" -> k <> "margin" ->
     read (pdf merged) k = read (filePdfOf fileConfig) k) /\
  (forall k, k <> "theme" ->
     read (mermaid merged) k
     = read (match fileConfig with Some fc => fileMermaid fc | None => None end) k).
Proof.
  cbv zeta. rewrite !read_default. cbn [mergeConfig pdf mermaid].
  rewrite !mergeSub_default_lookup.
  split; [reflexivity|]. split; [reflexivity|]. split; [reflexivity|].
  split; [reflexivity|]. split.
  - intros k H1 H2 H3. rewrite !read_default, mergeSub_default_lookup.
    cbn [cliOptionsOf pdf from_option id].
    rewrite !lookup_insert_ne by congruence.
    rewrite lookup_singleton_ne by congruence.
    unfold filePdfOf. reflexivity.
  - intros k H1. rewrite !read_default, mergeSub_default_lookup.
    cbn [cliOptionsOf mermaid from_option id].
    rewrite lookup_singleton_ne by congruence. reflexivity.
Qed.

(** The configurations of the repository's test of the merge have no
    property with the value [undefined]: there the PDF options follow
    the layers. *)
Lemma pdfPrecedence_without_undefined_witness :
  pdfPrecedence (Some testFileConfig) testCliOptions.
Proof.
  apply (ConfigClaims.pdfPrecedence_without_undefined (Some testFileConfig)
           testCliOptions).
  - intros m k [= <-] Hk. apply lookup_singleton_Some in Hk.
    destruct Hk as [_ Hk]. discriminate.
  - intros m k [= <-] Hk. apply lookup_insert_Some in Hk.
    destruct Hk as [[_ Hk]|[_ Hk]]; [discriminate|].
    apply lookup_singleton_Some in Hk. destruct Hk as [_ Hk]. discriminate.
Defined.

End ConfigFacts.

